(** * seidart.routines.materials: stiffness, permittivity and conductivity tensors

    A shallow embedding of [src/seidart/routines/materials.py].

    Number model.  Python floats and numpy float64 values are read as real
    numbers ([R]): every decimal literal of the source is the exact decimal,
    [+ - * /] are the field operations, [np.arctan], [np.cos], [np.sin] and
    [np.pi] are [atan], [cos], [sin] and [PI].  Rounding error, and the
    infinities and NaN that numpy answers to an overflow or a division by
    zero, are outside this model (no statement below rests on the value of
    a quotient by zero); the only NaN kept is the missing-cell marker of a
    table read by pandas ([read_ang]).

    Arrays.  A two-dimensional numpy array of floats is a function from a
    row and a column index to its entry; the shape (3x3 or 6x6) is the one
    the source allocates, and statements quantify over the indices inside
    it.  Python exceptions are values of [exn], carried by [result]. *)

From Stdlib Require Import Reals Lra Lia List String ZArith Bool Arith.
From Stdlib Require Import ClassicalEpsilon.
From Stdlib Require Import RNsatz.
Import ListNotations.

Open Scope R_scope.

(* ================================================================== *)
(** * Python results *)
(* ================================================================== *)

Inductive exn : Set :=
| KeyError           (* dict lookup of an unregistered key *)
| NameError          (* a name bound neither locally nor in the module *)
| IndexError         (* index outside an array *)
| ValueError         (* numpy reshape to an incompatible shape *)
| ZeroDivisionError  (* Python float or int division by zero *)
| TypeError          (* arithmetic on a value that is not a number *)
| FileNotFoundError  (* pandas cannot open the orientation file *)
| LinAlgError.       (* np.linalg.inv of a singular matrix *)

Inductive result (A : Type) : Type :=
| Ok (a : A)
| Raise (e : exn).

Arguments Ok {A} a.
Arguments Raise {A} e.

Definition bind {A B : Type} (r : result A) (k : A -> result B) : result B :=
  match r with
  | Ok a => k a
  | Raise e => Raise e
  end.

Notation "x <- r ;; k" := (bind r (fun x => k))
  (at level 61, r at next level, right associativity).
Notation "' p <- r ;; k" := (bind r (fun p => k))
  (at level 61, p pattern, r at next level, right associativity).

(* ================================================================== *)
(** * numpy arrays of floats *)
(* ================================================================== *)

Module Np.

(** A 2-D float array, indexed [C i j] for the source's [C[i,j]]. *)
Definition ndarray : Type := nat -> nat -> R.

(** [C[i,j]]. *)
Notation "C @[ i , j ]" := (C i%nat j%nat)
  (at level 1, i at level 99, j at level 99, only parsing).

(** [np.zeros([n,n])]. *)
Definition zeros : ndarray := fun _ _ => 0.

(** [np.eye(n,n)]. *)
Definition eye : ndarray := fun i j => if Nat.eqb i j then 1 else 0.

(** [C[i,j] = v]. *)
Definition set (C : ndarray) (i j : nat) (v : R) : ndarray :=
  fun a b => if Nat.eqb a i && Nat.eqb b j then v else C a b.

(** [C * x], a scalar broadcast over the array. *)
Definition scale (C : ndarray) (x : R) : ndarray := fun i j => C i j * x.

(** [C / x]. *)
Definition divs (C : ndarray) (x : R) : ndarray := fun i j => C i j / x.

(** [A + B]. *)
Definition add (A B : ndarray) : ndarray := fun i j => A i j + B i j.

(** [A * B], the elementwise product of two arrays. *)
Definition hadamard (A B : ndarray) : ndarray := fun i j => A i j * B i j.

(** [C[0:k,0:k] = v]. *)
Definition set_block (C : ndarray) (k : nat) (v : R) : ndarray :=
  fun a b => if Nat.ltb a k && Nat.ltb b k then v else C a b.

(** [C[i,:] = row], a row given by its literal list of entries. *)
Definition set_row (C : ndarray) (i : nat) (row : list R) : ndarray :=
  fun a b => if Nat.eqb a i then nth b row 0 else C a b.

(** [np.fill_diagonal(C, d)] on an n-by-n array, [d] the new diagonal. *)
Definition fill_diagonal (n : nat) (C : ndarray) (d : nat -> R) : ndarray :=
  fun a b => if Nat.eqb a b && Nat.ltb a n then d a else C a b.

(** [C.diagonal()]. *)
Definition diagonal (C : ndarray) : nat -> R := fun a => C a a.

(** [A.T]. *)
Definition transpose (A : ndarray) : ndarray := fun i j => A j i.

(** The sum of [f 0 .. f (n-1)]. *)
Fixpoint sum_upto (n : nat) (f : nat -> R) : R :=
  match n with
  | O => 0
  | S m => sum_upto m f + f m
  end.

(** [np.matmul(A, B)] for two n-by-n arrays. *)
Definition matmul (n : nat) (A B : ndarray) : ndarray :=
  fun i j => sum_upto n (fun k => A i k * B k j).

(** Equality of the entries inside an n-by-n shape. *)
Definition meq (n : nat) (A B : ndarray) : Prop :=
  forall i j, (i < n)%nat -> (j < n)%nat -> A i j = B i j.

(** [T[i,j] = T[j,i]] for all indices of an n-by-n array. *)
Definition symmetric (n : nat) (T : ndarray) : Prop :=
  forall i j, (i < n)%nat -> (j < n)%nat -> T i j = T j i.

(** [B] is a two-sided inverse of the n-by-n array [A]. *)
Definition is_inverse (n : nat) (A B : ndarray) : Prop :=
  meq n (matmul n A B) eye /\ meq n (matmul n B A) eye.

(** [np.linalg.inv(A)].  numpy hands the array to LAPACK; the model is its
    contract in exact arithmetic: the inverse when there is one,
    [LinAlgError] ("Singular matrix") when there is none, as the
    elimination then meets a pivot that is exactly zero.  In floating point
    a matrix without inverse other than one with an exactly zero pivot
    (the zero matrix, for one) may pass; the results below that name
    [LinAlgError] for a tensor of the program are on the zero matrix. *)
Definition linalg_inv (n : nat) (A : ndarray) : result ndarray :=
  match excluded_middle_informative (exists B, is_inverse n A B) with
  | left H => Ok (proj1_sig (constructive_indefinite_description _ H))
  | right _ => Raise LinAlgError
  end.

End Np.

Import Np.

Notation "C @[ i , j ]" := (C i%nat j%nat)
  (at level 1, i at level 99, j at level 99, only parsing).

(* ================================================================== *)
(** * Single-crystal ice stiffness *)
(* ================================================================== *)

(** [ice_stiffness(temperature, pressure)], temperature in Celsius and
    pressure in kbar. *)
Definition ice_stiffness (temperature pressure : R) : ndarray :=
  let C := zeros in
  let C := set C 0 0 (136.813 - 0.28940*temperature - 0.00178270*(temperature^2)
                      + 4.6648*pressure - 0.13501*(pressure^2)) in
  let C := set C 0 1 (69.4200 - 0.14673*temperature - 0.00090362*(temperature^2)
                      + 5.0743*pressure + 0.085917*(pressure^2)) in
  let C := set C 0 2 (56.3410 - 0.11916*temperature - 0.00073120*(temperature^2)
                      + 6.4189*pressure - 0.52490*(pressure^2)) in
  let C := set C 2 2 (147.607 - 0.31129*temperature - 0.0018948*(temperature^2)
                      + 4.7546*pressure - 0.11307*(pressure^2)) in
  let C := set C 3 3 (29.7260 - 0.062874*temperature - 0.00038956*(temperature^2)
                      + 0.5662*pressure + 0.036917*(pressure^2)) in
  (* Fill in the symmetry *)
  let C := set C 1 1 C@[0,0] in
  let C := set C 1 0 C@[0,1] in
  let C := set C 2 0 C@[0,2] in
  let C := set C 1 2 C@[0,2] in
  let C := set C 2 1 C@[0,2] in
  let C := set C 4 4 C@[3,3] in
  let C := set C 5 5 ((C@[0,0] - C@[0,1]) / 2) in
  scale C 1e8.


(* ================================================================== *)
(** * Material catalog *)
(* ================================================================== *)

(** One row of [isotropic_materials]; the source documents the eight
    positions as Vp_min, Vp_max, Vs_min, Vs_max, Rel_Perm_min,
    Rel_Perm_max, Conductivity_min, Conductivity_max (indices 0 to 7). *)
Record limits : Type := mk_limits {
  Vp_min : R; Vp_max : R; Vs_min : R; Vs_max : R;
  Perm_min : R; Perm_max : R; Cond_min : R; Cond_max : R
}.

Definition isotropic_materials : list (string * limits) :=
  [ ("air"%string,       mk_limits 343 343 0.0 0.0 1.0 1.0 1.0e-16 1.0e-15);
    ("ice1h"%string,     mk_limits 3400 3800 1700 1900 3.1 3.22 1.0e-7 1.0e-6);
    ("snow"%string,      mk_limits 100 2000 50 500 1.0 70 1.0e-9 1.0e-4);
    ("soil"%string,      mk_limits 300 700 100 300 3.9 29.4 1.0e-2 1.0e-1);
    ("water"%string,     mk_limits 1450 1500 0 0 80.36 80.36 5.5e-6 5.0e-2);
    ("oil"%string,       mk_limits 1200 1250 0 0 2.07 2.14 5.7e-8 2.1e-7);
    ("dry_sand"%string,  mk_limits 400 1200 100 500 2.9 4.7 1.0e-3 1.0e-3);
    ("wet_sand"%string,  mk_limits 1500 2000 400 600 2.9 105 2.5e-4 1.2e-3);
    ("granite"%string,   mk_limits 4500 6000 2500 3300 4.8 18.9 4.0e-5 2.5e-4);
    ("gneiss"%string,    mk_limits 4400 5200 2700 3200 8.5 8.5 2.5e-4 2.5e-3);
    ("basalt"%string,    mk_limits 5000 6000 2800 3400 12 12 1.0e-6 1.0e-4);
    ("limestone"%string, mk_limits 3500 6000 2000 3300 7.8 8.5 2.5e-4 1.0e-3);
    ("anhydrite"%string, mk_limits 4000 5500 2200 3100 5 11.5 1.0e-6 1.0e-5);
    ("coal"%string,      mk_limits 2200 2700 1000 1400 5.6 6.3 1.0e-8 1.0e-3);
    ("salt"%string,      mk_limits 4500 5500 2500 3100 5.6 5.6 1.0e-7 1.0e2) ].

(** [d[key]] on a Python dict. *)
Fixpoint dict_get {V : Type} (d : list (string * V)) (key : string) : result V :=
  match d with
  | [] => Raise KeyError
  | (k, v) :: rest => if String.eqb key k then Ok v else dict_get rest key
  end.

(* ================================================================== *)
(** * Density corrections *)
(* ================================================================== *)

(** [rho_water_correction(temperature)], the Kell equation.  The
    denominator is zero at the temperature -1/0.01689785 (about
    -59.18 C), where Python raises [ZeroDivisionError] on a float; the
    statements on values of this function keep the temperature away from
    it. *)
Definition rho_water_correction (temperature : R) : R :=
  (999.83952
   + 16.945176 * temperature
   - 7.9870401e-3 * temperature^2
   - 46.170461e-6 * temperature^3
   + 105.56302e-9 * temperature^4
   - 280.54253e-12 * temperature^5)
  / (1 + 16.897850e-3 * temperature).

(** [porewater_correction(temperature, density, porosity,
    liquid_water_content)]: the corrected density and the air and water
    contributions.  The air density is a quotient by [273 + temperature],
    zero at -273 C. *)
Definition porewater_correction
    (temperature density porosity liquid_water_content : R) : R * R * R :=
  let rho_air := 0.02897 / (8.2057338e-5 * (273 + temperature)) in
  let rho_water := rho_water_correction temperature in
  let rho_water := Rmax rho_water 950 in
  let rho_water := Rmin rho_water (rho_water_correction 0.0) in
  let grams_air := (1 - liquid_water_content/100) * rho_air in
  let grams_water := (liquid_water_content/100) * rho_water in
  let rho_wc := grams_air + grams_water in
  let density := (1 - porosity/100) * density + (porosity/100) * rho_wc in
  (density, grams_air, grams_water).

(* ================================================================== *)
(** * Isotropic tensors *)
(* ================================================================== *)

(** The interpolated velocities of [isotropic_stiffness_tensor]. *)
Definition pvelocity (pressure : R) (material_limits : limits) : R :=
  let cp := 2 * (Vp_max material_limits - Vp_min material_limits) / PI in
  cp * atan pressure + Vp_min material_limits.

Definition svelocity (pressure : R) (material_limits : limits) : R :=
  let cs := 2 * (Vs_max material_limits - Vs_min material_limits) / PI in
  cs * atan pressure + Vs_min material_limits.

(** The Lame parameters of [isotropic_stiffness_tensor]. *)
Definition lame_mu (pressure density : R) (material_limits : limits) : R :=
  density * (svelocity pressure material_limits ^ 2).

Definition lame_lam (pressure density : R) (material_limits : limits) : R :=
  density * (pvelocity pressure material_limits ^ 2)
  - 2 * lame_mu pressure density material_limits.

(** The block "Assign the matrix" of [isotropic_stiffness_tensor]. *)
Definition assign_isotropic (lam mu : R) : ndarray :=
  let C := zeros in
  let C := set_block C 3 lam in
  let C := fill_diagonal 6 C (fun a => diagonal C a + mu) in
  let C := set C 0 0 (lam + 2 * mu) in
  let C := set C 1 1 (C@[1,1] + mu) in
  let C := set C 2 2 (C@[2,2] + mu) in
  C.

(** [isotropic_stiffness_tensor(pressure, density, material_limits)]. *)
Definition isotropic_stiffness_tensor
    (pressure density : R) (material_limits : limits) : ndarray :=
  let mu := lame_mu pressure density material_limits in
  let lam := lame_lam pressure density material_limits in
  assign_isotropic lam mu.

(** [isotropic_permittivity_tensor(temperature, porosity, water_content,
    material_name)]: the permittivity and the conductivity tensor. *)
Definition isotropic_permittivity_tensor
    (temperature porosity water_content : R) (material_name : string)
    : result (ndarray * ndarray) :=
  material_limits <- dict_get isotropic_materials material_name ;;
  let perm0 := Perm_min material_limits in
  let perm1 := Perm_max material_limits in
  let cond0 := Cond_min material_limits in
  let cond1 := Cond_max material_limits in
  if String.eqb material_name "ice1h" then
    let perm0 := 3.1884 + 9.1e-4 * temperature in
    let perm_coef := (perm1 - perm0) / 85 in
    let cond_coef := (cond1 - cond0) / 85 in
    Ok (scale eye (perm_coef * porosity + perm0),
        scale eye (cond_coef * porosity + cond0))
  else if String.eqb material_name "soil"
          || String.eqb material_name "dry sand" then
    let perm_coef := (perm1 - perm0) / 55 in
    let cond_coef := (cond1 - cond0) / 55 in
    Ok (scale eye (perm_coef * porosity + perm0),
        scale eye (cond_coef * porosity + cond0))
  else if String.eqb material_name "salt" then
    let cond_coef := (cond1 - cond0) / 20 in
    Ok (scale eye perm0,
        scale eye (cond_coef * water_content + cond0))
  else if String.eqb material_name "water"
          || String.eqb material_name "oil" then
    Ok (scale eye (Perm_min material_limits),
        scale eye (Cond_min material_limits))
  else
    let perm_coef := (perm1 - perm0) / 3 in
    let cond_coef := (cond1 - cond0) / 3 in
    Ok (scale eye (perm_coef * porosity + perm0),
        scale eye (cond_coef * porosity + cond0)).

(* ================================================================== *)
(** * Complex-valued arrays *)
(* ================================================================== *)

(** A 3-by-3 numpy array with its dtype: float64, or complex128 given by
    its real and imaginary parts. *)
Inductive array : Type :=
| Float64 (re : ndarray)
| Complex128 (re im : ndarray).

(** [a.real] and [a.imag]. *)
Definition real (a : array) : ndarray :=
  match a with
  | Float64 re => re
  | Complex128 re _ => re
  end.

Definition imag (a : array) : ndarray :=
  match a with
  | Float64 _ => zeros
  | Complex128 _ im => im
  end.

(** [np.iscomplexobj(a)]; the argument may be [None]. *)
Definition iscomplexobj (a : option array) : bool :=
  match a with
  | Some (Complex128 _ _) => true
  | _ => false
  end.

(** [np.diag(A).mean()] of a 3-by-3 array. *)
Definition diag_mean3 (A : ndarray) : R := (A@[0,0] + A@[1,1] + A@[2,2]) / 3.

(* ================================================================== *)
(** * Module-level names *)
(* ================================================================== *)

Definition eps0 : R := 8.85418782e-12.
Definition mu0 : R := 4.0 * PI * 1.0e-7.
Definition c_light : R := 299792458.

(** What a module-level name is bound to: a float, or something else (an
    imported module, a function, a table, an interpolant). *)
Inductive pyval : Type :=
| VFloat (x : R)
| VOther.

(** The names bound at module level in materials.py, in order of binding.
    A name a function reads without binding it is looked up here. *)
Definition module_globals : list (string * pyval) :=
  [ ("np"%string, VOther); ("pd"%string, VOther);
    ("Union"%string, VOther); ("Tuple"%string, VOther);
    ("interp1d"%string, VOther); ("__all__"%string, VOther);
    ("eps0"%string, VFloat eps0); ("mu0"%string, VFloat mu0);
    ("c_light"%string, VFloat c_light);
    ("isotropic_materials"%string, VOther);
    ("pressure_array"%string, VOther);
    ("anisotropic_boolean"%string, VOther);
    ("get_seismic"%string, VOther); ("get_perm"%string, VOther);
    ("rho_water_correction"%string, VOther);
    ("isotropic_stiffness_tensor"%string, VOther);
    ("isotropic_permittivity_tensor"%string, VOther);
    ("porewater_correction"%string, VOther);
    ("ice_stiffness"%string, VOther); ("ice_density"%string, VOther);
    ("ice_permittivity"%string, VOther);
    ("snow_permittivity"%string, VOther);
    ("water_permittivity"%string, VOther);
    ("snow_conductivity"%string, VOther);
    ("read_ang"%string, VOther); ("rotator_zxz"%string, VOther);
    ("bond"%string, VOther);
    ("highfreq_stability_conditions"%string, VOther);
    ("tensor2velocities"%string, VOther);
    ("T"%string, VOther); ("A"%string, VOther);
    ("B"%string, VOther); ("C"%string, VOther);
    ("A_interp"%string, VOther); ("B_interp"%string, VOther);
    ("C_interp"%string, VOther);
    ("fujita_complex_permittivity"%string, VOther) ].

(** Reading a name that the function does not bind: the module's binding,
    or [NameError]. *)
Fixpoint load_global_in (g : list (string * pyval)) (name : string)
    : result pyval :=
  match g with
  | [] => Raise NameError
  | (k, v) :: rest => if String.eqb name k then Ok v else load_global_in rest name
  end.

Definition load_global (name : string) : result pyval :=
  load_global_in module_globals name.

(** Using a loaded value as a number. *)
Definition as_float (v : pyval) : result R :=
  match v with
  | VFloat x => Ok x
  | VOther => Raise TypeError
  end.

(* ================================================================== *)
(** * Ice and snow dielectric models *)
(* ================================================================== *)

Section Dielectric.

(** The three cubic interpolants [A_interp], [B_interp], [C_interp] that
    scipy builds from Fujita's table when the module is loaded. *)
Variables A_interp B_interp C_interp : R -> R.

(** [fujita_complex_permittivity(temperature, frequency)]. *)
Definition fujita_complex_permittivity (temperature frequency : R) : R :=
  let temperature := temperature + 273 in
  let frequency := frequency / 1e9 in
  let A_val := A_interp temperature in
  let B_val := B_interp temperature in
  let C_val := C_interp temperature in
  A_val / frequency + B_val * Rpower frequency C_val.

(** [ice_permittivity(temperature, density, center_frequency, method)].
    With [method = "kovacs"] the scalar [perm] is a float and the array
    stays real; otherwise [perm] is complex, and only [method = "fujita"]
    adds the offset [dP] to the [2,2] entry. *)
Definition ice_permittivity
    (temperature density center_frequency : R) (method : string) : array :=
  if String.eqb method "kovacs" then
    let perm := (1 + 0.845 * density)^2 in
    Float64 (scale eye perm)
  else
    let perm := 3.1884 + 9.1e-4 * temperature in
    let dP := 0.0256 + 3.57e-5 * (6.0e-6) * temperature in
    let complex_perm :=
      fujita_complex_permittivity temperature center_frequency in
    let permittivity_re := scale eye perm in
    let permittivity_im := scale eye complex_perm in
    if String.eqb method "fujita" then
      Complex128 (set permittivity_re 2 2 (perm + dP))
                 (set permittivity_im 2 2 complex_perm)
    else
      Complex128 permittivity_re permittivity_im.

(** [snow_permittivity(density, temperature, lwc, porosity,
    center_frequency, method)]: the complex tensor and the corrected
    density in g/cm3. *)
Definition snow_permittivity
    (density temperature lwc porosity center_frequency : R)
    (method : string) : array * R :=
  let '(rho_d, grams_air, grams_water) :=
    porewater_correction temperature density porosity lwc in
  let lwc := grams_water / 1000 in
  let rho_d := rho_d / 1000 in
  let T := temperature + 273.15 in
  let perm :=
    if String.eqb method "shivola-tiuri" then
      8.8*lwc + 70.4*(lwc^2) + 1 + 1.17*rho_d + 0.7*(rho_d^2)
    else if String.eqb method "wise" then
      1 + 1.202*rho_d + 0.983*(rho_d^2) + 21.3*lwc
    else if String.eqb method "jones" then
      78.51 * (1 - 4.579 * 1e-3 * (T - 298)
                 + 1.19 * 1e-5 * (T - 298)^2
                 - 2.8 * 1e-8 * (T - 298)^3)
    else
      77.66 - 103.3 * (1 - (300 / T)) in
  let complex_permittivity :=
    if Rlt_dec 0 lwc then
      0.8*lwc + 0.72*(lwc^2)
    else
      let eps_i :=
        diag_mean3 (imag (ice_permittivity temperature 917 center_frequency
                                           "fujita")) in
      eps_i * (0.52 * rho_d + 0.62 * rho_d^2) in
  (Complex128 (scale eye perm) (scale eye complex_permittivity), rho_d).

End Dielectric.

(** [snow_conductivity(lwc, permittivity, frequency)]; [lwc] and
    [permittivity] default to [None].  The branch for a permittivity that
    is not complex reads [temperature], [density] and [porosity], which are
    neither parameters nor local variables. *)
Definition snow_conductivity
    (lwc : option R) (permittivity : option array) (frequency : R)
    : result ndarray :=
  if iscomplexobj permittivity then
    let sigma :=
      match permittivity with
      | Some a => scale (scale (imag a) frequency) eps0
      | None => zeros
      end in
    Ok (hadamard eye sigma)
  else
    temperature <- bind (load_global "temperature") as_float ;;
    density <- bind (load_global "density") as_float ;;
    porosity <- bind (load_global "porosity") as_float ;;
    lwc <- match lwc with Some x => Ok x | None => Raise TypeError end ;;
    let '(_, _, grams_water) :=
      porewater_correction temperature density porosity lwc in
    let lwc := grams_water / 1000 in
    let sigma := (20 + 3e3 * lwc) * 1e-4 in
    Ok (scale eye sigma).

(* ================================================================== *)
(** * Orientation files *)
(* ================================================================== *)

(** A cell of the table pandas reads: a float, or NaN ([None]) where the
    line had no value for the column. *)
Definition cell : Type := option R.

(** The table as [to_numpy()] returns it: a list of rows of equal length. *)
Definition table : Type := list (list cell).

(** [np.shape(euler)]. *)
Definition shape {A : Type} (euler : list (list A)) : nat * nat :=
  (List.length euler, List.length (hd [] euler)).

(** The cells that are not NaN, in order. *)
Fixpoint drop_nan (cells : list cell) : list R :=
  match cells with
  | [] => []
  | Some x :: rest => x :: drop_nan rest
  | None :: rest => drop_nan rest
  end.

(** The [m] rows of [k] entries that [reshape(m, k)] cuts a flat array
    into. *)
Fixpoint rows_of (m k : nat) (flat : list R) : list (list R) :=
  match m with
  | O => []
  | S m' => firstn k flat :: rows_of m' k (skipn k flat)
  end.

(** [flat.reshape(m, k)]. *)
Definition reshape (flat : list R) (m k : nat) : result (list (list R)) :=
  if Nat.eqb (m * k) (List.length flat) then Ok (rows_of m k flat)
  else Raise ValueError.

(** [euler[~np.isnan(euler)]] on the flattened table of [m] rows.  A table
    without rows (a file that holds its header line only) comes from pandas
    with dtype object, and on such an array [np.isnan] raises
    [TypeError]. *)
Definition select_not_nan (m : nat) (cells : list cell) : result (list R) :=
  if Nat.eqb m 0 then Raise TypeError else Ok (drop_nan cells).

(** The part of [read_ang] after the file is loaded.  The division
    [len(euler)/m] is reached with a positive [m] only. *)
Definition read_ang_table (euler : table) : result (list (list R)) :=
  let euler :=
    if Nat.ltb 3 (fst (shape euler)) then map (firstn 3) euler else euler in
  let '(m, n) := shape euler in
  let euler := List.concat euler in
  euler <- select_not_nan m euler ;;
  reshape euler m (List.length euler / m).

(* ================================================================== *)
(** * Rotations *)
(* ================================================================== *)

(** [eul[i]] on a row of an orientation array. *)
Definition item {A : Type} (l : list A) (i : nat) : result A :=
  match nth_error l i with
  | Some x => Ok x
  | None => Raise IndexError
  end.

(** [rotator_zxz(eul)]. *)
Definition rotator_zxz (eul : list R) : result ndarray :=
  e0 <- item eul 0 ;;
  e1 <- item eul 1 ;;
  e2 <- item eul 2 ;;
  let D := zeros in
  let C := zeros in
  let B := zeros in
  let D := set_row D 0 [ cos e0; - sin e0; 0.0 ] in
  let D := set_row D 1 [ sin e0; cos e0; 0.0 ] in
  let D := set_row D 2 [ 0.0; 0.0; 1.0 ] in
  let C := set_row C 0 [ 1.0; 0.0; 0.0 ] in
  let C := set_row C 1 [ 0.0; cos e1; - sin e1 ] in
  let C := set_row C 2 [ 0.0; sin e1; cos e1 ] in
  let B := set_row B 0 [ cos e2; - sin e2; 0.0 ] in
  let B := set_row B 1 [ sin e2; cos e2; 0.0 ] in
  let B := set_row B 2 [ 0.0; 0.0; 1.0 ] in
  Ok (matmul 3 D (matmul 3 C B)).

(** [bond(R)]. *)
Definition bond (R : ndarray) : ndarray :=
  let M := zeros in
  let M := set_row M 0
    [ R@[0,0]^2; R@[0,1]^2; R@[0,2]^2;
      2*R@[0,1]*R@[0,2]; 2*R@[0,2]*R@[0,0]; 2*R@[0,0]*R@[0,1] ] in
  let M := set_row M 1
    [ R@[1,0]^2; R@[1,1]^2; R@[1,2]^2;
      2*R@[1,1]*R@[1,2]; 2*R@[1,2]*R@[1,0]; 2*R@[1,0]*R@[1,1] ] in
  let M := set_row M 2
    [ R@[2,0]^2; R@[2,1]^2; R@[2,2]^2;
      2*R@[2,1]*R@[2,2]; 2*R@[2,2]*R@[2,0]; 2*R@[2,0]*R@[2,1] ] in
  let M := set_row M 3
    [ R@[1,0]*R@[2,0]; R@[1,1]*R@[2,1]; R@[1,2]*R@[2,2];
      R@[1,1]*R@[2,2] + R@[1,2]*R@[2,1];
      R@[1,2]*R@[2,0] + R@[1,0]*R@[2,2];
      R@[1,0]*R@[2,1] + R@[1,1]*R@[2,0] ] in
  let M := set_row M 4
    [ R@[2,0]*R@[0,0]; R@[2,1]*R@[0,1]; R@[2,2]*R@[0,2];
      R@[2,1]*R@[0,2] + R@[2,2]*R@[0,1];
      R@[2,2]*R@[0,0] + R@[2,0]*R@[0,2];
      R@[2,0]*R@[0,1] + R@[2,1]*R@[0,0] ] in
  let M := set_row M 5
    [ R@[0,0]*R@[1,0]; R@[0,1]*R@[1,1]; R@[0,2]*R@[1,2];
      R@[0,1]*R@[1,2] + R@[0,2]*R@[1,1];
      R@[0,2]*R@[1,0] + R@[0,0]*R@[1,2];
      R@[0,0]*R@[1,1] + R@[0,1]*R@[1,0] ] in
  M.

(* ================================================================== *)
(** * Stability conditions *)
(* ================================================================== *)

(** The three values [highfreq_stability_conditions] computes. *)
Definition stability_values (T : ndarray) : R * R * R :=
  let cond1 :=
    ((T@[0,1] + T@[2,2])^2 - T@[0,0] * (T@[1,1] - T@[2,2]))
    * ((T@[0,1] + T@[2,2])^2 + T@[2,2] * (T@[1,1] - T@[2,2])) in
  let cond2 := (T@[0,1] + 2 * T@[2,2])^2 - T@[0,0] * T@[1,1] in
  let cond3 := (T@[0,1] + T@[2,2])^2 - T@[0,0] * T@[2,2] - T@[2,2]^2 in
  (cond1, cond2, cond3).

(** The line printed when condition [k] has a positive value. *)
Definition stability_message (k : nat) : string :=
  match k with
  | 1%nat => "Failed to pass high frequency stability condition 1."
  | 2%nat => "Failed to pass high frequency stability condition 2."
  | _ => "Failed to pass high frequency stability condition 3."
  end.

(** [if cond > 0: print(msg)]. *)
Definition print_if_positive (cond : R) (msg : string) : list string :=
  if Rlt_dec 0 cond then [msg] else [].

(** [highfreq_stability_conditions(T)]: the returned triple and the lines
    printed, in order. *)
Definition highfreq_stability_conditions (T : ndarray)
    : (R * R * R) * list string :=
  let '(cond1, cond2, cond3) := stability_values T in
  ((cond1, cond2, cond3),
   print_if_positive cond1 (stability_message 1)
   ++ print_if_positive cond2 (stability_message 2)
   ++ print_if_positive cond3 (stability_message 3)).

(* ================================================================== *)
(** * Rounding *)
(* ================================================================== *)

(** [np.round(x)]: the nearest integer, ties to the even one. *)
Definition np_round (x : R) : R :=
  let n := Zfloor x in
  let f := x - IZR n in
  if Rlt_dec f (1/2) then IZR n
  else if Rlt_dec (1/2) f then IZR (n + 1)
  else if Z.even n then IZR n else IZR (n + 1).

(** [np.round(x, d)]: [d] decimals. *)
Definition np_round_decimals (d : nat) (x : R) : R :=
  np_round (x * 10 ^ d) / 10 ^ d.

(** [np.round(C)] on an array. *)
Definition round_array (C : ndarray) : ndarray := fun i j => np_round (C i j).

Definition round_array_decimals (d : nat) (C : ndarray) : ndarray :=
  fun i j => np_round_decimals d (C i j).

(* ================================================================== *)
(** * Voigt, Reuss and Hill averages *)
(* ================================================================== *)

(** [len(euler[:,0])]: the number of rows; taking column 0 fails on an
    array that has no column. *)
Definition len_column0 (euler : list (list R)) : result nat :=
  match hd [] euler with
  | [] => Raise IndexError
  | _ :: _ => Ok (List.length euler)
  end.

(** The loop [for k in range(0, p)] of [get_seismic], over the rows
    [euler[k,:]] in order. *)
Fixpoint seismic_accumulate (C S : ndarray) (rows : list (list R))
    (cvoigt creuss : ndarray) : result (ndarray * ndarray) :=
  match rows with
  | [] => Ok (cvoigt, creuss)
  | eul :: rest =>
      R <- rotator_zxz eul ;;
      let M := bond R in
      N <- linalg_inv 6 M ;;
      let cvoigt := add cvoigt (matmul 6 M (matmul 6 C (transpose M))) in
      let creuss := add creuss (matmul 6 N (matmul 6 S (transpose N))) in
      seismic_accumulate C S rest cvoigt creuss
  end.

(** The homogenization block of [get_seismic] for the single-crystal
    stiffness [C]: the Voigt, Reuss and Hill averages. *)
Definition seismic_hill (C : ndarray) (euler : list (list R))
    : result (ndarray * ndarray * ndarray) :=
  p <- len_column0 euler ;;
  let cvoigt := zeros in
  let creuss := zeros in
  S <- linalg_inv 6 C ;;
  '(cvoigt, creuss) <- seismic_accumulate C S euler cvoigt creuss ;;
  let cvoigt := divs cvoigt (INR p) in
  let creuss := divs creuss (INR p) in
  creuss <- linalg_inv 6 creuss ;;
  let C := divs (add cvoigt creuss) 2 in
  Ok (cvoigt, creuss, C).

(** The four running sums of the loop of [get_perm]. *)
Record perm_sums : Type := mk_perm_sums {
  pvoigt : ndarray; cvoigt : ndarray; preuss : ndarray; creuss : ndarray
}.

(** The loop [for k in range(0, p)] of [get_perm]. *)
Fixpoint perm_accumulate (permittivity conductivity Sp Sc : ndarray)
    (rows : list (list R)) (acc : perm_sums) : result perm_sums :=
  match rows with
  | [] => Ok acc
  | eul :: rest =>
      R <- rotator_zxz eul ;;
      Ri <- linalg_inv 3 R ;;
      let acc :=
        mk_perm_sums
          (add (pvoigt acc) (matmul 3 R (matmul 3 permittivity (transpose R))))
          (add (cvoigt acc) (matmul 3 R (matmul 3 conductivity (transpose R))))
          (add (preuss acc) (matmul 3 Ri (matmul 3 Sp (transpose Ri))))
          (add (creuss acc) (matmul 3 Ri (matmul 3 Sc (transpose Ri)))) in
      perm_accumulate permittivity conductivity Sp Sc rest acc
  end.

(** The homogenization block of [get_perm]: for the permittivity and for
    the conductivity, the Voigt, Reuss and Hill averages. *)
Definition perm_hill (permittivity conductivity : ndarray)
    (euler : list (list R))
    : result ((ndarray * ndarray * ndarray) * (ndarray * ndarray * ndarray)) :=
  p <- len_column0 euler ;;
  let acc := mk_perm_sums zeros zeros zeros zeros in
  Sp <- linalg_inv 3 permittivity ;;
  Sc <- linalg_inv 3 conductivity ;;
  acc <- perm_accumulate permittivity conductivity Sp Sc euler acc ;;
  let pvoigt := divs (pvoigt acc) (INR p) in
  let cvoigt := divs (cvoigt acc) (INR p) in
  let preuss := divs (preuss acc) (INR p) in
  let creuss := divs (creuss acc) (INR p) in
  preuss <- linalg_inv 3 preuss ;;
  creuss <- linalg_inv 3 creuss ;;
  let permittivity := divs (add pvoigt preuss) 2 in
  let conductivity := divs (add cvoigt creuss) 2 in
  Ok ((pvoigt, preuss, permittivity), (cvoigt, creuss, conductivity)).

(** The symmetric matrix [np.linalg.eigh] reads: the lower triangle of
    its argument. *)
Definition lower_sym (C : ndarray) : ndarray :=
  fun i j => if Nat.leb j i then C i j else C j i.

(** All eigenvalues that [np.linalg.eigh(C)] returns are positive. *)
Definition positive_definite (n : nat) (C : ndarray) : Prop :=
  forall x : nat -> R,
    (exists i, (i < n)%nat /\ x i <> 0) ->
    0 < sum_upto n (fun i => sum_upto n (fun j => x i * lower_sym C i j * x j)).

(** [np.sum(eigenvalues <= 0) > 0]. *)
Definition has_nonpositive_eigenvalue (n : nat) (C : ndarray) : bool :=
  if excluded_middle_informative (positive_definite n C) then false else true.

(* ================================================================== *)
(** * Tensor assembly *)
(* ================================================================== *)

Module Material.
(** The attributes of the material object that the two routines read, one
    entry per material. *)
Record t : Type := mk {
  temp : list R;
  rho : list R;
  porosity : list R;
  lwc : list R;
  is_anisotropic : list bool;
  material : list string;
  angfile : list string
}.
End Material.

(** A pandas table of coefficients: rows by integer label. *)
Definition frame : Type := list (nat * list R).

(** [df.loc[ind] = row]. *)
Fixpoint loc_set (df : frame) (ind : nat) (row : list R) : frame :=
  match df with
  | [] => [(ind, row)]
  | (k, r) :: rest =>
      if Nat.eqb k ind then (ind, row) :: rest
      else (k, r) :: loc_set rest ind row
  end.

(** The attributes of [self] the two routines use. *)
Record Model : Type := mk_Model {
  f0 : R;
  stiffness_coefficients : frame;
  permittivity_coefficients : frame;
  conductivity_coefficients : frame
}.

(** The 21 upper-triangular entries of a 6-by-6 array, row by row. *)
Definition upper21 (C : ndarray) : list R :=
  [ C@[0,0]; C@[0,1]; C@[0,2]; C@[0,3]; C@[0,4]; C@[0,5];
             C@[1,1]; C@[1,2]; C@[1,3]; C@[1,4]; C@[1,5];
                      C@[2,2]; C@[2,3]; C@[2,4]; C@[2,5];
                               C@[3,3]; C@[3,4]; C@[3,5];
                                        C@[4,4]; C@[4,5];
                                                 C@[5,5] ].

(** The 6 upper-triangular entries of a 3-by-3 array. *)
Definition upper6 (P : ndarray) : list R :=
  [ P@[0,0]; P@[0,1]; P@[0,2]; P@[1,1]; P@[1,2]; P@[2,2] ].

Section Pipeline.

(** [pd.read_table(filepath, delimiter=" ").to_numpy()]: what the file
    system holds at a path. *)
Variable read_table : string -> result table.

Variables A_interp B_interp C_interp : R -> R.

(** [read_ang(filepath)]. *)
Definition read_ang (filepath : string) : result (list (list R)) :=
  euler <- read_table filepath ;;
  read_ang_table euler.

(** The [if]/[elif]/[else] of [get_seismic] that computes the tensor [C]
    of the material [ind], with the lines it prints. *)
Definition stiffness_branch (material : Material.t) (ind : nat)
    (temp_i density : R) (aniso : bool) (name : string)
    : result (ndarray * list string) :=
  if aniso && String.eqb name "ice1h" then
    angfile_i <- item (Material.angfile material) ind ;;
    euler <- read_ang angfile_i ;;
    let pressure := 0.1 * 1e-1 in
    '(_, _, C) <- seismic_hill (ice_stiffness temp_i pressure) euler ;;
    Ok (C,
        [ "Computing the stiffness for anisotropic material ice1h."%string;
          if has_nonpositive_eigenvalue 6 C
          then "Stiffness tensor is not positive definite."%string
          else "Stiffness tensor is positive definite"%string ])
  else if negb aniso && String.eqb name "ice1h" then
    Ok (ice_stiffness temp_i 0.1,
        [ "Computing the homogeneous stiffness coefficients."%string ])
  else
    material_limits <- dict_get isotropic_materials name ;;
    Ok (isotropic_stiffness_tensor 0.1 density material_limits, []).

(** The body of the loop of [get_seismic] for the material [ind]: the
    record written to [self.stiffness_coefficients.loc[ind]] and the lines
    printed. *)
Definition get_seismic_row (material : Material.t) (ind : nat)
    : result (list R * list string) :=
  temp_i <- item (Material.temp material) ind ;;
  rho_i <- item (Material.rho material) ind ;;
  porosity_i <- item (Material.porosity material) ind ;;
  lwc_i <- item (Material.lwc material) ind ;;
  let '(density, _, _) :=
    porewater_correction temp_i rho_i porosity_i lwc_i in
  aniso <- item (Material.is_anisotropic material) ind ;;
  name <- item (Material.material material) ind ;;
  '(C, out) <- stiffness_branch material ind temp_i density aniso name ;;
  let '(_, out') := highfreq_stability_conditions C in
  let C := round_array C in
  Ok (upper21 C ++ [density], out ++ out').

(** [for ind in range(0, m)] with the table of [self] threaded through. *)
Fixpoint get_seismic_loop (material : Material.t) (inds : list nat)
    (self : Model) (out : list string) : result (Model * list string) :=
  match inds with
  | [] => Ok (self, out)
  | ind :: rest =>
      '(row, out') <- get_seismic_row material ind ;;
      let self :=
        mk_Model (f0 self)
                 (loc_set (stiffness_coefficients self) ind row)
                 (permittivity_coefficients self)
                 (conductivity_coefficients self) in
      get_seismic_loop material rest self (out ++ out')
  end.

(** [get_seismic(self, material)]. *)
Definition get_seismic (self : Model) (material : Material.t)
    : result (Model * list string) :=
  let m := List.length (Material.temp material) in
  get_seismic_loop material (seq 0 m) self [].

(** The [if]/[elif]/[else] of [get_perm] that computes the permittivity
    and the conductivity of the material [ind] named [name]. *)
Definition dielectric_branch (self : Model) (material : Material.t)
    (ind : nat) (name : string) : result (array * ndarray) :=
  if String.eqb name "ice1h" then
    temp_i <- item (Material.temp material) ind ;;
    rho_i <- item (Material.rho material) ind ;;
    let permittivity :=
      ice_permittivity A_interp B_interp C_interp
                       temp_i rho_i (f0 self) "fujita" in
    conductivity <- snow_conductivity None (Some permittivity) (f0 self) ;;
    Ok (permittivity, conductivity)
  else if String.eqb name "snow" then
    temp_i <- item (Material.temp material) ind ;;
    lwc_i <- item (Material.lwc material) ind ;;
    porosity_i <- item (Material.porosity material) ind ;;
    let '(permittivity, rho_d) :=
      snow_permittivity A_interp B_interp C_interp
                        917 temp_i lwc_i porosity_i (f0 self)
                        "shivola-tiuri" in
    conductivity <- snow_conductivity None (Some permittivity) (f0 self) ;;
    Ok (permittivity, conductivity)
  else
    temp_i <- item (Material.temp material) ind ;;
    porosity_i <- item (Material.porosity material) ind ;;
    lwc_i <- item (Material.lwc material) ind ;;
    pc <- isotropic_permittivity_tensor temp_i porosity_i lwc_i name ;;
    let permittivity := round_array_decimals 3 (fst pc) in
    pc' <- isotropic_permittivity_tensor temp_i porosity_i lwc_i name ;;
    Ok (Float64 permittivity, snd pc').

(** The body of the loop of [get_perm] for the material [ind]: the two
    records written and the lines printed. *)
Definition get_perm_row (self : Model) (material : Material.t) (ind : nat)
    : result (list R * list R * list string) :=
  name <- item (Material.material material) ind ;;
  '(permittivity, conductivity) <-
    dielectric_branch self material ind name ;;
  let permittivity := real permittivity in
  aniso <- item (Material.is_anisotropic material) ind ;;
  '(permittivity, conductivity, out) <-
    (if aniso : bool then
       angfile_i <- item (Material.angfile material) ind ;;
       euler <- read_ang angfile_i ;;
       '((_, _, permittivity), (_, _, conductivity)) <-
         perm_hill permittivity conductivity euler ;;
       Ok (permittivity, conductivity,
           if has_nonpositive_eigenvalue 3 permittivity
           then [ "Permittivity tensor is not positive definite."%string ]
           else [])
     else Ok (permittivity, conductivity, [])) ;;
  Ok (upper6 permittivity, upper6 conductivity, out).

(** [for ind in range(0, m)] of [get_perm] with the two tables of [self]
    threaded through. *)
Fixpoint get_perm_loop (material : Material.t) (inds : list nat)
    (self : Model) (out : list string) : result (Model * list string) :=
  match inds with
  | [] => Ok (self, out)
  | ind :: rest =>
      '(perm_row, cond_row, out') <- get_perm_row self material ind ;;
      let self :=
        mk_Model (f0 self)
                 (stiffness_coefficients self)
                 (loc_set (permittivity_coefficients self) ind perm_row)
                 (loc_set (conductivity_coefficients self) ind cond_row) in
      get_perm_loop material rest self (out ++ out')
  end.

(** [get_perm(self, material)]. *)
Definition get_perm (self : Model) (material : Material.t)
    : result (Model * list string) :=
  let m := List.length (Material.temp material) in
  get_perm_loop material (seq 0 m) self [].

End Pipeline.

(* ================================================================== *)
(** * Definitions used in the statements *)
(* ================================================================== *)

(** The five independent constants as the specification names them
    (c11, c12, c13, c33, c44), before the factor 1e8. *)
Definition gammon_c11 (t p : R) : R :=
  136.813 - 0.28940*t - 0.00178270*t^2 + 4.6648*p - 0.13501*p^2.
Definition gammon_c12 (t p : R) : R :=
  69.4200 - 0.14673*t - 0.00090362*t^2 + 5.0743*p + 0.085917*p^2.
Definition gammon_c13 (t p : R) : R :=
  56.3410 - 0.11916*t - 0.00073120*t^2 + 6.4189*p - 0.52490*p^2.
Definition gammon_c33 (t p : R) : R :=
  147.607 - 0.31129*t - 0.0018948*t^2 + 4.7546*p - 0.11307*p^2.
Definition gammon_c44 (t p : R) : R :=
  29.7260 - 0.062874*t - 0.00038956*t^2 + 0.5662*p + 0.036917*p^2.

(** A 6-by-6 tensor of hexagonal symmetry and its compliance. *)
Definition hexagonal (a b c d e f : R) : ndarray :=
  fun i j =>
    match i, j with
    | 0%nat, 0%nat | 1%nat, 1%nat => a
    | 0%nat, 1%nat | 1%nat, 0%nat => b
    | 0%nat, 2%nat | 2%nat, 0%nat | 1%nat, 2%nat | 2%nat, 1%nat => c
    | 2%nat, 2%nat => d
    | 3%nat, 3%nat | 4%nat, 4%nat => e
    | 5%nat, 5%nat => f
    | _, _ => 0
    end.

Definition hexagonal_compliance (a b c d e f : R) : ndarray :=
  let D := (a + b) * d - 2 * c^2 in
  hexagonal ((a * d - c^2) / ((a - b) * D))
            ((c^2 - b * d) / ((a - b) * D))
            (- c / D)
            ((a + b) / D)
            (/ e)
            (/ f).

(** The four running sums of [get_perm] are symmetric. *)
Definition perm_sums_symmetric (acc : perm_sums) : Prop :=
  symmetric 3 (pvoigt acc) /\ symmetric 3 (cvoigt acc)
  /\ symmetric 3 (preuss acc) /\ symmetric 3 (creuss acc).

(** [df.loc[ind]] read back. *)
Fixpoint loc_get (df : frame) (ind : nat) : option (list R) :=
  match df with
  | [] => None
  | (k, r) :: rest => if Nat.eqb k ind then Some r else loc_get rest ind
  end.

(** The density [get_seismic] computes for the material [ind]. *)
Definition corrected_density (material : Material.t) (ind : nat) (d : R)
    : Prop :=
  exists temp_i rho_i porosity_i lwc_i,
    item (Material.temp material) ind = Ok temp_i
    /\ item (Material.rho material) ind = Ok rho_i
    /\ item (Material.porosity material) ind = Ok porosity_i
    /\ item (Material.lwc material) ind = Ok lwc_i
    /\ d = fst (fst (porewater_correction temp_i rho_i porosity_i lwc_i)).

(** The tensor [get_seismic] computes for the material [ind], before it is
    rounded. *)
Definition selected_stiffness (read_table : string -> result table)
    (material : Material.t) (ind : nat) (C : ndarray) : Prop :=
  exists temp_i density aniso name out,
    item (Material.temp material) ind = Ok temp_i
    /\ corrected_density material ind density
    /\ item (Material.is_anisotropic material) ind = Ok aniso
    /\ item (Material.material material) ind = Ok name
    /\ stiffness_branch read_table material ind temp_i density aniso name
       = Ok (C, out).

(** The form of a record of [self.stiffness_coefficients] for the tensor
    [C] and the density, entry by entry: the 21 entries on and above the
    diagonal of [C], row after row, each rounded by [np.round], and then
    the density as it is, 22 values in all; every rounded entry is an
    integer at distance at most 1/2 from the entry of [C]. *)
Definition rounded_record (row : list R) (C : ndarray) (density : R) : Prop :=
  row = [ np_round (C@[0,0]); np_round (C@[0,1]); np_round (C@[0,2]);
          np_round (C@[0,3]); np_round (C@[0,4]); np_round (C@[0,5]);
          np_round (C@[1,1]); np_round (C@[1,2]); np_round (C@[1,3]);
          np_round (C@[1,4]); np_round (C@[1,5]);
          np_round (C@[2,2]); np_round (C@[2,3]); np_round (C@[2,4]);
          np_round (C@[2,5]);
          np_round (C@[3,3]); np_round (C@[3,4]); np_round (C@[3,5]);
          np_round (C@[4,4]); np_round (C@[4,5]);
          np_round (C@[5,5]);
          density ]
  /\ (forall k, (k < 21)%nat -> exists z : Z, nth k row 0 = IZR z)
  /\ (forall i j : nat, Rabs (np_round (C i j) - C i j) <= 1 / 2).

(** A table all of whose rows have [n] cells. *)
Definition rectangular {A : Type} (n : nat) (rows : list (list A)) : Prop :=
  forall r, In r rows -> List.length r = n.

(* ================================================================== *)
(** * Concrete inputs *)
(* ================================================================== *)

(** A table of two rows and four columns, and one of four rows and two
    columns. *)
Definition table_2x4 : table :=
  [ [Some 0.1; Some 0.2; Some 0.3; Some 9];
    [Some 0.4; Some 0.5; Some 0.6; Some 9] ].

Definition table_4x2 : table :=
  [ [Some 0.1; Some 0.2]; [Some 0.3; Some 0.4];
    [Some 0.5; Some 0.6]; [Some 0.7; Some 0.8] ].

(** Four rows whose first three columns hold one NaN each. *)
Definition table_4x4_nan : table :=
  [ [Some 0.1; None; Some 0.2; Some 0.3];
    [Some 0.4; None; Some 0.5; Some 0.6];
    [Some 0.7; None; Some 0.8; Some 0.9];
    [Some 1.0; None; Some 1.1; Some 1.2] ].

(** The isotropic stiffness of Lame parameters [lam] and [mu] in the 3-by-3
    Voigt layout of a two-dimensional medium, where the entry [2,2] is the
    shear modulus. *)
Definition voigt2d_isotropic (lam mu : R) : ndarray :=
  let T := zeros in
  let T := set_row T 0 [ lam + 2 * mu; lam; 0 ] in
  let T := set_row T 1 [ lam; lam + 2 * mu; 0 ] in
  let T := set_row T 2 [ 0; 0; mu ] in
  T.

(** One granite sample: 10 C, 2700 kg/m3, porosity 1 %, no water. *)
Definition granite_sample : Material.t :=
  Material.mk [10] [2700] [1] [0] [false] ["granite"%string] [""%string].

(** A file system without orientation files. *)
Definition no_files : string -> result table :=
  fun _ => Raise FileNotFoundError.

(** A model at 10 MHz whose tables are still empty. *)
Definition empty_model : Model := mk_Model 1e7 [] [] [].

(** A wet snow sample flagged anisotropic, its orientation file holding
    one zero triple, in a model run at frequency 0. *)
Definition snow_sample : Material.t :=
  Material.mk [0] [917] [50] [50] [true] ["snow"%string] ["id.ang"%string].

Definition identity_file : string -> result table :=
  fun path =>
    if String.eqb path "id.ang" then Ok [[Some 0; Some 0; Some 0]]
    else Raise FileNotFoundError.

Definition static_model : Model := mk_Model 0 [] [] [].

(* ================================================================== *)
(** * Further functions of the module *)
(* ================================================================== *)
(** The number model is the one above, with two additions.  [np.sqrt] is
    [sqrt]; the statements that name a square root have it on a
    non-negative argument, where the two agree.  The NaN that [np.mean]
    answers on an empty slice is kept, as [None], in the pressure of
    [pressure_array].  Material IDs are non-negative integers, so the
    negative indices of Python do not occur. *)

(** [ice_density(temperature, method)]; [method] defaults to [None]. *)
Definition ice_density (temperature : R) (method : option string) : R :=
  let rho_o := 917 in
  let alpha := 51.0e-6 in
  if match method with
     | Some m => String.eqb m "gammon"
     | None => false
     end
  then
    let rho :=
      (1 / rho_o) * (1 + 1.576e-4 * temperature
                       - 2.778e-7 * (temperature^2)
                       + 8.850e-9 * (temperature^3)
                       - 1.778e-10 * (temperature^4)) in
    1 / rho
  else
    rho_o * (1 - alpha * temperature).

(** [np.triu(A, k)]: the entries on and above the k-th diagonal. *)
Definition triu (k : nat) (A : ndarray) : ndarray :=
  fun i j => if Nat.leb (i + k) j then A i j else 0.

(** [C[i,j0:] = row]. *)
Definition set_row_from (C : ndarray) (i j0 : nat) (row : list R) : ndarray :=
  fun a b =>
    if Nat.eqb a i && Nat.leb j0 b then nth (b - j0) row 0 else C a b.

(** [T[a:b]] of a 1-D array. *)
Definition slice (T : list R) (a b : nat) : list R :=
  firstn (b - a) (skipn a T).

(** The first branch of [tensor2velocities]: the symmetric 3-by-3 array
    of a 1-D array of 6 values. *)
Definition unpack6 (T : list R) : ndarray :=
  let temp := zeros in
  let temp := set_row temp 0 (slice T 0 3) in
  let temp := set_row_from temp 1 1 (slice T 3 5) in
  let temp := set temp 2 2 (nth 5 T 0) in
  add (transpose (triu 0 temp)) (triu 1 temp).

(** The second branch of [tensor2velocities]: the symmetric 6-by-6 array
    of a 1-D array of 21 values. *)
Definition unpack21 (T : list R) : ndarray :=
  let temp := zeros in
  let temp := set_row temp 0 (slice T 0 6) in
  let temp := set_row_from temp 1 1 (slice T 6 11) in
  let temp := set_row_from temp 2 2 (slice T 11 15) in
  let temp := set_row_from temp 3 3 (slice T 15 18) in
  let temp := set_row_from temp 4 4 (slice T 18 20) in
  let temp := set temp 5 5 (nth 20 T 0) in
  add (transpose (triu 0 temp)) (triu 1 temp).

(** The argument [T] of [tensor2velocities]: a 1-D array, or a square 2-D
    array with its size. *)
Inductive tensor_arg : Type :=
| Packed (values : list R)
| Square (n : nat) (M : ndarray).

(** [T[i,j]] on the argument: outside the shape, and on a 1-D array,
    numpy raises [IndexError]. *)
Definition index2 (T : tensor_arg) (i j : nat) : result R :=
  match T with
  | Packed _ => Raise IndexError
  | Square n M =>
      if Nat.ltb i n && Nat.ltb j n then Ok (M i j) else Raise IndexError
  end.

(** [tensor2velocities(T, rho, seismic)]: the tuple returned, as a list
    ([vpv, vph, vsv, vsh], or [vx, vy, vz]). *)
Definition tensor2velocities (T : tensor_arg) (rho : R) (seismic : bool)
    : result (list R) :=
  let T :=
    match T with
    | Packed values =>
        if Nat.eqb (List.length values) 6 then Square 3 (unpack6 values)
        else T
    | Square _ _ => T
    end in
  let T :=
    match T with
    | Packed values =>
        if Nat.eqb (List.length values) 21 then Square 6 (unpack21 values)
        else T
    | Square _ _ => T
    end in
  if seismic then
    t22 <- index2 T 2 2 ;;
    let vpv := sqrt (t22 / rho) in
    t00 <- index2 T 0 0 ;;
    let vph := sqrt (t00 / rho) in
    t33 <- index2 T 3 3 ;;
    let vsv := sqrt (t33 / rho) in
    t00' <- index2 T 0 0 ;;
    t01 <- index2 T 0 1 ;;
    let vsh := sqrt ((t00' - t01) / (2 * rho)) in
    Ok [vpv; vph; vsv; vsh]
  else
    t00 <- index2 T 0 0 ;;
    let vx := c_light * sqrt (1 / t00) in
    t11 <- index2 T 1 1 ;;
    let vy := c_light * sqrt (1 / t11) in
    t22 <- index2 T 2 2 ;;
    let vz := c_light * sqrt (1 / t22) in
    Ok [vx; vy; vz].

(** [f] over a list, stopping at the first exception. *)
Fixpoint mapM {A B : Type} (f : A -> result B) (l : list A)
    : result (list B) :=
  match l with
  | [] => Ok []
  | x :: rest =>
      y <- f x ;;
      ys <- mapM f rest ;;
      Ok (y :: ys)
  end.

(** What a cell of [np.zeros([m,n], dtype=str)] keeps of a string
    assigned to it: the dtype is one character wide. *)
Definition first_char (s : string) : string :=
  match s with
  | EmptyString => EmptyString
  | String c _ => String c EmptyString
  end.

(** The flag and the file cell [anisotropic_boolean] computes for the
    material ID of one pixel. *)
Definition anisotropic_cell (matbool angvect : list string) (id : nat)
    : result (bool * string) :=
  flag <- item matbool id ;;
  let anisotropic :=
    String.eqb flag "true" || String.eqb flag "TRUE"
    || String.eqb flag "True" in
  if anisotropic then
    name <- item angvect id ;;
    Ok (true, first_char name)
  else
    Ok (false, EmptyString).

(** [anisotropic_boolean(im, matbool, angvect)] on an image of material
    IDs (non-negative integers): the array of flags and the array of file
    cells. *)
Definition anisotropic_boolean (im : list (list nat))
    (matbool angvect : list string)
    : result (list (list bool) * list (list string)) :=
  cells <- mapM (mapM (anisotropic_cell matbool angvect)) im ;;
  Ok (map (map fst) cells, map (map snd) cells).

(** The temperature and the corrected density [pressure_array] stores for
    the material ID of one pixel. *)
Definition pressure_cell (temp rho porosity lwc : list R) (id : nat)
    : result (R * R) :=
  temperature <- item temp id ;;
  rho_i <- item rho id ;;
  porosity_i <- item porosity id ;;
  lwc_i <- item lwc id ;;
  let '(density, _, _) :=
    porewater_correction temperature rho_i porosity_i lwc_i in
  Ok (temperature, density).

(** [density[0:i,j]]: the column [j] above the row [i]. *)
Definition column_above (density : list (list R)) (i j : nat) : list R :=
  map (fun row => nth j row 0) (firstn i density).

(** [np.mean] of a 1-D array: NaN ([None]) on an empty one. *)
Definition np_mean (values : list R) : cell :=
  match values with
  | [] => None
  | _ :: _ => Some (fold_right Rplus 0 values / INR (List.length values))
  end.

(** [x * c] where [x] may be NaN. *)
Definition cell_mul (x : cell) (c : R) : cell :=
  match x with
  | Some v => Some (v * c)
  | None => None
  end.

(** [pressure_array(im, temp, rho, dz, porosity, lwc)] on an image of
    material IDs with the per-material 1-D arrays [temp], [rho],
    [porosity] and [lwc] and the spacing [dz]: the temperature, the
    density and the pressure at each pixel.  Every cell of the density
    depends on its own pixel only, so the arrays are built pixel by pixel
    and the pressure is read off the finished density. *)
Definition pressure_array (im : list (list nat)) (temp rho : list R)
    (dz : R) (porosity lwc : list R)
    : result (list (list R) * list (list R) * list (list cell)) :=
  cells <- mapM (mapM (pressure_cell temp rho porosity lwc)) im ;;
  let temperature := map (map fst) cells in
  let density := map (map snd) cells in
  let n := List.length (hd [] im) in
  let pressure :=
    map (fun i =>
           map (fun j =>
                  cell_mul
                    (cell_mul
                       (cell_mul (np_mean (column_above density i j))
                                 9.80665)
                       (INR i))
                    dz)
               (seq 0 n))
        (seq 0 (List.length im)) in
  Ok (temperature, density, pressure).

(** The default value [[0]] of [porosity] and [lwc]. *)
Definition default_zero : list R := [0].

(* ================================================================== *)
(** * Further definitions used in the statements *)
(* ================================================================== *)

(** The rows of a 3-by-3 array are orthonormal: its transpose is its
    inverse. *)
Definition orthogonal (Q : ndarray) : Prop := is_inverse 3 Q (transpose Q).

(** Every row of an orientation array holds at least three angles. *)
Definition well_formed (euler : list (list R)) : Prop :=
  Forall (fun eul => (3 <= List.length eul)%nat) euler.

(** The pair of tensor indices of a Voigt index, in the order of the rows
    of [bond]. *)
Definition voigt_pair (I : nat) : nat * nat :=
  match I with
  | 0%nat => (0%nat, 0%nat)
  | 1%nat => (1%nat, 1%nat)
  | 2%nat => (2%nat, 2%nat)
  | 3%nat => (1%nat, 2%nat)
  | 4%nat => (2%nat, 0%nat)
  | _ => (0%nat, 1%nat)
  end.

(** The product of the rows [a] and [b] of a 3-by-3 array. *)
Definition row_dot (Q : ndarray) (a b : nat) : R :=
  Q@[a,0] * Q@[b,0] + Q@[a,1] * Q@[b,1] + Q@[a,2] * Q@[b,2].

(** The rotation about the third axis with cosine [c] and sine [s]. *)
Definition rotation_z (c s : R) : ndarray :=
  let Q := zeros in
  let Q := set_row Q 0 [ c; - s; 0 ] in
  let Q := set_row Q 1 [ s; c; 0 ] in
  let Q := set_row Q 2 [ 0; 0; 1 ] in
  Q.

(** Every row of an orientation array has the second Euler angle 0: the
    crystal's third axis stays where it is. *)
Definition vertical_axes (euler : list (list R)) : Prop :=
  Forall (fun eul => exists phi1 phi2 rest, eul = phi1 :: 0 :: phi2 :: rest)
         euler.

(* ================================================================== *)
(** * Results *)
(* ================================================================== *)

Lemma bind_Ok_inv {A B : Type} (r : result A) (k : A -> result B) (b : B) :
  bind r k = Ok b -> exists a, r = Ok a /\ k a = Ok b.
Proof.
  destruct r as [a|e]; simpl; intros H.
  - exists a; split; [reflexivity | exact H].
  - discriminate H.
Qed.

(* ================================================================== *)
(** * Facts about sums and arrays *)
(* ================================================================== *)

(** Case analysis on an index bounded by a literal. *)
Ltac enum_index i Hi :=
  repeat (destruct i as [|i]; [ | try (exfalso; clear - Hi; lia) ]).

Ltac enum_indices :=
  match goal with
  | Hi : (?i < _)%nat, Hj : (?j < _)%nat |- _ =>
      enum_index i Hi; enum_index j Hj
  end.

Section SumFacts.

Lemma sum_upto_ext (n : nat) (f g : nat -> R) :
  (forall k, (k < n)%nat -> f k = g k) -> sum_upto n f = sum_upto n g.
Proof.
  induction n as [|n IH]; intros Hfg; simpl.
  - reflexivity.
  - rewrite IH by (intros k Hk; apply Hfg; lia).
    rewrite (Hfg n) by lia. reflexivity.
Qed.

Lemma sum_upto_zero (n : nat) : sum_upto n (fun _ => 0) = 0.
Proof. induction n as [|n IH]; simpl; [reflexivity | rewrite IH; lra]. Qed.

Lemma sum_upto_plus (n : nat) (f g : nat -> R) :
  sum_upto n (fun k => f k + g k) = sum_upto n f + sum_upto n g.
Proof. induction n as [|n IH]; simpl; [lra | rewrite IH; lra]. Qed.

Lemma sum_upto_scal_l (n : nat) (c : R) (f : nat -> R) :
  sum_upto n (fun k => c * f k) = c * sum_upto n f.
Proof. induction n as [|n IH]; simpl; [lra | rewrite IH; lra]. Qed.

Lemma sum_upto_scal_r (n : nat) (c : R) (f : nat -> R) :
  sum_upto n (fun k => f k * c) = sum_upto n f * c.
Proof. induction n as [|n IH]; simpl; [lra | rewrite IH; lra]. Qed.

Lemma sum_upto_swap (n m : nat) (f : nat -> nat -> R) :
  sum_upto n (fun k => sum_upto m (fun l => f k l))
  = sum_upto m (fun l => sum_upto n (fun k => f k l)).
Proof.
  induction n as [|n IH]; simpl.
  - rewrite sum_upto_zero. reflexivity.
  - rewrite IH, <- sum_upto_plus. reflexivity.
Qed.

(** A sum against a Kronecker delta picks one term. *)
Lemma sum_upto_delta_l (n i : nat) (f : nat -> R) :
  (i < n)%nat -> sum_upto n (fun k => eye i k * f k) = f i.
Proof.
  unfold eye. induction n as [|n IH]; intros Hi; [lia|]. simpl.
  destruct (Nat.eq_dec i n) as [->|Hne].
  - rewrite Nat.eqb_refl.
    rewrite (sum_upto_ext n _ (fun _ => 0)).
    + rewrite sum_upto_zero. lra.
    + intros k Hk. destruct (Nat.eqb_spec n k); [lia | lra].
  - rewrite IH by lia.
    destruct (Nat.eqb_spec i n); [contradiction | lra].
Qed.

Lemma sum_upto_delta_r (n j : nat) (f : nat -> R) :
  (j < n)%nat -> sum_upto n (fun k => f k * eye k j) = f j.
Proof.
  intros Hj. rewrite <- (sum_upto_delta_l n j f Hj).
  apply sum_upto_ext. intros k _. unfold eye.
  rewrite (Nat.eqb_sym k j). lra.
Qed.

End SumFacts.

Section ArrayFacts.

Variable n : nat.

Lemma meq_refl (A : ndarray) : meq n A A.
Proof. intros i j _ _. reflexivity. Qed.

Lemma meq_sym (A B : ndarray) : meq n A B -> meq n B A.
Proof. intros H i j Hi Hj. symmetry. apply H; assumption. Qed.

Lemma meq_trans (A B C : ndarray) : meq n A B -> meq n B C -> meq n A C.
Proof. intros H1 H2 i j Hi Hj. rewrite H1, H2 by assumption. reflexivity. Qed.

Lemma matmul_meq (A A' B B' : ndarray) :
  meq n A A' -> meq n B B' -> meq n (matmul n A B) (matmul n A' B').
Proof.
  intros HA HB i j Hi Hj. unfold matmul.
  apply sum_upto_ext. intros k Hk.
  rewrite HA, HB by assumption. reflexivity.
Qed.

Lemma matmul_assoc (A B C : ndarray) (i j : nat) :
  matmul n (matmul n A B) C i j = matmul n A (matmul n B C) i j.
Proof.
  unfold matmul.
  rewrite (sum_upto_ext n _
             (fun k => sum_upto n (fun l => A i l * B l k * C k j)))
    by (intros k _; rewrite <- sum_upto_scal_r; reflexivity).
  rewrite sum_upto_swap.
  apply sum_upto_ext. intros l _.
  rewrite <- sum_upto_scal_l.
  apply sum_upto_ext. intros k _. lra.
Qed.

Lemma matmul_eye_l (A : ndarray) : meq n (matmul n eye A) A.
Proof.
  intros i j Hi Hj. unfold matmul.
  apply (sum_upto_delta_l n i (fun k => A k j) Hi).
Qed.

Lemma matmul_eye_r (A : ndarray) : meq n (matmul n A eye) A.
Proof.
  intros i j Hi Hj. unfold matmul.
  apply (sum_upto_delta_r n j (fun k => A i k) Hj).
Qed.

Lemma transpose_matmul (A B : ndarray) (i j : nat) :
  transpose (matmul n A B) i j = matmul n (transpose B) (transpose A) i j.
Proof.
  unfold transpose, matmul. apply sum_upto_ext. intros k _. lra.
Qed.

Lemma eye_symmetric : symmetric n eye.
Proof. intros i j _ _. unfold eye. rewrite Nat.eqb_sym. reflexivity. Qed.

(** Two inverses of one array agree. *)
Lemma inverse_unique (A B B' : ndarray) :
  is_inverse n A B -> is_inverse n A B' -> meq n B B'.
Proof.
  intros [_ HBA] [HAB' _].
  apply meq_trans with (matmul n B (matmul n A B')).
  - apply meq_sym.
    apply meq_trans with (matmul n B eye).
    + apply matmul_meq; [apply meq_refl | exact HAB'].
    + apply matmul_eye_r.
  - apply meq_trans with (matmul n (matmul n B A) B').
    + intros i j _ _. symmetry. apply matmul_assoc.
    + apply meq_trans with (matmul n eye B').
      * apply matmul_meq; [exact HBA | apply meq_refl].
      * apply matmul_eye_l.
Qed.

Lemma is_inverse_sym (A B : ndarray) : is_inverse n A B -> is_inverse n B A.
Proof. intros [H1 H2]. split; assumption. Qed.

Lemma is_inverse_meq (A A' B B' : ndarray) :
  meq n A A' -> meq n B B' -> is_inverse n A B -> is_inverse n A' B'.
Proof.
  intros HA HB [H1 H2]. split.
  - apply meq_trans with (matmul n A B); [|exact H1].
    apply matmul_meq; apply meq_sym; assumption.
  - apply meq_trans with (matmul n B A); [|exact H2].
    apply matmul_meq; apply meq_sym; assumption.
Qed.

Lemma is_inverse_eye : is_inverse n eye eye.
Proof. split; apply matmul_eye_l. Qed.

(** What [np.linalg.inv] returns is an inverse. *)
Lemma linalg_inv_Ok (A B : ndarray) :
  linalg_inv n A = Ok B -> is_inverse n A B.
Proof.
  unfold linalg_inv.
  destruct (excluded_middle_informative _) as [H|H]; [|discriminate].
  intros E. injection E as <-.
  apply (proj2_sig (constructive_indefinite_description _ H)).
Qed.

(** [np.linalg.inv] returns on every array that has an inverse. *)
Lemma linalg_inv_of_inverse (A B : ndarray) :
  is_inverse n A B ->
  exists B', linalg_inv n A = Ok B' /\ meq n B' B.
Proof.
  intros HB. unfold linalg_inv.
  destruct (excluded_middle_informative _) as [H|H].
  - eexists. split; [reflexivity|].
    apply inverse_unique with (A := A); [|exact HB].
    apply (proj2_sig (constructive_indefinite_description _ H)).
  - exfalso. apply H. exists B. exact HB.
Qed.

(** [np.linalg.inv] raises on an array without inverse. *)
Lemma linalg_inv_singular (A : ndarray) :
  (forall B, ~ is_inverse n A B) -> linalg_inv n A = Raise LinAlgError.
Proof.
  intros Hno. unfold linalg_inv.
  destruct (excluded_middle_informative _) as [[B HB]|H]; [|reflexivity].
  exfalso. exact (Hno B HB).
Qed.

Lemma symmetric_transpose (A : ndarray) :
  symmetric n A <-> meq n A (transpose A).
Proof. split; intros H i j Hi Hj; apply H; assumption. Qed.

Lemma is_inverse_transpose (A B : ndarray) :
  is_inverse n A B -> is_inverse n (transpose A) (transpose B).
Proof.
  intros [H1 H2]. split; intros i j Hi Hj.
  - rewrite <- transpose_matmul. unfold transpose at 1.
    rewrite H2 by assumption. apply eye_symmetric; assumption.
  - rewrite <- transpose_matmul. unfold transpose at 1.
    rewrite H1 by assumption. apply eye_symmetric; assumption.
Qed.

(** The inverse of a symmetric array is symmetric. *)
Lemma inverse_symmetric (A B : ndarray) :
  symmetric n A -> is_inverse n A B -> symmetric n B.
Proof.
  intros HA HB. apply symmetric_transpose.
  apply inverse_unique with (A := A); [exact HB|].
  apply is_inverse_meq with (A := transpose A) (B := transpose B).
  - apply meq_sym. apply symmetric_transpose. exact HA.
  - apply meq_refl.
  - apply is_inverse_transpose. exact HB.
Qed.

(** [M C M^T] is symmetric when [C] is. *)
Lemma congruence_symmetric (M C : ndarray) :
  symmetric n C -> symmetric n (matmul n M (matmul n C (transpose M))).
Proof.
  intros HC i j Hi Hj. unfold matmul, transpose.
  rewrite (sum_upto_ext n _
    (fun k => sum_upto n (fun l => M i k * C k l * M j l)))
    by (intros k _; rewrite <- sum_upto_scal_l;
        apply sum_upto_ext; intros l _; lra).
  rewrite (sum_upto_ext n
    (fun k => M j k * sum_upto n (fun l => C k l * M i l))
    (fun k => sum_upto n (fun l => M i l * C l k * M j k))).
  - apply sum_upto_swap.
  - intros k Hk. rewrite <- sum_upto_scal_l.
    apply sum_upto_ext. intros l Hl. rewrite (HC k l) by assumption. lra.
Qed.

Lemma add_symmetric (A B : ndarray) :
  symmetric n A -> symmetric n B -> symmetric n (add A B).
Proof.
  intros HA HB i j Hi Hj. unfold add. rewrite HA, HB by assumption.
  reflexivity.
Qed.

Lemma divs_symmetric (A : ndarray) (x : R) :
  symmetric n A -> symmetric n (divs A x).
Proof.
  intros HA i j Hi Hj. unfold divs. rewrite HA by assumption. reflexivity.
Qed.

Lemma zeros_symmetric : symmetric n zeros.
Proof. intros i j _ _. reflexivity. Qed.

Lemma scale_eye_symmetric (x : R) : symmetric n (scale eye x).
Proof.
  intros i j _ _. unfold scale, eye. rewrite Nat.eqb_sym. reflexivity.
Qed.

End ArrayFacts.

(* ================================================================== *)
(** * Single-crystal ice: hexagonal symmetry *)
(* ================================================================== *)

(** C2.  For every temperature and pressure the tensor of [ice_stiffness]
    carries the five quadratic polynomials c11, c12, c13, c33, c44 scaled by
    1e8, and its remaining entries follow the hexagonal relations
    c22 = c11, c23 = c13, c21 = c12, c55 = c44, c66 = (c11 - c12)/2
    (one-based names; [T@[i,j]] is zero-based). *)
Theorem ice_stiffness_hexagonal (temperature pressure : R) :
  let T := ice_stiffness temperature pressure in
  let c11 := gammon_c11 temperature pressure in
  let c12 := gammon_c12 temperature pressure in
  let c13 := gammon_c13 temperature pressure in
  let c33 := gammon_c33 temperature pressure in
  let c44 := gammon_c44 temperature pressure in
  (T@[0,0] = c11 * 1e8 /\ T@[0,1] = c12 * 1e8 /\ T@[0,2] = c13 * 1e8
   /\ T@[2,2] = c33 * 1e8 /\ T@[3,3] = c44 * 1e8)
  /\ (T@[1,1] = T@[0,0] /\ T@[1,2] = T@[0,2] /\ T@[1,0] = T@[0,1]
      /\ T@[4,4] = T@[3,3] /\ T@[5,5] = (T@[0,0] - T@[0,1]) / 2)
  /\ (T@[1,1] = c11 * 1e8 /\ T@[1,2] = c13 * 1e8 /\ T@[1,0] = c12 * 1e8
      /\ T@[4,4] = c44 * 1e8 /\ T@[5,5] = (c11 - c12) / 2 * 1e8).
Proof.
  unfold ice_stiffness, gammon_c11, gammon_c12, gammon_c13, gammon_c33,
    gammon_c44, scale, set, zeros.
  cbn [Nat.eqb andb].
  repeat split; try reflexivity; lra.
Qed.

(* ================================================================== *)
(** * Isotropic stiffness *)
(* ================================================================== *)

Lemma assign_isotropic_entries (lam mu : R) :
  let C := assign_isotropic lam mu in
  (C@[0,0] = lam + 2 * mu /\ C@[1,1] = lam + 2 * mu /\ C@[2,2] = lam + 2 * mu)
  /\ (C@[0,1] = lam /\ C@[0,2] = lam /\ C@[1,0] = lam
      /\ C@[1,2] = lam /\ C@[2,0] = lam /\ C@[2,1] = lam)
  /\ (C@[3,3] = mu /\ C@[4,4] = mu /\ C@[5,5] = mu).
Proof.
  unfold assign_isotropic, set, fill_diagonal, diagonal, set_block, zeros.
  cbn [Nat.eqb Nat.ltb Nat.leb andb].
  repeat split; lra.
Qed.

(** C4.  The velocities are interpolated by the arctangent ramp
    V = V_min + (2/pi) (V_max - V_min) atan(pressure), which is V_min at
    pressure 0; with mu = rho Vs^2 and lambda = rho Vp^2 - 2 mu the tensor
    has c11 = c22 = c33 = lambda + 2 mu, lambda at every off-diagonal place
    of the upper-left 3x3 block, and c44 = c55 = c66 = mu. *)
Theorem isotropic_stiffness_arctangent_lame
    (pressure density : R) (material_limits : limits) :
  let Vp := Vp_min material_limits
            + (2 / PI) * (Vp_max material_limits - Vp_min material_limits)
              * atan pressure in
  let Vs := Vs_min material_limits
            + (2 / PI) * (Vs_max material_limits - Vs_min material_limits)
              * atan pressure in
  let mu := density * Vs^2 in
  let lam := density * Vp^2 - 2 * mu in
  let C := isotropic_stiffness_tensor pressure density material_limits in
  (pvelocity pressure material_limits = Vp
   /\ svelocity pressure material_limits = Vs)
  /\ (pvelocity 0 material_limits = Vp_min material_limits
      /\ svelocity 0 material_limits = Vs_min material_limits)
  /\ (C@[0,0] = lam + 2 * mu /\ C@[1,1] = lam + 2 * mu
      /\ C@[2,2] = lam + 2 * mu)
  /\ (C@[0,1] = lam /\ C@[0,2] = lam /\ C@[1,0] = lam
      /\ C@[1,2] = lam /\ C@[2,0] = lam /\ C@[2,1] = lam)
  /\ (C@[3,3] = mu /\ C@[4,4] = mu /\ C@[5,5] = mu).
Proof.
  intros Vp Vs mu lam C.
  assert (HVp : pvelocity pressure material_limits = Vp).
  { unfold pvelocity, Vp. field. apply PI_neq0. }
  assert (HVs : svelocity pressure material_limits = Vs).
  { unfold svelocity, Vs. field. apply PI_neq0. }
  assert (Hmu : lame_mu pressure density material_limits = mu).
  { unfold lame_mu, mu. rewrite HVs. reflexivity. }
  assert (Hlam : lame_lam pressure density material_limits = lam).
  { unfold lame_lam, lam. rewrite HVp, Hmu. reflexivity. }
  split; [split; assumption|].
  split.
  { unfold pvelocity, svelocity. rewrite atan_0. split; lra. }
  unfold C, isotropic_stiffness_tensor. rewrite Hmu, Hlam.
  exact (assign_isotropic_entries lam mu).
Qed.

(* ================================================================== *)
(** * High-frequency stability conditions *)
(* ================================================================== *)

Lemma stability_messages_distinct :
  stability_message 1 <> stability_message 2
  /\ stability_message 3 <> stability_message 2.
Proof. split; discriminate. Qed.

Lemma print_if_positive_In (cond : R) (msg msg' : string) :
  In msg' (print_if_positive cond msg) <-> msg = msg' /\ 0 < cond.
Proof.
  unfold print_if_positive. destruct (Rlt_dec 0 cond) as [H|H]; simpl.
  - split; [intros [E|[]]; split; assumption | intros [E _]; left; exact E].
  - split; [intros [] | intros [_ H']; contradiction].
Qed.

(** The checker prints the line of condition 2 exactly when the second
    value is positive. *)
Lemma condition2_reported_iff (T : ndarray) :
  In (stability_message 2) (snd (highfreq_stability_conditions T))
  <-> 0 < (T@[0,1] + 2 * T@[2,2])^2 - T@[0,0] * T@[1,1].
Proof.
  unfold highfreq_stability_conditions, stability_values. cbn [snd].
  rewrite !in_app_iff, !print_if_positive_In.
  destruct stability_messages_distinct as [H12 H32].
  split.
  - intros [[E _]|[[_ H]|[E _]]]; [contradiction | exact H | contradiction].
  - intros H. right. left. split; [reflexivity | exact H].
Qed.

Lemma print_if_positive_pos (cond : R) (msg : string) :
  0 < cond -> print_if_positive cond msg = [msg].
Proof.
  intros H. unfold print_if_positive.
  destruct (Rlt_dec 0 cond); [reflexivity | contradiction].
Qed.

Lemma print_if_positive_nonpos (cond : R) (msg : string) :
  cond <= 0 -> print_if_positive cond msg = [].
Proof.
  intros H. unfold print_if_positive.
  destruct (Rlt_dec 0 cond); [lra | reflexivity].
Qed.

(** The checker on a tensor with c00 = c11 = c22 = 3 and c01 = 1. *)
Lemma stability_on_3_3_3_1 (T : ndarray) :
  T@[0,0] = 3 -> T@[1,1] = 3 -> T@[2,2] = 3 -> T@[0,1] = 1 ->
  stability_values T = (256, 40, -2)
  /\ snd (highfreq_stability_conditions T)
     = [stability_message 1; stability_message 2].
Proof.
  intros H00 H11 H22 H01.
  assert (E : stability_values T = (256, 40, -2)).
  { unfold stability_values. rewrite H00, H11, H22, H01.
    repeat f_equal; lra. }
  split; [exact E|].
  unfold highfreq_stability_conditions. rewrite E. cbn [snd].
  rewrite !print_if_positive_pos by lra.
  rewrite print_if_positive_nonpos by lra.
  reflexivity.
Qed.

(** The isotropic tensor of lambda = mu = 1 and what the checker returns
    and prints on it. *)
Lemma stability_isotropic_1_1 :
  let T := assign_isotropic 1 1 in
  (T@[0,0] = 3 /\ T@[1,1] = 3 /\ T@[2,2] = 3 /\ T@[0,1] = 1)
  /\ highfreq_stability_conditions T
     = ((256, 40, -2), [stability_message 1; stability_message 2]).
Proof.
  intros T.
  destruct (assign_isotropic_entries 1 1)
    as [[H00 [H11 H22]] [[H01 _] _]].
  fold T in H00, H11, H22, H01.
  assert (E00 : T@[0,0] = 3) by lra.
  assert (E11 : T@[1,1] = 3) by lra.
  assert (E22 : T@[2,2] = 3) by lra.
  split; [repeat split; assumption|].
  destruct (stability_on_3_3_3_1 T E00 E11 E22 H01) as [Ev Eo].
  unfold highfreq_stability_conditions in *. rewrite Ev in *.
  cbn [snd] in Eo. rewrite Eo. reflexivity.
Qed.

(** The checker on the two-dimensional Voigt tensor of lambda = mu = 1,
    whose entry [2,2] is the shear modulus 1. *)
Lemma stability_voigt2d_1_1 :
  let T := voigt2d_isotropic 1 1 in
  (T@[0,0] = 3 /\ T@[1,1] = 3 /\ T@[2,2] = 1 /\ T@[0,1] = 1)
  /\ highfreq_stability_conditions T = ((-12, 0, 0), []).
Proof.
  intros T.
  assert (E00 : T@[0,0] = 3) by (cbn; lra).
  assert (E11 : T@[1,1] = 3) by (cbn; lra).
  assert (E22 : T@[2,2] = 1) by (cbn; lra).
  assert (E01 : T@[0,1] = 1) by (cbn; lra).
  split; [repeat split; assumption|].
  assert (Ev : stability_values T = (-12, 0, 0)).
  { unfold stability_values. rewrite E00, E11, E22, E01.
    repeat f_equal; lra. }
  unfold highfreq_stability_conditions. rewrite Ev.
  rewrite !print_if_positive_nonpos by lra. reflexivity.
Qed.

(** C3, as the code has it.  The line of condition 2 is printed exactly
    when (c01 + 2 c22)^2 - c00 c11 > 0.  On the 6-by-6 isotropic tensor of
    lambda = mu = 1 (c00 = c11 = c22 = 3, c01 = 1) the three values are
    256, 40 and -2, so conditions 1 and 2 are reported and condition 3 is
    not.  No violation is reported on the isotropic tensor of
    lambda = mu = 1 in the two-dimensional Voigt layout, where the entry
    [2,2] is the shear modulus (c00 = c11 = 3, c22 = 1, c01 = 1): the
    values are -12, 0 and 0. *)
Theorem stability_condition2_and_isotropic_example :
  (forall T : ndarray,
      In (stability_message 2) (snd (highfreq_stability_conditions T))
      <-> 0 < (T@[0,1] + 2 * T@[2,2])^2 - T@[0,0] * T@[1,1])
  /\ (let T := assign_isotropic 1 1 in
      (T@[0,0] = 3 /\ T@[1,1] = 3 /\ T@[2,2] = 3 /\ T@[0,1] = 1)
      /\ highfreq_stability_conditions T
         = ((256, 40, -2), [stability_message 1; stability_message 2]))
  /\ (let T := voigt2d_isotropic 1 1 in
      (T@[0,0] = 3 /\ T@[1,1] = 3 /\ T@[2,2] = 1 /\ T@[0,1] = 1)
      /\ highfreq_stability_conditions T = ((-12, 0, 0), [])).
Proof.
  split; [exact condition2_reported_iff|].
  split; [exact stability_isotropic_1_1 | exact stability_voigt2d_1_1].
Qed.

(** C3 as stated fails: on the isotropic tensor of lambda = mu = 1
    (c00 = c11 = c22 = 3, c01 = 1) the checker does print violations. *)
Lemma isotropic_example_reports_violations :
  let T := assign_isotropic 1 1 in
  (T@[0,0] = 3 /\ T@[1,1] = 3 /\ T@[2,2] = 3 /\ T@[0,1] = 1)
  /\ ~ (snd (highfreq_stability_conditions T) = []).
Proof.
  destruct stability_isotropic_1_1 as [Hent E].
  split; [exact Hent|].
  rewrite E. discriminate.
Qed.

(* ================================================================== *)
(** * Conductivity from a complex permittivity *)
(* ================================================================== *)

Lemma eps0_pos : 0 < eps0.
Proof. unfold eps0. lra. Qed.

Lemma two_PI_gt_1 : 1 < 2 * PI.
Proof. pose proof PI2_1. lra. Qed.

(** C5, as the code has it.  On a complex permittivity the conductivity
    is the diagonal tensor of eps'' * frequency * eps0, with the frequency
    as given (in Hz): the factor 2 pi of the angular frequency is not
    applied, so every diagonal entry with eps'' * f <> 0 differs from
    eps'' * (2 pi f) * eps0. *)
Theorem snow_conductivity_complex_branch
    (lwc : option R) (re im : ndarray) (frequency : R) :
  exists sigma,
    snow_conductivity lwc (Some (Complex128 re im)) frequency = Ok sigma
    /\ (forall i j, sigma i j
                    = if Nat.eqb i j then im i j * frequency * eps0 else 0)
    /\ (forall i, im i i * frequency <> 0 ->
                  sigma i i <> im i i * (2 * PI * frequency) * eps0).
Proof.
  eexists. split; [reflexivity|].
  assert (Hent : forall i j,
             hadamard eye (scale (scale (imag (Complex128 re im)) frequency)
                                 eps0) i j
             = if Nat.eqb i j then im i j * frequency * eps0 else 0).
  { intros i j. unfold hadamard, scale, eye, imag.
    destruct (Nat.eqb i j); lra. }
  split; [exact Hent|].
  intros i Hne. rewrite Hent, Nat.eqb_refl.
  intros E.
  assert (H : im i i * frequency * eps0 * (2 * PI - 1) = 0) by lra.
  pose proof eps0_pos. pose proof two_PI_gt_1.
  apply Rmult_integral in H. destruct H as [H|H]; [|lra].
  apply Rmult_integral in H. destruct H as [H|H]; [contradiction | lra].
Qed.

(** C5 at a concrete input: eps'' = 1 on the diagonal and f = 1 Hz give
    eps0, not 2 pi eps0. *)
Lemma snow_conductivity_at_1Hz :
  exists sigma,
    snow_conductivity None (Some (Complex128 (scale eye 3) eye)) 1 = Ok sigma
    /\ sigma@[0,0] = eps0
    /\ sigma@[0,0] <> 1 * (2 * PI * 1) * eps0.
Proof.
  eexists. split; [reflexivity|].
  assert (E : hadamard eye (scale (scale (imag (Complex128 (scale eye 3) eye))
                                         1) eps0) 0%nat 0%nat = eps0).
  { unfold hadamard, scale, eye, imag. cbn [Nat.eqb]. lra. }
  split; [exact E|].
  rewrite E. pose proof eps0_pos. pose proof two_PI_gt_1. nra.
Qed.

(* ================================================================== *)
(** * Dielectric branches by material name *)
(* ================================================================== *)

(** C6, as the code has it.  The catalog key is "dry_sand" while the 55 %
    branch tests for "dry sand": the catalog name falls through to the
    default branch (cap 3 %), and the name with a space is not in the
    catalog at all. *)
Theorem dry_sand_takes_default_cap (temperature porosity water_content : R) :
  isotropic_permittivity_tensor temperature porosity water_content "dry_sand"
  = Ok (scale eye ((4.7 - 2.9) / 3 * porosity + 2.9),
        scale eye ((1.0e-3 - 1.0e-3) / 3 * porosity + 1.0e-3))
  /\ isotropic_permittivity_tensor temperature porosity water_content
                                   "dry sand"
     = Raise KeyError.
Proof. split; reflexivity. Qed.

(** C6 at porosity 55: the permittivity is 35.9, where the 55 % cap gives
    the catalog maximum 4.7. *)
Lemma dry_sand_at_porosity_55 :
  exists P Cd,
    isotropic_permittivity_tensor 0 55 0 "dry_sand" = Ok (P, Cd)
    /\ P@[0,0] = 35.9
    /\ P@[0,0] <> 2.9 + ((4.7 - 2.9) / 55) * 55.
Proof.
  do 2 eexists. split; [reflexivity|].
  unfold scale, eye. cbn [Nat.eqb Perm_max Perm_min]. split; lra.
Qed.

(** The sibling name "soil" does take the 55 % branch. *)
Lemma soil_takes_55_cap (temperature porosity water_content : R) :
  isotropic_permittivity_tensor temperature porosity water_content "soil"
  = Ok (scale eye ((29.4 - 3.9) / 55 * porosity + 3.9),
        scale eye ((1.0e-1 - 1.0e-2) / 55 * porosity + 1.0e-2)).
Proof. reflexivity. Qed.

(* ================================================================== *)
(** * The branch of snow_conductivity without complex permittivity *)
(* ================================================================== *)

Lemma temperature_not_global : load_global "temperature" = Raise NameError.
Proof. reflexivity. Qed.

(** C8, as the code has it.  Without a complex permittivity (none at all,
    or a real-valued array) [snow_conductivity] raises [NameError] for
    every lwc and frequency: the name [temperature] is bound nowhere. *)
Theorem snow_conductivity_real_branch_raises
    (lwc : option R) (frequency : R) :
  snow_conductivity lwc None frequency = Raise NameError
  /\ (forall P : ndarray,
        snow_conductivity lwc (Some (Float64 P)) frequency = Raise NameError).
Proof. split; [reflexivity | intros P; reflexivity]. Qed.

(* ================================================================== *)
(** * read_ang *)
(* ================================================================== *)

(** C7, as the code has it.  The columns are cut to three only when the
    table has more than three rows (the test reads the row count): a table
    of two rows and four columns comes back with four columns; and no
    error is raised when fewer than three columns remain: four rows of two
    columns, or four rows that lose a NaN each, come back two columns
    wide. *)
Theorem read_ang_table_examples :
  read_ang_table table_2x4
  = Ok [ [0.1; 0.2; 0.3; 9]; [0.4; 0.5; 0.6; 9] ]
  /\ read_ang_table table_4x2
     = Ok [ [0.1; 0.2]; [0.3; 0.4]; [0.5; 0.6]; [0.7; 0.8] ]
  /\ read_ang_table table_4x4_nan
     = Ok [ [0.1; 0.2]; [0.4; 0.5]; [0.7; 0.8]; [1.0; 1.1] ].
Proof. repeat split; reflexivity. Qed.

(* ================================================================== *)
(** * Homogenization over one identity rotation *)
(* ================================================================== *)

(** Zero Euler angles give the identity rotation. *)
Lemma rotator_zxz_zero :
  exists R, rotator_zxz [0; 0; 0] = Ok R /\ meq 3 R eye.
Proof.
  eexists. split; [reflexivity|].
  intros i j Hi Hj. enum_indices;
    unfold matmul, set_row, zeros, eye;
    cbn [sum_upto nth Nat.eqb];
    rewrite ?cos_0, ?sin_0; lra.
Qed.

(** The Bond matrix of the identity rotation is the 6-by-6 identity. *)
Lemma bond_eye (R : ndarray) : meq 3 R eye -> meq 6 (bond R) eye.
Proof.
  intros H.
  assert (H00 : R@[0,0] = 1) by (rewrite H by lia; reflexivity).
  assert (H01 : R@[0,1] = 0) by (rewrite H by lia; reflexivity).
  assert (H02 : R@[0,2] = 0) by (rewrite H by lia; reflexivity).
  assert (H10 : R@[1,0] = 0) by (rewrite H by lia; reflexivity).
  assert (H11 : R@[1,1] = 1) by (rewrite H by lia; reflexivity).
  assert (H12 : R@[1,2] = 0) by (rewrite H by lia; reflexivity).
  assert (H20 : R@[2,0] = 0) by (rewrite H by lia; reflexivity).
  assert (H21 : R@[2,1] = 0) by (rewrite H by lia; reflexivity).
  assert (H22 : R@[2,2] = 1) by (rewrite H by lia; reflexivity).
  intros i j Hi Hj. enum_indices;
    unfold bond, set_row, zeros, eye; cbn [nth Nat.eqb];
    rewrite ?H00, ?H01, ?H02, ?H10, ?H11, ?H12, ?H20, ?H21, ?H22; lra.
Qed.

Section IdentityEnsemble.

Variable n : nat.

Lemma transpose_meq_eye (M : ndarray) : meq n M eye -> meq n (transpose M) eye.
Proof.
  intros H i j Hi Hj. unfold transpose. rewrite H by assumption.
  apply (eye_symmetric n); assumption.
Qed.

(** Transforming by an identity leaves the tensor as it is. *)
Lemma congruence_by_identity (M C : ndarray) :
  meq n M eye -> meq n (matmul n M (matmul n C (transpose M))) C.
Proof.
  intros H.
  apply meq_trans with (matmul n eye (matmul n C eye)).
  - apply matmul_meq; [exact H|].
    apply matmul_meq; [apply meq_refl | apply transpose_meq_eye; exact H].
  - apply meq_trans with (matmul n C eye);
      [apply matmul_eye_l | apply matmul_eye_r].
Qed.

(** [np.linalg.inv] of an identity is an identity. *)
Lemma linalg_inv_eye (M : ndarray) :
  meq n M eye -> exists N, linalg_inv n M = Ok N /\ meq n N eye.
Proof.
  intros H. apply linalg_inv_of_inverse.
  apply is_inverse_meq with (A := eye) (B := eye);
    [apply meq_sym; exact H | apply meq_refl | apply is_inverse_eye].
Qed.

(** One term of a running sum that starts at zero, divided by p = 1. *)
Lemma mean_of_one (X C : ndarray) :
  meq n X C -> meq n (divs (add zeros X) (INR 1)) C.
Proof.
  intros H i j Hi Hj. unfold divs, add, zeros. rewrite H by assumption.
  simpl INR. lra.
Qed.

Lemma hill_of_equal (V Re C : ndarray) :
  meq n V C -> meq n Re C -> meq n (divs (add V Re) 2) C.
Proof.
  intros HV HR i j Hi Hj. unfold divs, add.
  rewrite HV, HR by assumption. lra.
Qed.

End IdentityEnsemble.

(** The block of [get_seismic] on the ensemble of one zero triple. *)
Lemma seismic_hill_identity (C S : ndarray) :
  is_inverse 6 C S ->
  exists V Re H,
    seismic_hill C [[0; 0; 0]] = Ok (V, Re, H)
    /\ meq 6 V C /\ meq 6 Re C /\ meq 6 H C.
Proof.
  intros HCS.
  destruct (linalg_inv_of_inverse 6 C S HCS) as [S' [ES HS']].
  destruct rotator_zxz_zero as [R [ER HR]].
  pose proof (bond_eye R HR) as HM.
  destruct (linalg_inv_eye 6 (bond R) HM) as [N [EN HN]].
  set (cv := divs (add zeros (matmul 6 (bond R)
                    (matmul 6 C (transpose (bond R))))) (INR 1)).
  set (cr := divs (add zeros (matmul 6 N
                    (matmul 6 S' (transpose N)))) (INR 1)).
  assert (Hcv : meq 6 cv C).
  { apply mean_of_one. apply congruence_by_identity. exact HM. }
  assert (Hcr : meq 6 cr S).
  { apply meq_trans with S'; [|exact HS'].
    apply mean_of_one. apply congruence_by_identity. exact HN. }
  assert (Hinv : is_inverse 6 cr C).
  { apply is_inverse_meq with (A := S) (B := C);
      [apply meq_sym; exact Hcr | apply meq_refl
      | apply is_inverse_sym; exact HCS]. }
  destruct (linalg_inv_of_inverse 6 cr C Hinv) as [Re [ERe HRe]].
  exists cv, Re, (divs (add cv Re) 2).
  split.
  - unfold seismic_hill. cbn [len_column0 hd List.length bind].
    rewrite ES. cbn [bind seismic_accumulate].
    rewrite ER. cbn [bind]. rewrite EN. cbn [bind].
    fold cv. fold cr. rewrite ERe. reflexivity.
  - split; [exact Hcv|]. split; [exact HRe|].
    apply hill_of_equal; assumption.
Qed.

(** The block of [get_perm] on the ensemble of one zero triple. *)
Lemma perm_hill_identity (P Sp Cd Sc : ndarray) :
  is_inverse 3 P Sp -> is_inverse 3 Cd Sc ->
  exists pV pR pH cV cR cH,
    perm_hill P Cd [[0; 0; 0]] = Ok ((pV, pR, pH), (cV, cR, cH))
    /\ (meq 3 pV P /\ meq 3 pR P /\ meq 3 pH P)
    /\ (meq 3 cV Cd /\ meq 3 cR Cd /\ meq 3 cH Cd).
Proof.
  intros HP HC.
  destruct (linalg_inv_of_inverse 3 P Sp HP) as [Sp' [ESp HSp']].
  destruct (linalg_inv_of_inverse 3 Cd Sc HC) as [Sc' [ESc HSc']].
  destruct rotator_zxz_zero as [R [ER HR]].
  destruct (linalg_inv_eye 3 R HR) as [Ri [ERi HRi]].
  set (pv := divs (add zeros (matmul 3 R (matmul 3 P (transpose R)))) (INR 1)).
  set (cv := divs (add zeros (matmul 3 R (matmul 3 Cd (transpose R)))) (INR 1)).
  set (pr := divs (add zeros (matmul 3 Ri (matmul 3 Sp' (transpose Ri))))
                  (INR 1)).
  set (cr := divs (add zeros (matmul 3 Ri (matmul 3 Sc' (transpose Ri))))
                  (INR 1)).
  assert (Hpv : meq 3 pv P)
    by (apply mean_of_one, congruence_by_identity; exact HR).
  assert (Hcv : meq 3 cv Cd)
    by (apply mean_of_one, congruence_by_identity; exact HR).
  assert (Hpr : meq 3 pr Sp).
  { apply meq_trans with Sp'; [|exact HSp'].
    apply mean_of_one, congruence_by_identity; exact HRi. }
  assert (Hcr : meq 3 cr Sc).
  { apply meq_trans with Sc'; [|exact HSc'].
    apply mean_of_one, congruence_by_identity; exact HRi. }
  assert (Hpinv : is_inverse 3 pr P).
  { apply is_inverse_meq with (A := Sp) (B := P);
      [apply meq_sym; exact Hpr | apply meq_refl
      | apply is_inverse_sym; exact HP]. }
  assert (Hcinv : is_inverse 3 cr Cd).
  { apply is_inverse_meq with (A := Sc) (B := Cd);
      [apply meq_sym; exact Hcr | apply meq_refl
      | apply is_inverse_sym; exact HC]. }
  destruct (linalg_inv_of_inverse 3 pr P Hpinv) as [pR [EpR HpR]].
  destruct (linalg_inv_of_inverse 3 cr Cd Hcinv) as [cR [EcR HcR]].
  exists pv, pR, (divs (add pv pR) 2), cv, cR, (divs (add cv cR) 2).
  split.
  - unfold perm_hill. cbn [len_column0 hd List.length bind].
    rewrite ESp. cbn [bind]. rewrite ESc. cbn [bind perm_accumulate].
    rewrite ER. cbn [bind]. rewrite ERi.
    cbn [bind pvoigt cvoigt preuss creuss].
    fold pv. fold cv. fold pr. fold cr.
    rewrite EpR. cbn [bind]. rewrite EcR. reflexivity.
  - split; (split; [assumption|]); (split; [assumption|]);
      apply hill_of_equal; assumption.
Qed.

(** The zero array has no inverse. *)
Lemma zeros_singular (n : nat) (B : ndarray) :
  (0 < n)%nat -> ~ is_inverse n zeros B.
Proof.
  intros Hn [H _]. specialize (H 0%nat 0%nat Hn Hn).
  unfold matmul, zeros, eye in H. cbn [Nat.eqb] in H.
  rewrite (sum_upto_ext n _ (fun _ => 0)) in H by (intros; lra).
  rewrite sum_upto_zero in H. lra.
Qed.

(** An array that is zero inside the shape has no inverse. *)
Lemma meq_zeros_singular (n : nat) (A B : ndarray) :
  (0 < n)%nat -> meq n A zeros -> ~ is_inverse n A B.
Proof.
  intros Hn HA HAB. apply (zeros_singular n B Hn).
  apply is_inverse_meq with (A := A) (B := B);
    [exact HA | apply meq_refl | exact HAB].
Qed.

(** At frequency 0 the conductivity derived from a complex permittivity
    is the zero tensor. *)
Lemma snow_conductivity_zero_frequency (lwc : option R) (re im : ndarray) :
  exists sigma,
    snow_conductivity lwc (Some (Complex128 re im)) 0 = Ok sigma
    /\ meq 3 sigma zeros.
Proof.
  eexists. split; [reflexivity|].
  intros i j _ _. unfold hadamard, scale, imag, zeros. lra.
Qed.

Lemma linalg_inv_raise (n : nat) (A : ndarray) (e : exn) :
  linalg_inv n A = Raise e -> e = LinAlgError.
Proof.
  unfold linalg_inv. destruct (excluded_middle_informative _);
    [discriminate | intros E; injection E as <-; reflexivity].
Qed.

(** With a zero conductivity the block of [get_perm] stops at the
    inversion before the loop. *)
Lemma perm_hill_zero_conductivity
    (P Cd : ndarray) (e0 : R) (eul : list R) (rows : list (list R)) :
  meq 3 Cd zeros ->
  perm_hill P Cd ((e0 :: eul) :: rows) = Raise LinAlgError.
Proof.
  intros HCd. unfold perm_hill.
  cbn [len_column0 hd List.length bind].
  destruct (linalg_inv 3 P) as [Sp|e] eqn:ESp; cbn [bind].
  - rewrite (linalg_inv_singular 3 Cd)
      by (intros B; apply meq_zeros_singular; [lia | exact HCd]).
    reflexivity.
  - rewrite (linalg_inv_raise 3 P e ESp). reflexivity.
Qed.

Lemma snow_permittivity_complex (A_interp B_interp C_interp : R -> R)
    (density temperature lwc porosity center_frequency : R)
    (method : string) :
  exists re im rho_d,
    snow_permittivity A_interp B_interp C_interp density temperature lwc
                      porosity center_frequency method
    = (Complex128 re im, rho_d).
Proof.
  unfold snow_permittivity, porewater_correction.
  do 3 eexists. reflexivity.
Qed.

Lemma get_perm_row_zero_frequency (A_interp B_interp C_interp : R -> R) :
  get_perm_row identity_file A_interp B_interp C_interp
               static_model snow_sample 0
  = Raise LinAlgError.
Proof.
  unfold get_perm_row, dielectric_branch.
  cbn [snow_sample Material.material Material.temp Material.lwc
       Material.porosity Material.is_anisotropic Material.angfile
       item nth_error bind String.eqb Ascii.eqb Bool.eqb static_model f0].
  destruct (snow_permittivity_complex A_interp B_interp C_interp
              917 0 50 50 0 "shivola-tiuri") as [re [im [rho_d ->]]].
  destruct (snow_conductivity_zero_frequency None re im) as [sigma [Es Hs]].
  rewrite Es. cbn [bind real].
  unfold read_ang, identity_file. cbn [String.eqb Ascii.eqb Bool.eqb bind].
  assert (Er : read_ang_table [[Some 0; Some 0; Some 0]] = Ok [[0; 0; 0]])
    by reflexivity.
  rewrite Er. cbn [bind].
  rewrite (perm_hill_zero_conductivity re sigma 0 [0; 0] [] Hs).
  reflexivity.
Qed.

(** A diagonal tensor and its inverse. *)
Lemma scale_eye_inverse (n : nat) (a : R) :
  a <> 0 -> is_inverse n (scale eye a) (scale eye (/ a)).
Proof.
  intros Ha.
  assert (H : forall x y : R, x * y = 1 ->
                meq n (matmul n (scale eye x) (scale eye y)) eye).
  { intros x y Hxy i j Hi Hj. unfold matmul, scale.
    rewrite (sum_upto_ext n _ (fun k => eye i k * (x * (eye k j * y))))
      by (intros; lra).
    rewrite (sum_upto_delta_l n i (fun k => x * (eye k j * y)) Hi).
    replace (x * (eye i j * y)) with (eye i j * (x * y)) by lra.
    rewrite Hxy. lra. }
  split; apply H; field; exact Ha.
Qed.

(** The compliance of a hexagonal tensor. *)
Lemma hexagonal_inverse (a b c d e f : R) :
  a - b <> 0 -> (a + b) * d - 2 * c^2 <> 0 -> e <> 0 -> f <> 0 ->
  is_inverse 6 (hexagonal a b c d e f) (hexagonal_compliance a b c d e f).
Proof.
  intros Hab HD He Hf.
  split; intros i j Hi Hj; enum_indices;
    unfold matmul, hexagonal_compliance, hexagonal, eye;
    cbn [sum_upto Nat.eqb]; field; auto.
Qed.

Lemma ice_stiffness_is_hexagonal (t p : R) :
  meq 6 (ice_stiffness t p)
        (hexagonal (gammon_c11 t p * 1e8) (gammon_c12 t p * 1e8)
                   (gammon_c13 t p * 1e8) (gammon_c33 t p * 1e8)
                   (gammon_c44 t p * 1e8)
                   ((gammon_c11 t p - gammon_c12 t p) / 2 * 1e8)).
Proof.
  intros i j Hi Hj. enum_indices;
    unfold ice_stiffness, hexagonal, scale, set, zeros,
      gammon_c11, gammon_c12, gammon_c13, gammon_c33, gammon_c44;
    cbn [Nat.eqb andb]; lra.
Qed.

Lemma ice_stiffness_at_0C_invertible :
  exists S, is_inverse 6 (ice_stiffness 0 (0.1 * 1e-1)) S.
Proof.
  eexists.
  eapply is_inverse_meq;
    [apply meq_sym, ice_stiffness_is_hexagonal | apply meq_refl |].
  apply hexagonal_inverse;
    unfold gammon_c11, gammon_c12, gammon_c13, gammon_c33, gammon_c44; lra.
Qed.

(** The block of [get_seismic] on the ice stiffness at 0 C and one zero
    triple. *)
Lemma seismic_hill_ice_identity :
  exists V Re H,
    seismic_hill (ice_stiffness 0 (0.1 * 1e-1)) [[0; 0; 0]] = Ok (V, Re, H)
    /\ meq 6 V (ice_stiffness 0 (0.1 * 1e-1))
    /\ meq 6 Re (ice_stiffness 0 (0.1 * 1e-1))
    /\ meq 6 H (ice_stiffness 0 (0.1 * 1e-1)).
Proof.
  destruct ice_stiffness_at_0C_invertible as [S HS].
  exact (seismic_hill_identity _ S HS).
Qed.

(** C1, as the code has it.  For every single-crystal tensor that has an
    inverse (6x6 stiffness in [get_seismic]; 3x3 permittivity and
    conductivity in [get_perm]) and the ensemble of exactly one triple of
    zero Euler angles, the homogenization returns, and the Voigt, the
    Reuss and the Hill average all equal the tensor. *)
Theorem identity_ensemble_returns_crystal_tensor
    (C S P Sp Cd Sc : ndarray) :
  is_inverse 6 C S -> is_inverse 3 P Sp -> is_inverse 3 Cd Sc ->
  (exists V Re H,
      seismic_hill C [[0; 0; 0]] = Ok (V, Re, H)
      /\ meq 6 V C /\ meq 6 Re C /\ meq 6 H C)
  /\ (exists pV pR pH cV cR cH,
         perm_hill P Cd [[0; 0; 0]] = Ok ((pV, pR, pH), (cV, cR, cH))
         /\ (meq 3 pV P /\ meq 3 pR P /\ meq 3 pH P)
         /\ (meq 3 cV Cd /\ meq 3 cR Cd /\ meq 3 cH Cd)).
Proof.
  intros HC HP HCd. split.
  - exact (seismic_hill_identity C S HC).
  - exact (perm_hill_identity P Sp Cd Sc HP HCd).
Qed.

(** C1 as stated fails on a tensor without inverse: on the zero tensor the
    block of [get_seismic] raises [LinAlgError], and so does the block of
    [get_perm] on a zero conductivity, which [get_perm] reaches for a
    snow sample when the model frequency is 0. *)
Lemma identity_ensemble_singular_raises :
  seismic_hill zeros [[0; 0; 0]] = Raise LinAlgError
  /\ perm_hill (scale eye 3) zeros [[0; 0; 0]] = Raise LinAlgError
  /\ (forall A_interp B_interp C_interp : R -> R,
         get_perm_row identity_file A_interp B_interp C_interp
                      static_model snow_sample 0
         = Raise LinAlgError).
Proof.
  split; [|split].
  - unfold seismic_hill. cbn [len_column0 hd List.length bind].
    rewrite (linalg_inv_singular 6 zeros)
      by (intros B; apply zeros_singular; lia).
    reflexivity.
  - apply perm_hill_zero_conductivity. apply meq_refl.
  - exact get_perm_row_zero_frequency.
Qed.

(** C1 at the stiffness of ice at 0 C and 0.01 kbar, the tensor
    [get_seismic] homogenizes, and at the diagonal tensors 3 I and 4 I. *)
Lemma identity_ensemble_witness :
  (exists V Re H,
      seismic_hill (ice_stiffness 0 (0.1 * 1e-1)) [[0; 0; 0]] = Ok (V, Re, H)
      /\ meq 6 V (ice_stiffness 0 (0.1 * 1e-1))
      /\ meq 6 Re (ice_stiffness 0 (0.1 * 1e-1))
      /\ meq 6 H (ice_stiffness 0 (0.1 * 1e-1)))
  /\ (exists pV pR pH cV cR cH,
         perm_hill (scale eye 3) (scale eye 4) [[0; 0; 0]]
         = Ok ((pV, pR, pH), (cV, cR, cH))
         /\ (meq 3 pV (scale eye 3) /\ meq 3 pR (scale eye 3)
             /\ meq 3 pH (scale eye 3))
         /\ (meq 3 cV (scale eye 4) /\ meq 3 cR (scale eye 4)
             /\ meq 3 cH (scale eye 4))).
Proof.
  destruct ice_stiffness_at_0C_invertible as [S HS].
  apply (identity_ensemble_returns_crystal_tensor
           (ice_stiffness 0 (0.1 * 1e-1)) S
           (scale eye 3) (scale eye (/ 3))
           (scale eye 4) (scale eye (/ 4)));
    [exact HS | apply scale_eye_inverse; lra | apply scale_eye_inverse; lra].
Defined.

(* ================================================================== *)
(** * Symmetry of the tensors *)
(* ================================================================== *)

Lemma assign_isotropic_symmetric (lam mu : R) :
  symmetric 6 (assign_isotropic lam mu).
Proof.
  intros i j Hi Hj. enum_indices;
    unfold assign_isotropic, set, fill_diagonal, diagonal, set_block, zeros;
    cbn [Nat.eqb Nat.ltb Nat.leb andb]; reflexivity.
Qed.

Lemma ice_stiffness_symmetric (temperature pressure : R) :
  symmetric 6 (ice_stiffness temperature pressure).
Proof.
  intros i j Hi Hj. enum_indices;
    unfold ice_stiffness, scale, set, zeros;
    cbn [Nat.eqb andb]; reflexivity.
Qed.

Lemma set_diagonal_symmetric (n k : nat) (A : ndarray) (v : R) :
  symmetric n A -> symmetric n (set A k k v).
Proof.
  intros HA i j Hi Hj. unfold set.
  destruct (Nat.eqb i k), (Nat.eqb j k); cbn [andb];
    try reflexivity; apply HA; assumption.
Qed.

Lemma isotropic_permittivity_symmetric
    (temperature porosity water_content : R) (material_name : string)
    (P Cd : ndarray) :
  isotropic_permittivity_tensor temperature porosity water_content
                                material_name = Ok (P, Cd) ->
  symmetric 3 P /\ symmetric 3 Cd.
Proof.
  unfold isotropic_permittivity_tensor.
  destruct (dict_get isotropic_materials material_name) as [lim|e];
    cbn [bind]; [|discriminate].
  repeat match goal with
         | |- context [if ?b then _ else _] => destruct b
         end;
    intros E; injection E as <- <-; split; apply scale_eye_symmetric.
Qed.

Section DielectricSymmetry.

Variables A_interp B_interp C_interp : R -> R.

Lemma ice_permittivity_symmetric
    (temperature density center_frequency : R) (method : string) :
  let P := ice_permittivity A_interp B_interp C_interp
                            temperature density center_frequency method in
  symmetric 3 (real P) /\ symmetric 3 (imag P).
Proof.
  unfold ice_permittivity.
  destruct (String.eqb method "kovacs"); [|destruct (String.eqb method "fujita")];
    cbn [real imag]; split;
    try apply set_diagonal_symmetric;
    try apply scale_eye_symmetric; apply zeros_symmetric.
Qed.

Lemma snow_permittivity_symmetric
    (density temperature lwc porosity center_frequency : R)
    (method : string) :
  let P := fst (snow_permittivity A_interp B_interp C_interp
                  density temperature lwc porosity center_frequency method) in
  symmetric 3 (real P) /\ symmetric 3 (imag P).
Proof.
  unfold snow_permittivity, porewater_correction. cbn [fst real imag].
  split; apply scale_eye_symmetric.
Qed.

End DielectricSymmetry.

(** The running sums of [get_seismic] stay symmetric. *)
Lemma seismic_accumulate_symmetric (C S : ndarray) (rows : list (list R)) :
  symmetric 6 C -> symmetric 6 S ->
  forall cv cr cv' cr',
    symmetric 6 cv -> symmetric 6 cr ->
    seismic_accumulate C S rows cv cr = Ok (cv', cr') ->
    symmetric 6 cv' /\ symmetric 6 cr'.
Proof.
  intros HC HS. induction rows as [|eul rest IH]; intros cv cr cv' cr' Hv Hr.
  - cbn [seismic_accumulate]. intros E. injection E as <- <-.
    split; assumption.
  - cbn [seismic_accumulate].
    destruct (rotator_zxz eul) as [R|e]; cbn [bind]; [|discriminate].
    destruct (linalg_inv 6 (bond R)) as [N|e]; cbn [bind]; [|discriminate].
    apply IH; apply add_symmetric; try assumption;
      apply congruence_symmetric; assumption.
Qed.

Lemma seismic_hill_symmetric (C : ndarray) (euler : list (list R))
    (V Re H : ndarray) :
  symmetric 6 C ->
  seismic_hill C euler = Ok (V, Re, H) ->
  symmetric 6 V /\ symmetric 6 Re /\ symmetric 6 H.
Proof.
  intros HC. unfold seismic_hill.
  destruct (len_column0 euler) as [p|e]; cbn [bind]; [|discriminate].
  destruct (linalg_inv 6 C) as [S|e] eqn:ES; cbn [bind]; [|discriminate].
  assert (HS : symmetric 6 S)
    by (apply (inverse_symmetric 6 C S HC), linalg_inv_Ok, ES).
  destruct (seismic_accumulate C S euler zeros zeros) as [[cv cr]|e] eqn:Eacc;
    cbn [bind]; [|discriminate].
  destruct (seismic_accumulate_symmetric C S euler HC HS _ _ _ _
              (zeros_symmetric 6) (zeros_symmetric 6) Eacc) as [Hcv Hcr].
  destruct (linalg_inv 6 (divs cr (INR p))) as [Re'|e] eqn:ER;
    cbn [bind]; [|discriminate].
  intros E. injection E as <- <- <-.
  assert (HV : symmetric 6 (divs cv (INR p))) by (apply divs_symmetric, Hcv).
  assert (HR : symmetric 6 Re').
  { apply (inverse_symmetric 6 (divs cr (INR p)));
      [apply divs_symmetric, Hcr | apply linalg_inv_Ok, ER]. }
  split; [exact HV|]. split; [exact HR|].
  apply divs_symmetric, add_symmetric; assumption.
Qed.

Lemma perm_accumulate_symmetric (P Cd Sp Sc : ndarray)
    (rows : list (list R)) :
  symmetric 3 P -> symmetric 3 Cd -> symmetric 3 Sp -> symmetric 3 Sc ->
  forall acc acc',
    perm_sums_symmetric acc ->
    perm_accumulate P Cd Sp Sc rows acc = Ok acc' ->
    perm_sums_symmetric acc'.
Proof.
  intros HP HCd HSp HSc.
  induction rows as [|eul rest IH]; intros acc acc' Hacc.
  - cbn [perm_accumulate]. intros E. injection E as <-. exact Hacc.
  - cbn [perm_accumulate].
    destruct (rotator_zxz eul) as [R|e]; cbn [bind]; [|discriminate].
    destruct (linalg_inv 3 R) as [Ri|e]; cbn [bind]; [|discriminate].
    apply IH. destruct Hacc as [H1 [H2 [H3 H4]]].
    unfold perm_sums_symmetric. cbn [pvoigt cvoigt preuss creuss].
    repeat split; apply add_symmetric; try assumption;
      apply congruence_symmetric; assumption.
Qed.

Lemma perm_hill_symmetric (P Cd : ndarray) (euler : list (list R))
    (pV pR pH cV cR cH : ndarray) :
  symmetric 3 P -> symmetric 3 Cd ->
  perm_hill P Cd euler = Ok ((pV, pR, pH), (cV, cR, cH)) ->
  (symmetric 3 pV /\ symmetric 3 pR /\ symmetric 3 pH)
  /\ (symmetric 3 cV /\ symmetric 3 cR /\ symmetric 3 cH).
Proof.
  intros HP HCd. unfold perm_hill.
  destruct (len_column0 euler) as [p|e]; cbn [bind]; [|discriminate].
  destruct (linalg_inv 3 P) as [Sp|e] eqn:ESp; cbn [bind]; [|discriminate].
  destruct (linalg_inv 3 Cd) as [Sc|e] eqn:ESc; cbn [bind]; [|discriminate].
  assert (HSp : symmetric 3 Sp)
    by (apply (inverse_symmetric 3 P Sp HP), linalg_inv_Ok, ESp).
  assert (HSc : symmetric 3 Sc)
    by (apply (inverse_symmetric 3 Cd Sc HCd), linalg_inv_Ok, ESc).
  destruct (perm_accumulate P Cd Sp Sc euler
              (mk_perm_sums zeros zeros zeros zeros)) as [acc|e] eqn:Eacc;
    cbn [bind]; [|discriminate].
  assert (H0 : perm_sums_symmetric (mk_perm_sums zeros zeros zeros zeros))
    by (repeat split; apply zeros_symmetric).
  destruct (perm_accumulate_symmetric P Cd Sp Sc euler HP HCd HSp HSc
              _ _ H0 Eacc) as [H1 [H2 [H3 H4]]].
  destruct (linalg_inv 3 (divs (preuss acc) (INR p))) as [pR'|e] eqn:EpR;
    cbn [bind]; [|discriminate].
  destruct (linalg_inv 3 (divs (creuss acc) (INR p))) as [cR'|e] eqn:EcR;
    cbn [bind]; [|discriminate].
  intros E. injection E as <- <- <- <- <- <-.
  assert (HpR : symmetric 3 pR').
  { apply (inverse_symmetric 3 (divs (preuss acc) (INR p)));
      [apply divs_symmetric, H3 | apply linalg_inv_Ok, EpR]. }
  assert (HcR : symmetric 3 cR').
  { apply (inverse_symmetric 3 (divs (creuss acc) (INR p)));
      [apply divs_symmetric, H4 | apply linalg_inv_Ok, EcR]. }
  repeat split; try assumption;
    repeat first [apply divs_symmetric | apply add_symmetric]; assumption.
Qed.

Lemma hadamard_eye_symmetric (n : nat) (A : ndarray) :
  symmetric n (hadamard eye A).
Proof.
  intros i j _ _. unfold hadamard, eye.
  destruct (Nat.eqb_spec i j) as [->|Hne].
  - rewrite Nat.eqb_refl. reflexivity.
  - destruct (Nat.eqb_spec j i) as [E|_]; [congruence | lra].
Qed.

Lemma round_array_decimals_symmetric (n d : nat) (A : ndarray) :
  symmetric n A -> symmetric n (round_array_decimals d A).
Proof.
  intros HA i j Hi Hj. unfold round_array_decimals.
  rewrite HA by assumption. reflexivity.
Qed.

(** What [snow_conductivity] returns is a diagonal tensor. *)
Lemma snow_conductivity_symmetric
    (lwc : option R) (permittivity : option array) (frequency : R)
    (sigma : ndarray) :
  snow_conductivity lwc permittivity frequency = Ok sigma ->
  symmetric 3 sigma.
Proof.
  unfold snow_conductivity.
  destruct (iscomplexobj permittivity).
  - intros E. injection E as <-. apply hadamard_eye_symmetric.
  - discriminate.
Qed.

Section BranchSymmetry.

Variables A_interp B_interp C_interp : R -> R.

(** The two tensors [get_perm] computes for a material are symmetric. *)
Lemma dielectric_branch_symmetric
    (self : Model) (material : Material.t) (ind : nat) (name : string)
    (permittivity : array) (conductivity : ndarray) :
  dielectric_branch A_interp B_interp C_interp self material ind name
  = Ok (permittivity, conductivity) ->
  symmetric 3 (real permittivity) /\ symmetric 3 conductivity.
Proof.
  unfold dielectric_branch.
  destruct (String.eqb name "ice1h"); [|destruct (String.eqb name "snow")].
  - intros H.
    apply bind_Ok_inv in H as [temp_i [_ H]].
    apply bind_Ok_inv in H as [rho_i [_ H]].
    apply bind_Ok_inv in H as [sigma [Es H]].
    injection H as <- <-. split.
    + apply ice_permittivity_symmetric.
    + exact (snow_conductivity_symmetric _ _ _ _ Es).
  - intros H.
    apply bind_Ok_inv in H as [temp_i [_ H]].
    apply bind_Ok_inv in H as [lwc_i [_ H]].
    apply bind_Ok_inv in H as [porosity_i [_ H]].
    pose proof (snow_permittivity_symmetric A_interp B_interp C_interp
                  917 temp_i lwc_i porosity_i (f0 self) "shivola-tiuri")
      as [Hre _].
    destruct (snow_permittivity _ _ _ _ _ _ _ _ _) as [P rho_d].
    apply bind_Ok_inv in H as [sigma [Es H]].
    injection H as <- <-. split.
    + exact Hre.
    + exact (snow_conductivity_symmetric _ _ _ _ Es).
  - intros H.
    apply bind_Ok_inv in H as [temp_i [_ H]].
    apply bind_Ok_inv in H as [porosity_i [_ H]].
    apply bind_Ok_inv in H as [lwc_i [_ H]].
    apply bind_Ok_inv in H as [[P Cd] [E1 H]].
    apply bind_Ok_inv in H as [[P' Cd'] [E2 H]].
    injection H as <- <-. cbn [real fst snd].
    destruct (isotropic_permittivity_symmetric _ _ _ _ _ _ E1) as [HP _].
    destruct (isotropic_permittivity_symmetric _ _ _ _ _ _ E2) as [_ HCd].
    split; [apply round_array_decimals_symmetric; exact HP | exact HCd].
Qed.

End BranchSymmetry.

(** The tensor [get_seismic] computes for a material is symmetric. *)
Lemma stiffness_branch_symmetric
    (read_table : string -> result table) (material : Material.t)
    (ind : nat) (temp_i density : R) (aniso : bool) (name : string)
    (C : ndarray) (out : list string) :
  stiffness_branch read_table material ind temp_i density aniso name
  = Ok (C, out) ->
  symmetric 6 C.
Proof.
  unfold stiffness_branch.
  destruct (aniso && String.eqb name "ice1h");
    [|destruct (negb aniso && String.eqb name "ice1h")].
  - intros H.
    apply bind_Ok_inv in H as [angfile_i [_ H]].
    apply bind_Ok_inv in H as [euler [_ H]].
    apply bind_Ok_inv in H as [[[V Re] Hill] [E H]].
    injection H as <- _.
    apply (seismic_hill_symmetric (ice_stiffness temp_i (0.1 * 1e-1))
             euler V Re Hill (ice_stiffness_symmetric _ _) E).
  - intros H. injection H as <- _. apply ice_stiffness_symmetric.
  - intros H.
    apply bind_Ok_inv in H as [material_limits [_ H]].
    injection H as <- _. apply assign_isotropic_symmetric.
Qed.

(** C9.  The tensors the core produces are symmetric: the outputs of
    [isotropic_stiffness_tensor], [ice_stiffness],
    [isotropic_permittivity_tensor] (permittivity and conductivity),
    [ice_permittivity] and [snow_permittivity] (real and imaginary part),
    and, whenever the homogenization returns, its Voigt, Reuss and Hill
    averages: for any symmetric single-crystal tensor, for the ice
    stiffness [get_seismic] homogenizes, and for the permittivity and
    conductivity [get_perm] homogenizes; and so is the tensor
    [get_seismic] computes in each of its branches. *)
Theorem output_tensors_symmetric :
  (forall (pressure density : R) (material_limits : limits),
      symmetric 6 (isotropic_stiffness_tensor pressure density material_limits))
  /\ (forall temperature pressure : R,
         symmetric 6 (ice_stiffness temperature pressure))
  /\ (forall (temperature porosity water_content : R) (material_name : string)
             (P Cd : ndarray),
         isotropic_permittivity_tensor temperature porosity water_content
                                       material_name = Ok (P, Cd) ->
         symmetric 3 P /\ symmetric 3 Cd)
  /\ (forall (A_interp B_interp C_interp : R -> R)
             (temperature density center_frequency : R) (method : string),
         let P := ice_permittivity A_interp B_interp C_interp
                    temperature density center_frequency method in
         symmetric 3 (real P) /\ symmetric 3 (imag P))
  /\ (forall (A_interp B_interp C_interp : R -> R)
             (density temperature lwc porosity center_frequency : R)
             (method : string),
         let P := fst (snow_permittivity A_interp B_interp C_interp
                         density temperature lwc porosity center_frequency
                         method) in
         symmetric 3 (real P) /\ symmetric 3 (imag P))
  /\ (forall (C : ndarray) (euler : list (list R)) (V Re H : ndarray),
         symmetric 6 C ->
         seismic_hill C euler = Ok (V, Re, H) ->
         symmetric 6 V /\ symmetric 6 Re /\ symmetric 6 H)
  /\ (forall (temperature pressure : R) (euler : list (list R))
             (V Re H : ndarray),
         seismic_hill (ice_stiffness temperature pressure) euler
         = Ok (V, Re, H) ->
         symmetric 6 V /\ symmetric 6 Re /\ symmetric 6 H)
  /\ (forall (P Cd : ndarray) (euler : list (list R))
             (pV pR pH cV cR cH : ndarray),
         symmetric 3 P -> symmetric 3 Cd ->
         perm_hill P Cd euler = Ok ((pV, pR, pH), (cV, cR, cH)) ->
         (symmetric 3 pV /\ symmetric 3 pR /\ symmetric 3 pH)
         /\ (symmetric 3 cV /\ symmetric 3 cR /\ symmetric 3 cH))
  /\ (forall (A_interp B_interp C_interp : R -> R)
             (self : Model) (material : Material.t) (ind : nat)
             (name : string) (permittivity : array) (conductivity : ndarray)
             (euler : list (list R)) (pV pR pH cV cR cH : ndarray),
         dielectric_branch A_interp B_interp C_interp self material ind name
         = Ok (permittivity, conductivity) ->
         (symmetric 3 (real permittivity) /\ symmetric 3 conductivity)
         /\ (perm_hill (real permittivity) conductivity euler
             = Ok ((pV, pR, pH), (cV, cR, cH)) ->
             (symmetric 3 pV /\ symmetric 3 pR /\ symmetric 3 pH)
             /\ (symmetric 3 cV /\ symmetric 3 cR /\ symmetric 3 cH)))
  /\ (forall (read_table : string -> result table) (material : Material.t)
             (ind : nat) (temp_i density : R) (aniso : bool) (name : string)
             (C : ndarray) (out : list string),
         stiffness_branch read_table material ind temp_i density aniso name
         = Ok (C, out) ->
         symmetric 6 C).
Proof.
  repeat apply conj.
  - intros. apply assign_isotropic_symmetric.
  - exact ice_stiffness_symmetric.
  - exact isotropic_permittivity_symmetric.
  - exact ice_permittivity_symmetric.
  - exact snow_permittivity_symmetric.
  - intros C euler V Re H. apply seismic_hill_symmetric.
  - intros t p euler V Re H. apply seismic_hill_symmetric.
    apply ice_stiffness_symmetric.
  - intros P Cd euler pV pR pH cV cR cH. apply perm_hill_symmetric.
  - intros A_interp B_interp C_interp self material ind name
           permittivity conductivity euler pV pR pH cV cR cH E.
    destruct (dielectric_branch_symmetric A_interp B_interp C_interp
                self material ind name permittivity conductivity E)
      as [HP HC].
    split; [split; assumption|].
    apply perm_hill_symmetric; assumption.
  - exact stiffness_branch_symmetric.
Qed.

(** C9 on the homogenization [get_seismic] runs for ice at 0 C over one
    zero triple: it returns, and the three averages are symmetric. *)
Lemma output_tensors_symmetric_witness :
  exists V Re H,
    seismic_hill (ice_stiffness 0 (0.1 * 1e-1)) [[0; 0; 0]] = Ok (V, Re, H)
    /\ symmetric 6 V /\ symmetric 6 Re /\ symmetric 6 H.
Proof.
  destruct seismic_hill_ice_identity as [V [Re [H [E _]]]].
  exists V, Re, H. split; [exact E|].
  destruct output_tensors_symmetric as [_ [_ [_ [_ [_ [_ [Hice _]]]]]]].
  exact (Hice _ _ _ _ _ _ E).
Defined.

(* ================================================================== *)
(** * Rounding before the record is packed *)
(* ================================================================== *)

(** [np.round] returns an integer. *)
Lemma np_round_integer (x : R) : exists z : Z, np_round x = IZR z.
Proof.
  unfold np_round.
  destruct (Rlt_dec _ _); [eexists; reflexivity|].
  destruct (Rlt_dec _ _); [eexists; reflexivity|].
  destruct (Z.even _); eexists; reflexivity.
Qed.

(** [np.round] moves a value by at most one half. *)
Lemma np_round_near (x : R) : Rabs (np_round x - x) <= 1 / 2.
Proof.
  unfold np_round. pose proof (Zfloor_bound x) as [Hlo Hhi].
  destruct (Rlt_dec _ _) as [H1|H1].
  - apply Rabs_le. lra.
  - destruct (Rlt_dec _ _) as [H2|H2].
    + rewrite plus_IZR. apply Rabs_le. lra.
    + destruct (Z.even _); [|rewrite plus_IZR]; apply Rabs_le; lra.
Qed.

(** The record packed from the rounded tensor, written out. *)
Lemma upper21_round_array (C : ndarray) (density : R) :
  rounded_record (upper21 (round_array C) ++ [density]) C density.
Proof.
  split; [reflexivity|]. split.
  - intros k Hk. enum_index k Hk;
      cbn [upper21 app nth]; unfold round_array; apply np_round_integer.
  - intros i j. apply np_round_near.
Qed.

Lemma loc_get_set_same (df : frame) (ind : nat) (row : list R) :
  loc_get (loc_set df ind row) ind = Some row.
Proof.
  induction df as [|[k r] rest IH]; cbn [loc_set loc_get].
  - rewrite Nat.eqb_refl. reflexivity.
  - destruct (Nat.eqb k ind) eqn:E; cbn [loc_get].
    + rewrite Nat.eqb_refl. reflexivity.
    + rewrite E. exact IH.
Qed.

Lemma loc_get_set_other (df : frame) (ind k : nat) (row : list R) :
  k <> ind -> loc_get (loc_set df ind row) k = loc_get df k.
Proof.
  intros Hne. induction df as [|[k' r] rest IH]; cbn [loc_set loc_get].
  - destruct (Nat.eqb_spec ind k); [congruence | reflexivity].
  - destruct (Nat.eqb_spec k' ind) as [->|Hk']; cbn [loc_get].
    + destruct (Nat.eqb_spec ind k); [congruence | reflexivity].
    + destruct (Nat.eqb k' k); [reflexivity | exact IH].
Qed.

Section PackedRecord.

Variable read_table : string -> result table.

(** What the loop body writes for one material. *)
Lemma get_seismic_row_record
    (material : Material.t) (ind : nat) (row : list R) (out : list string) :
  get_seismic_row read_table material ind = Ok (row, out) ->
  exists C density,
    selected_stiffness read_table material ind C
    /\ corrected_density material ind density
    /\ rounded_record row C density.
Proof.
  unfold get_seismic_row. intros H.
  apply bind_Ok_inv in H as [temp_i [Et H]].
  apply bind_Ok_inv in H as [rho_i [Er H]].
  apply bind_Ok_inv in H as [porosity_i [Ep H]].
  apply bind_Ok_inv in H as [lwc_i [El H]].
  destruct (porewater_correction temp_i rho_i porosity_i lwc_i)
    as [[density ga] gw] eqn:Epw.
  apply bind_Ok_inv in H as [aniso [Ea H]].
  apply bind_Ok_inv in H as [name [En H]].
  apply bind_Ok_inv in H as [[C out1] [EC H]].
  destruct (highfreq_stability_conditions C) as [conds out2].
  injection H as <- _.
  assert (Hd : corrected_density material ind density).
  { exists temp_i, rho_i, porosity_i, lwc_i. rewrite Epw.
    repeat split; assumption. }
  exists C, density. split; [|split; [exact Hd|]].
  - exists temp_i, density, aniso, name, out1. repeat split; assumption.
  - apply upper21_round_array.
Qed.

(** The loop leaves alone the records it does not visit. *)
Lemma get_seismic_loop_other (material : Material.t) (inds : list nat) :
  forall self out self' out',
    get_seismic_loop read_table material inds self out = Ok (self', out') ->
    forall k, ~ In k inds ->
      loc_get (stiffness_coefficients self') k
      = loc_get (stiffness_coefficients self) k.
Proof.
  induction inds as [|ind rest IH]; intros self out self' out' H k Hk.
  - cbn [get_seismic_loop] in H. injection H as <- _. reflexivity.
  - cbn [get_seismic_loop] in H.
    apply bind_Ok_inv in H as [[row o] [_ H]].
    rewrite (IH _ _ _ _ H k) by (intros Hin; apply Hk; right; exact Hin).
    cbn [stiffness_coefficients].
    apply loc_get_set_other. intros ->. apply Hk. left. reflexivity.
Qed.

(** After the loop every visited material has the record its body
    computed. *)
Lemma get_seismic_loop_written (material : Material.t) (inds : list nat) :
  forall self out self' out',
    get_seismic_loop read_table material inds self out = Ok (self', out') ->
    forall ind, In ind inds ->
      exists row o,
        get_seismic_row read_table material ind = Ok (row, o)
        /\ loc_get (stiffness_coefficients self') ind = Some row.
Proof.
  induction inds as [|i rest IH]; intros self out self' out' H ind Hin.
  - destruct Hin.
  - cbn [get_seismic_loop] in H.
    apply bind_Ok_inv in H as [[row o] [Erow H]].
    destruct (in_dec Nat.eq_dec ind rest) as [Hrest|Hrest].
    + exact (IH _ _ _ _ H ind Hrest).
    + destruct Hin as [->|Hin]; [|contradiction].
      exists row, o. split; [exact Erow|].
      rewrite (get_seismic_loop_other material rest _ _ _ _ H ind Hrest).
      cbn [stiffness_coefficients]. apply loc_get_set_same.
Qed.

(** C10.  When [get_seismic] returns, the record it has written for every
    material is built from the tensor [C] computed for that material: its
    first 21 values are [np.round] of C[0,0], C[0,1], ..., C[0,5], C[1,1],
    ..., C[5,5], in this order, each of them an integer at distance at most
    1/2 from the entry of [C]; the 22nd value is the density corrected by
    [porewater_correction], stored as it is. *)
Theorem get_seismic_records_rounded
    (self self' : Model) (material : Material.t) (out : list string)
    (ind : nat) :
  get_seismic read_table self material = Ok (self', out) ->
  (ind < List.length (Material.temp material))%nat ->
  exists row C density,
    loc_get (stiffness_coefficients self') ind = Some row
    /\ selected_stiffness read_table material ind C
    /\ corrected_density material ind density
    /\ rounded_record row C density.
Proof.
  unfold get_seismic. intros H Hind.
  assert (Hin : In ind (seq 0 (List.length (Material.temp material))))
    by (apply in_seq; lia).
  destruct (get_seismic_loop_written material _ _ _ _ _ H ind Hin)
    as [row [o [Erow Hget]]].
  destruct (get_seismic_row_record material ind row o Erow)
    as [C [density [HC [Hd Hrec]]]].
  exists row, C, density.
  split; [exact Hget|]. split; [exact HC|]. split; [exact Hd | exact Hrec].
Qed.

End PackedRecord.

(** C10 on the granite sample: [get_seismic] returns and the record of
    material 0 has the stated form. *)
Lemma get_seismic_records_rounded_witness :
  exists self' out row C density,
    get_seismic no_files empty_model granite_sample = Ok (self', out)
    /\ loc_get (stiffness_coefficients self') 0 = Some row
    /\ selected_stiffness no_files granite_sample 0 C
    /\ corrected_density granite_sample 0 density
    /\ rounded_record row C density.
Proof.
  assert (E : exists self' out,
             get_seismic no_files empty_model granite_sample
             = Ok (self', out))
    by (do 2 eexists; reflexivity).
  destruct E as [self' [out E]].
  destruct (get_seismic_records_rounded no_files empty_model self'
              granite_sample out 0 E) as [row [C [density H]]].
  - cbn [granite_sample Material.temp List.length]. lia.
  - exists self', out, row, C, density. split; [exact E | exact H].
Defined.

(* ================================================================== *)
(** * read_ang on tables without NaN *)
(* ================================================================== *)

Lemma drop_nan_Some (l : list R) : drop_nan (map Some l) = l.
Proof. induction l as [|x l IH]; cbn [map drop_nan]; congruence. Qed.

Lemma concat_map_Some (rows : list (list R)) :
  List.concat (map (map Some) rows) = map Some (List.concat rows).
Proof.
  induction rows as [|r rows IH]; cbn [map List.concat]; [reflexivity|].
  rewrite IH, map_app. reflexivity.
Qed.

Lemma length_concat_rectangular (n : nat) (rows : list (list R)) :
  rectangular n rows ->
  List.length (List.concat rows) = (List.length rows * n)%nat.
Proof.
  induction rows as [|r rows IH]; intros Hrect; cbn [List.concat List.length].
  - reflexivity.
  - rewrite length_app, (Hrect r) by (left; reflexivity).
    rewrite IH by (intros r' Hr'; apply Hrect; right; exact Hr').
    lia.
Qed.

(** Cutting the flattened table back into rows gives the table. *)
Lemma rows_of_concat (n : nat) (rows : list (list R)) :
  rectangular n rows ->
  rows_of (List.length rows) n (List.concat rows) = rows.
Proof.
  induction rows as [|r rows IH]; intros Hrect;
    cbn [List.concat List.length rows_of].
  - reflexivity.
  - assert (Hr : List.length r = n) by (apply Hrect; left; reflexivity).
    subst n.
    rewrite firstn_app, Nat.sub_diag, firstn_all, firstn_O, app_nil_r.
    rewrite skipn_app, Nat.sub_diag, skipn_all, skipn_O. cbn [app].
    rewrite IH by (intros r' Hr'; apply Hrect; right; exact Hr').
    reflexivity.
Qed.

Lemma rectangular_firstn (n k : nat) (rows : list (list R)) :
  rectangular n rows -> rectangular (Nat.min k n) (map (firstn k) rows).
Proof.
  intros Hrect r Hr. apply in_map_iff in Hr as [r' [<- Hr']].
  rewrite length_firstn, (Hrect r' Hr'). reflexivity.
Qed.

(** On a NaN-free table with at least one row the later steps of
    [read_ang] give the rows back as they are. *)
Lemma flatten_reshape_rectangular (n : nat) (rows : list (list R)) :
  rows <> [] -> rectangular n rows ->
  reshape (drop_nan (List.concat (map (map Some) rows)))
          (List.length rows)
          (List.length (drop_nan (List.concat (map (map Some) rows)))
           / List.length rows)
  = Ok rows.
Proof.
  intros Hne Hrect.
  rewrite concat_map_Some, drop_nan_Some.
  rewrite (length_concat_rectangular n rows Hrect).
  assert (Hm : List.length rows <> 0%nat)
    by (destruct rows; [contradiction | discriminate]).
  rewrite Nat.mul_comm, Nat.div_mul by exact Hm.
  unfold reshape.
  rewrite (length_concat_rectangular n rows Hrect), Nat.eqb_refl.
  rewrite (rows_of_concat n rows Hrect). reflexivity.
Qed.

Lemma firstn_map_Some (k : nat) (rows : list (list R)) :
  map (firstn k) (map (map Some) rows) = map (map Some) (map (firstn k) rows).
Proof.
  rewrite !map_map. apply map_ext. intros r. apply firstn_map.
Qed.

(** C7, as the code has it.  On a table without NaN, of [n] columns and
    at least one row, [read_ang] returns without error; the columns are
    cut to the first three only when the table has more than three ROWS;
    otherwise every column is kept. *)
Theorem read_ang_table_rectangular (n : nat) (rows : list (list R)) :
  rows <> [] -> rectangular n rows ->
  read_ang_table (map (map Some) rows)
  = Ok (if Nat.ltb 3 (List.length rows) then map (firstn 3) rows else rows).
Proof.
  intros Hne Hrect.
  unfold read_ang_table, select_not_nan, shape, table, cell. cbn [fst].
  rewrite length_map.
  assert (Hpos : forall rs : list (list R),
             rs <> [] -> Nat.eqb (List.length (map (map Some) rs)) 0 = false).
  { intros [|r rs] H; [contradiction | reflexivity]. }
  destruct (Nat.ltb 3 (List.length rows)) eqn:E3; cbn [fst snd].
  - rewrite firstn_map_Some.
    assert (Hne' : map (firstn 3) rows <> [])
      by (destruct rows; [contradiction | discriminate]).
    rewrite (Hpos _ Hne'). cbn [bind]. rewrite length_map.
    apply (flatten_reshape_rectangular (Nat.min 3 n)); [exact Hne'|].
    apply rectangular_firstn. exact Hrect.
  - rewrite (Hpos _ Hne). cbn [bind]. rewrite length_map.
    apply (flatten_reshape_rectangular n); assumption.
Qed.

(** C7 on two rows of four columns: all four columns come back. *)
Lemma read_ang_table_rectangular_witness :
  read_ang_table table_2x4 = Ok [ [0.1; 0.2; 0.3; 9]; [0.4; 0.5; 0.6; 9] ].
Proof.
  apply (read_ang_table_rectangular 4
           [ [0.1; 0.2; 0.3; 9]; [0.4; 0.5; 0.6; 9] ]).
  - discriminate.
  - intros r [<-|[<-|[]]]; reflexivity.
Defined.

(* ================================================================== *)
(** * Rotations are orthogonal *)
(* ================================================================== *)

(** The inverse of a product is the product of the inverses, reversed. *)
Lemma is_inverse_matmul (n : nat) (A A' B B' : ndarray) :
  is_inverse n A A' -> is_inverse n B B' ->
  is_inverse n (matmul n A B) (matmul n B' A').
Proof.
  intros [HA1 HA2] [HB1 HB2].
  assert (H : forall X X' Y Y' : ndarray,
             meq n (matmul n X X') eye -> meq n (matmul n Y Y') eye ->
             meq n (matmul n (matmul n X Y) (matmul n Y' X')) eye).
  { intros X X' Y Y' HX HY.
    apply meq_trans with (matmul n X (matmul n Y (matmul n Y' X'))).
    { intros i j _ _. apply matmul_assoc. }
    apply meq_trans with (matmul n X X'); [|exact HX].
    apply matmul_meq; [apply meq_refl|].
    apply meq_trans with (matmul n (matmul n Y Y') X').
    { intros i j _ _. symmetry. apply matmul_assoc. }
    apply meq_trans with (matmul n eye X');
      [apply matmul_meq; [exact HY | apply meq_refl] | apply matmul_eye_l]. }
  split; [apply H; assumption | apply H; assumption].
Qed.

Lemma transpose_matmul_meq (n : nat) (A B : ndarray) :
  meq n (transpose (matmul n A B)) (matmul n (transpose B) (transpose A)).
Proof. intros i j _ _. apply transpose_matmul. Qed.

(** The three factors of [rotator_zxz] are orthogonal. *)
Lemma rotation_z_orthogonal (e : R) :
  orthogonal
    (set_row (set_row (set_row zeros 0 [ cos e; - sin e; 0.0 ])
                      1 [ sin e; cos e; 0.0 ])
             2 [ 0.0; 0.0; 1.0 ]).
Proof.
  pose proof (sin2_cos2 e) as H. unfold Rsqr in H.
  split; intros i j Hi Hj; enum_indices;
    unfold matmul, transpose, set_row, zeros, eye;
    cbn [sum_upto nth Nat.eqb]; nra.
Qed.

Lemma rotation_x_orthogonal (e : R) :
  orthogonal
    (set_row (set_row (set_row zeros 0 [ 1.0; 0.0; 0.0 ])
                      1 [ 0.0; cos e; - sin e ])
             2 [ 0.0; sin e; cos e ]).
Proof.
  pose proof (sin2_cos2 e) as H. unfold Rsqr in H.
  split; intros i j Hi Hj; enum_indices;
    unfold matmul, transpose, set_row, zeros, eye;
    cbn [sum_upto nth Nat.eqb]; nra.
Qed.

Lemma orthogonal_matmul (A B : ndarray) :
  orthogonal A -> orthogonal B -> orthogonal (matmul 3 A B).
Proof.
  unfold orthogonal. intros HA HB.
  apply is_inverse_meq
    with (A := matmul 3 A B) (B := matmul 3 (transpose B) (transpose A)).
  - apply meq_refl.
  - apply meq_sym, transpose_matmul_meq.
  - apply is_inverse_matmul; assumption.
Qed.

(** [rotator_zxz] reads the first three entries of its argument. *)
Lemma rotator_zxz_three (e0 e1 e2 : R) (rest : list R) :
  exists Q, rotator_zxz (e0 :: e1 :: e2 :: rest) = Ok Q /\ orthogonal Q
            /\ rotator_zxz [e0; e1; e2] = Ok Q.
Proof.
  eexists. split; [reflexivity|]. split; [|reflexivity].
  apply orthogonal_matmul; [apply rotation_z_orthogonal|].
  apply orthogonal_matmul;
    [apply rotation_x_orthogonal | apply rotation_z_orthogonal].
Qed.

Lemma rotator_zxz_short (eul : list R) :
  (List.length eul < 3)%nat -> rotator_zxz eul = Raise IndexError.
Proof.
  intros H. destruct eul as [|e0 [|e1 [|e2 rest]]]; try reflexivity.
  cbn [List.length] in H. lia.
Qed.

(** On at least three angles [rotator_zxz] returns a rotation matrix, and
    [np.linalg.inv] of it returns the transpose. *)
Lemma rotator_zxz_long (eul : list R) :
  (3 <= List.length eul)%nat ->
  exists Q Qi,
    rotator_zxz eul = Ok Q
    /\ rotator_zxz (firstn 3 eul) = Ok Q
    /\ meq 3 (matmul 3 Q (transpose Q)) eye
    /\ meq 3 (matmul 3 (transpose Q) Q) eye
    /\ linalg_inv 3 Q = Ok Qi /\ meq 3 Qi (transpose Q).
Proof.
  intros Hlen.
  destruct eul as [|e0 [|e1 [|e2 rest]]]; cbn [List.length] in Hlen; try lia.
  destruct (rotator_zxz_three e0 e1 e2 rest) as [Q [EQ [HQ EQ3]]].
  destruct (linalg_inv_of_inverse 3 Q (transpose Q) HQ) as [Qi [EQi HQi]].
  exists Q, Qi. cbn [firstn].
  repeat split; try assumption; apply HQ.
Qed.

(** X1.  [rotator_zxz] returns exactly on the arrays of at least three
    angles; what it returns is a rotation matrix in the sense that its
    transpose is its two-sided inverse, it depends on the first three
    angles only, and [np.linalg.inv] of it, which [get_perm] takes, never
    raises and returns the transpose.  On a shorter array it raises
    [IndexError]. *)
Theorem rotator_zxz_orthogonal (eul : list R) :
  ((3 <= List.length eul)%nat ->
   exists Q Qi,
     rotator_zxz eul = Ok Q
     /\ rotator_zxz (firstn 3 eul) = Ok Q
     /\ meq 3 (matmul 3 Q (transpose Q)) eye
     /\ meq 3 (matmul 3 (transpose Q) Q) eye
     /\ linalg_inv 3 Q = Ok Qi /\ meq 3 Qi (transpose Q))
  /\ ((List.length eul < 3)%nat -> rotator_zxz eul = Raise IndexError).
Proof.
  split; [apply rotator_zxz_long | apply rotator_zxz_short].
Qed.

(** The statement on the angles (0.3, 1.2, -2.0, 7.5). *)
Lemma rotator_zxz_orthogonal_witness :
  exists Q Qi,
    rotator_zxz [0.3; 1.2; -2.0; 7.5] = Ok Q
    /\ rotator_zxz (firstn 3 [0.3; 1.2; -2.0; 7.5]) = Ok Q
    /\ meq 3 (matmul 3 Q (transpose Q)) eye
    /\ meq 3 (matmul 3 (transpose Q) Q) eye
    /\ linalg_inv 3 Q = Ok Qi /\ meq 3 Qi (transpose Q).
Proof.
  apply (proj1 (rotator_zxz_orthogonal [0.3; 1.2; -2.0; 7.5])).
  cbn [List.length]. lia.
Defined.

(* ================================================================== *)
(** * The Bond matrix *)
(* ================================================================== *)

(** [bond] reads the 3-by-3 entries of its argument only. *)
Lemma bond_meq (A B : ndarray) : meq 3 A B -> meq 6 (bond A) (bond B).
Proof.
  intros H.
  assert (H00 : A@[0,0] = B@[0,0]) by (apply H; lia).
  assert (H01 : A@[0,1] = B@[0,1]) by (apply H; lia).
  assert (H02 : A@[0,2] = B@[0,2]) by (apply H; lia).
  assert (H10 : A@[1,0] = B@[1,0]) by (apply H; lia).
  assert (H11 : A@[1,1] = B@[1,1]) by (apply H; lia).
  assert (H12 : A@[1,2] = B@[1,2]) by (apply H; lia).
  assert (H20 : A@[2,0] = B@[2,0]) by (apply H; lia).
  assert (H21 : A@[2,1] = B@[2,1]) by (apply H; lia).
  assert (H22 : A@[2,2] = B@[2,2]) by (apply H; lia).
  intros i j Hi Hj. unfold bond, set_row.
  rewrite H00, H01, H02, H10, H11, H12, H20, H21, H22. reflexivity.
Qed.

(** The Bond matrix of a product, entry by entry. *)
Lemma bond_product (A B : ndarray) :
  meq 6 (bond (matmul 3 A B)) (matmul 6 (bond A) (bond B)).
Proof.
  intros i j Hi Hj. enum_indices;
    unfold bond, set_row, matmul, zeros;
    cbn [sum_upto nth Nat.eqb]; ring.
Qed.

(** X2.  [bond] turns products into products and the identity into the
    identity: the Bond matrix of a product of 3-by-3 arrays is the product
    of their Bond matrices, and the Bond matrix of the 3-by-3 identity is
    the 6-by-6 identity. *)
Theorem bond_matmul (A B : ndarray) :
  meq 6 (bond (matmul 3 A B)) (matmul 6 (bond A) (bond B))
  /\ meq 6 (bond eye) eye.
Proof.
  split; [apply bond_product | apply bond_eye, meq_refl].
Qed.

(** The Bond matrix of a rotation has the Bond matrix of the transposed
    rotation as its inverse. *)
Lemma bond_orthogonal_inverse (Q : ndarray) :
  orthogonal Q -> is_inverse 6 (bond Q) (bond (transpose Q)).
Proof.
  intros [H1 H2]. split.
  - apply meq_trans with (bond (matmul 3 Q (transpose Q))).
    + apply meq_sym, bond_product.
    + apply bond_eye. exact H1.
  - apply meq_trans with (bond (matmul 3 (transpose Q) Q)).
    + apply meq_sym, bond_product.
    + apply bond_eye. exact H2.
Qed.

Lemma bond_rotation_inverse (eul : list R) :
  (3 <= List.length eul)%nat ->
  exists Q N,
    rotator_zxz eul = Ok Q
    /\ linalg_inv 6 (bond Q) = Ok N
    /\ meq 6 N (bond (transpose Q))
    /\ meq 6 (matmul 6 (bond Q) N) eye.
Proof.
  intros Hlen.
  destruct eul as [|e0 [|e1 [|e2 rest]]]; cbn [List.length] in Hlen; try lia.
  destruct (rotator_zxz_three e0 e1 e2 rest) as [Q [EQ [HQ _]]].
  pose proof (bond_orthogonal_inverse Q HQ) as Hinv.
  destruct (linalg_inv_of_inverse 6 (bond Q) _ Hinv) as [N [EN HN]].
  exists Q, N. repeat split; try assumption.
  apply (linalg_inv_Ok 6 (bond Q) N EN).
Qed.

(** X3.  For every array of at least three Euler angles the Bond matrix of
    the rotation is invertible: [np.linalg.inv(M)], which the loop of
    [get_seismic] takes, returns, and what it returns is the Bond matrix
    of the transposed rotation. *)
Theorem bond_of_rotation_invertible (eul : list R) :
  (3 <= List.length eul)%nat ->
  exists Q N,
    rotator_zxz eul = Ok Q
    /\ linalg_inv 6 (bond Q) = Ok N
    /\ meq 6 N (bond (transpose Q))
    /\ meq 6 (matmul 6 (bond Q) N) eye.
Proof.
  exact (bond_rotation_inverse eul).
Qed.

Lemma bond_of_rotation_invertible_witness :
  exists Q N,
    rotator_zxz [0.3; 1.2; -2.0] = Ok Q
    /\ linalg_inv 6 (bond Q) = Ok N
    /\ meq 6 N (bond (transpose Q))
    /\ meq 6 (matmul 6 (bond Q) N) eye.
Proof.
  apply (bond_of_rotation_invertible [0.3; 1.2; -2.0]).
  cbn [List.length]. lia.
Defined.

(* ================================================================== *)
(** * Homogenization of an isotropic dielectric tensor *)
(* ================================================================== *)

Section ScalarTensors.

Variable n : nat.

Lemma matmul_scale_eye_l (a : R) (B : ndarray) :
  meq n (matmul n (scale eye a) B) (scale B a).
Proof.
  intros i j Hi Hj. unfold matmul, scale.
  rewrite (sum_upto_ext n _ (fun k => eye i k * (a * B k j)))
    by (intros; lra).
  rewrite (sum_upto_delta_l n i (fun k => a * B k j) Hi). lra.
Qed.

Lemma matmul_scale_r (A B : ndarray) (a : R) (i j : nat) :
  matmul n A (scale B a) i j = scale (matmul n A B) a i j.
Proof.
  unfold matmul, scale. rewrite <- sum_upto_scal_r.
  apply sum_upto_ext. intros k _. lra.
Qed.

(** Transforming a multiple of the identity by an array and its inverse
    leaves it as it is. *)
Lemma congruence_scale_eye (Q Qt X : ndarray) (a : R) :
  meq n (matmul n Q Qt) eye -> meq n X (scale eye a) ->
  meq n (matmul n Q (matmul n X Qt)) (scale eye a).
Proof.
  intros HQ HX.
  apply meq_trans with (matmul n Q (scale Qt a)).
  - apply matmul_meq; [apply meq_refl|].
    apply meq_trans with (matmul n (scale eye a) Qt);
      [apply matmul_meq; [exact HX | apply meq_refl]
      | apply matmul_scale_eye_l].
  - intros i j Hi Hj. rewrite matmul_scale_r. unfold scale.
    rewrite HQ by assumption. reflexivity.
Qed.

Lemma add_scale_eye (A B : ndarray) (x y : R) :
  meq n A (scale eye x) -> meq n B (scale eye y) ->
  meq n (add A B) (scale eye (x + y)).
Proof.
  intros HA HB i j Hi Hj. unfold add.
  rewrite HA, HB by assumption. unfold scale. lra.
Qed.

Lemma divs_scale_eye (A : ndarray) (p a : R) :
  p <> 0 -> meq n A (scale eye (p * a)) -> meq n (divs A p) (scale eye a).
Proof.
  intros Hp HA i j Hi Hj. unfold divs. rewrite HA by assumption.
  unfold scale. field. exact Hp.
Qed.

(** [np.linalg.inv] of a non-zero multiple of the identity. *)
Lemma linalg_inv_scale_eye (A : ndarray) (a : R) :
  a <> 0 -> meq n A (scale eye a) ->
  exists S, linalg_inv n A = Ok S /\ meq n S (scale eye (/ a)).
Proof.
  intros Ha HA. apply linalg_inv_of_inverse.
  apply is_inverse_meq with (A := scale eye a) (B := scale eye (/ a));
    [apply meq_sym; exact HA | apply meq_refl
    | apply scale_eye_inverse; exact Ha].
Qed.

End ScalarTensors.

Lemma well_formed_cons (eul : list R) (rest : list (list R)) :
  well_formed (eul :: rest) ->
  (3 <= List.length eul)%nat /\ well_formed rest.
Proof. intros H. inversion H; subst. split; assumption. Qed.

(** The loop of [get_perm] on multiples of the identity. *)
Lemma perm_accumulate_isotropic (P Cd Sp Sc : ndarray) (a b sa sb : R) :
  meq 3 P (scale eye a) -> meq 3 Cd (scale eye b) ->
  meq 3 Sp (scale eye sa) -> meq 3 Sc (scale eye sb) ->
  forall (rows : list (list R)) (acc : perm_sums) (k : R),
    well_formed rows ->
    meq 3 (pvoigt acc) (scale eye (k * a)) ->
    meq 3 (cvoigt acc) (scale eye (k * b)) ->
    meq 3 (preuss acc) (scale eye (k * sa)) ->
    meq 3 (creuss acc) (scale eye (k * sb)) ->
    exists acc',
      perm_accumulate P Cd Sp Sc rows acc = Ok acc'
      /\ meq 3 (pvoigt acc') (scale eye ((k + INR (List.length rows)) * a))
      /\ meq 3 (cvoigt acc') (scale eye ((k + INR (List.length rows)) * b))
      /\ meq 3 (preuss acc') (scale eye ((k + INR (List.length rows)) * sa))
      /\ meq 3 (creuss acc') (scale eye ((k + INR (List.length rows)) * sb)).
Proof.
  intros HP HCd HSp HSc.
  induction rows as [|eul rest IH]; intros acc k Hwf H1 H2 H3 H4.
  - exists acc. cbn [perm_accumulate List.length INR].
    rewrite Rplus_0_r. repeat split; assumption.
  - apply well_formed_cons in Hwf as [Hlen Hrest].
    destruct (rotator_zxz_long eul Hlen)
      as [Q [Qi [EQ [_ [HQ1 [HQ2 [EQi HQi]]]]]]].
    cbn [perm_accumulate]. rewrite EQ. cbn [bind]. rewrite EQi. cbn [bind].
    assert (HQi1 : meq 3 (matmul 3 Qi (transpose Qi)) eye).
    { apply meq_trans with (matmul 3 (transpose Q) Q); [|exact HQ2].
      apply matmul_meq; [exact HQi|].
      intros i j Hi Hj. unfold transpose. apply HQi; assumption. }
    set (acc1 := mk_perm_sums _ _ _ _).
    destruct (IH acc1 (k + 1)) as [acc' [E [G1 [G2 [G3 G4]]]]].
    + exact Hrest.
    + unfold acc1. cbn [pvoigt].
      replace ((k + 1) * a) with (k * a + a) by ring.
      apply add_scale_eye; [exact H1|].
      apply congruence_scale_eye; assumption.
    + unfold acc1. cbn [cvoigt].
      replace ((k + 1) * b) with (k * b + b) by ring.
      apply add_scale_eye; [exact H2|].
      apply congruence_scale_eye; assumption.
    + unfold acc1. cbn [preuss].
      replace ((k + 1) * sa) with (k * sa + sa) by ring.
      apply add_scale_eye; [exact H3|].
      apply congruence_scale_eye; assumption.
    + unfold acc1. cbn [creuss].
      replace ((k + 1) * sb) with (k * sb + sb) by ring.
      apply add_scale_eye; [exact H4|].
      apply congruence_scale_eye; assumption.
    + exists acc'. split; [exact E|].
      change (List.length (eul :: rest)) with (S (List.length rest)).
      rewrite S_INR.
      replace (k + (INR (List.length rest) + 1))
        with (k + 1 + INR (List.length rest)) by ring.
      repeat split; assumption.
Qed.

(** X4.  In [get_perm], homogenizing an isotropic permittivity [a I] and an
    isotropic conductivity [b I] ([a], [b] non-zero) over any non-empty
    ensemble whose rows hold at least three angles returns, and the Voigt,
    Reuss and Hill averages of both are the tensors themselves. *)
Theorem perm_hill_isotropic
    (P Cd : ndarray) (a b : R) (euler : list (list R)) :
  a <> 0 -> b <> 0 ->
  meq 3 P (scale eye a) -> meq 3 Cd (scale eye b) ->
  euler <> [] -> well_formed euler ->
  exists pV pR pH cV cR cH,
    perm_hill P Cd euler = Ok ((pV, pR, pH), (cV, cR, cH))
    /\ (meq 3 pV P /\ meq 3 pR P /\ meq 3 pH P)
    /\ (meq 3 cV Cd /\ meq 3 cR Cd /\ meq 3 cH Cd).
Proof.
  intros Ha Hb HP HCd Hne Hwf.
  destruct euler as [|eul rest]; [contradiction|].
  pose proof (well_formed_cons eul rest Hwf) as [Hlen _].
  destruct eul as [|e0 eul']; [cbn [List.length] in Hlen; lia|].
  set (euler := (e0 :: eul') :: rest) in *.
  set (p := INR (List.length euler)).
  assert (Hp : p <> 0).
  { unfold p, euler. cbn [List.length]. apply not_0_INR. discriminate. }
  destruct (linalg_inv_scale_eye 3 P a Ha HP) as [Sp [ESp HSp]].
  destruct (linalg_inv_scale_eye 3 Cd b Hb HCd) as [Sc [ESc HSc]].
  assert (H0 : forall x : R, meq 3 zeros (scale eye (0 * x))).
  { intros x i j _ _. unfold zeros, scale. lra. }
  destruct (perm_accumulate_isotropic P Cd Sp Sc a b (/ a) (/ b)
              HP HCd HSp HSc euler (mk_perm_sums zeros zeros zeros zeros) 0
              Hwf (H0 a) (H0 b) (H0 (/ a)) (H0 (/ b)))
    as [acc [Eacc [G1 [G2 [G3 G4]]]]].
  rewrite Rplus_0_l in G1, G2, G3, G4. fold p in G1, G2, G3, G4.
  pose proof (divs_scale_eye 3 _ p a Hp G1) as HpV.
  pose proof (divs_scale_eye 3 _ p b Hp G2) as HcV.
  pose proof (divs_scale_eye 3 _ p (/ a) Hp G3) as Hpr.
  pose proof (divs_scale_eye 3 _ p (/ b) Hp G4) as Hcr.
  destruct (linalg_inv_scale_eye 3 _ (/ a) (Rinv_neq_0_compat a Ha) Hpr)
    as [pR [EpR HpR]].
  destruct (linalg_inv_scale_eye 3 _ (/ b) (Rinv_neq_0_compat b Hb) Hcr)
    as [cR [EcR HcR]].
  rewrite Rinv_inv in HpR, HcR.
  assert (HpV' : meq 3 (divs (pvoigt acc) p) P)
    by (apply meq_trans with (scale eye a); [exact HpV | apply meq_sym, HP]).
  assert (HcV' : meq 3 (divs (cvoigt acc) p) Cd)
    by (apply meq_trans with (scale eye b); [exact HcV | apply meq_sym, HCd]).
  assert (HpR' : meq 3 pR P)
    by (apply meq_trans with (scale eye a); [exact HpR | apply meq_sym, HP]).
  assert (HcR' : meq 3 cR Cd)
    by (apply meq_trans with (scale eye b); [exact HcR | apply meq_sym, HCd]).
  exists (divs (pvoigt acc) p), pR,
         (divs (add (divs (pvoigt acc) p) pR) 2),
         (divs (cvoigt acc) p), cR,
         (divs (add (divs (cvoigt acc) p) cR) 2).
  split.
  - unfold perm_hill. unfold euler at 1.
    cbn [len_column0 hd bind]. fold euler.
    rewrite ESp. cbn [bind]. rewrite ESc. cbn [bind].
    rewrite Eacc. cbn [bind]. fold p.
    rewrite EpR. cbn [bind]. rewrite EcR. reflexivity.
  - split; (split; [assumption|]); (split; [assumption|]);
      apply hill_of_equal; assumption.
Qed.

Lemma perm_hill_isotropic_witness :
  exists pV pR pH cV cR cH,
    perm_hill (scale eye 3.15) (scale eye 1e-5)
              [[0.3; 1.2; -2.0]; [1; 2; 3; 4]]
    = Ok ((pV, pR, pH), (cV, cR, cH))
    /\ (meq 3 pV (scale eye 3.15) /\ meq 3 pR (scale eye 3.15)
        /\ meq 3 pH (scale eye 3.15))
    /\ (meq 3 cV (scale eye 1e-5) /\ meq 3 cR (scale eye 1e-5)
        /\ meq 3 cH (scale eye 1e-5)).
Proof.
  apply (perm_hill_isotropic (scale eye 3.15) (scale eye 1e-5) 3.15 1e-5).
  - lra.
  - lra.
  - apply meq_refl.
  - apply meq_refl.
  - discriminate.
  - repeat constructor; cbn [List.length]; lia.
Defined.

(* ================================================================== *)
(** * Voigt transformation of isotropic and hexagonal stiffness *)
(* ================================================================== *)

(** The entries of [M C M^T] for the Bond matrix [M] of any 3-by-3 array
    and an isotropic [C], in terms of the products of the rows. *)
Lemma bond_congruence_isotropic (Q : ndarray) (lam mu : R) (I J : nat) :
  (I < 6)%nat -> (J < 6)%nat ->
  matmul 6 (bond Q)
         (matmul 6 (assign_isotropic lam mu) (transpose (bond Q))) I J
  = lam * row_dot Q (fst (voigt_pair I)) (snd (voigt_pair I))
        * row_dot Q (fst (voigt_pair J)) (snd (voigt_pair J))
    + mu * (row_dot Q (fst (voigt_pair I)) (fst (voigt_pair J))
            * row_dot Q (snd (voigt_pair I)) (snd (voigt_pair J))
            + row_dot Q (fst (voigt_pair I)) (snd (voigt_pair J))
              * row_dot Q (snd (voigt_pair I)) (fst (voigt_pair J))).
Proof.
  intros HI HJ. enum_index I HI; enum_index J HJ;
    unfold matmul, transpose, bond, set_row, assign_isotropic, set,
      fill_diagonal, diagonal, set_block, zeros, row_dot, voigt_pair;
    cbn [sum_upto nth Nat.eqb Nat.ltb Nat.leb andb fst snd]; ring.
Qed.

Lemma row_dot_orthogonal (Q : ndarray) (a b : nat) :
  orthogonal Q -> (a < 3)%nat -> (b < 3)%nat -> row_dot Q a b = eye a b.
Proof.
  intros [H _] Ha Hb. rewrite <- (H a b Ha Hb).
  unfold row_dot, matmul, transpose. cbn [sum_upto]. ring.
Qed.

(** X5.  For every array of at least three Euler angles, the Bond matrix
    [M] of its rotation leaves every isotropic stiffness tensor of
    [isotropic_stiffness_tensor] as it is: [M C M^T = C], the term the loop
    of [get_seismic] adds to the Voigt sum. *)
Theorem bond_preserves_isotropic
    (eul : list R) (pressure density : R) (material_limits : limits) :
  (3 <= List.length eul)%nat ->
  exists Q,
    rotator_zxz eul = Ok Q
    /\ meq 6 (matmul 6 (bond Q)
                (matmul 6 (isotropic_stiffness_tensor pressure density
                                                      material_limits)
                        (transpose (bond Q))))
             (isotropic_stiffness_tensor pressure density material_limits).
Proof.
  intros Hlen.
  destruct (rotator_zxz_long eul Hlen)
    as [Q [Qi [EQ [_ [H1 [H2 _]]]]]].
  assert (HQ : orthogonal Q) by (split; assumption).
  exists Q. split; [exact EQ|].
  unfold isotropic_stiffness_tensor.
  set (lam := lame_lam pressure density material_limits).
  set (mu := lame_mu pressure density material_limits).
  intros I J HI HJ.
  rewrite (bond_congruence_isotropic Q lam mu I J HI HJ).
  enum_index I HI; enum_index J HJ; cbn [voigt_pair fst snd];
    rewrite !(row_dot_orthogonal Q _ _ HQ) by lia;
    unfold eye, assign_isotropic, set, fill_diagonal, diagonal, set_block,
      zeros;
    cbn [Nat.eqb Nat.ltb Nat.leb andb]; ring.
Qed.

Lemma bond_preserves_isotropic_witness :
  exists Q,
    rotator_zxz [0.3; 1.2; -2.0] = Ok Q
    /\ meq 6 (matmul 6 (bond Q)
                (matmul 6 (isotropic_stiffness_tensor 0.1 2700
                             (mk_limits 4500 6000 2500 3300 4.8 18.9
                                        4.0e-5 2.5e-4))
                        (transpose (bond Q))))
             (isotropic_stiffness_tensor 0.1 2700
                (mk_limits 4500 6000 2500 3300 4.8 18.9 4.0e-5 2.5e-4)).
Proof.
  apply (bond_preserves_isotropic [0.3; 1.2; -2.0]).
  cbn [List.length]. lia.
Defined.

(* ================================================================== *)
(** * Homogenization of one crystal *)
(* ================================================================== *)

Lemma transpose_meq (n : nat) (A B : ndarray) :
  meq n A B -> meq n (transpose A) (transpose B).
Proof. intros H i j Hi Hj. unfold transpose. apply H; assumption. Qed.

(** The inverse of the compliance term [N S N^T] of the loop of
    [get_seismic]. *)
Lemma reuss_term_inverse (n : nat) (C S M N : ndarray) :
  is_inverse n C S -> is_inverse n M N ->
  is_inverse n (matmul n N (matmul n S (transpose N)))
             (matmul n (transpose M) (matmul n C M)).
Proof.
  intros HC HM.
  assert (HNM : is_inverse n N M) by (apply is_inverse_sym; exact HM).
  assert (HNt : is_inverse n (transpose N) (transpose M))
    by (apply is_inverse_transpose; exact HNM).
  assert (HSC : is_inverse n S C) by (apply is_inverse_sym; exact HC).
  pose proof (is_inverse_matmul n S C (transpose N) (transpose M) HSC HNt)
    as H1.
  pose proof (is_inverse_matmul n N M _ _ HNM H1) as H2.
  apply is_inverse_meq
    with (A := matmul n N (matmul n S (transpose N)))
         (B := matmul n (matmul n (transpose M) C) M).
  - apply meq_refl.
  - intros i j _ _. apply matmul_assoc.
  - exact H2.
Qed.

Lemma seismic_hill_one_crystal (C S : ndarray) (eul : list R) :
  is_inverse 6 C S -> (3 <= List.length eul)%nat ->
  exists Q V Re H,
    rotator_zxz eul = Ok Q
    /\ seismic_hill C [eul] = Ok (V, Re, H)
    /\ meq 6 V (matmul 6 (bond Q) (matmul 6 C (transpose (bond Q))))
    /\ meq 6 Re (matmul 6 (transpose (bond Q)) (matmul 6 C (bond Q)))
    /\ meq 6 H (divs (add V Re) 2).
Proof.
  intros HCS Hlen.
  destruct (bond_rotation_inverse eul Hlen)
    as [Q [N [EQ [EN [_ HMN]]]]].
  pose proof (linalg_inv_Ok 6 (bond Q) N EN) as HN.
  destruct (linalg_inv_of_inverse 6 C S HCS) as [S' [ES HS']].
  pose proof (linalg_inv_Ok 6 C S' ES) as HCS'.
  set (M := bond Q) in *.
  set (cv := divs (add zeros (matmul 6 M (matmul 6 C (transpose M))))
                  (INR 1)).
  set (cr := divs (add zeros (matmul 6 N (matmul 6 S' (transpose N))))
                  (INR 1)).
  assert (Hcr : meq 6 cr (matmul 6 N (matmul 6 S' (transpose N))))
    by (apply mean_of_one, meq_refl).
  assert (Hinv : is_inverse 6 cr
                   (matmul 6 (transpose M) (matmul 6 C M))).
  { apply is_inverse_meq
      with (A := matmul 6 N (matmul 6 S' (transpose N)))
           (B := matmul 6 (transpose M) (matmul 6 C M));
      [apply meq_sym; exact Hcr | apply meq_refl
      | apply reuss_term_inverse; assumption]. }
  destruct (linalg_inv_of_inverse 6 cr _ Hinv) as [Re [ERe HRe]].
  exists Q, cv, Re, (divs (add cv Re) 2).
  split; [exact EQ|]. split.
  - unfold seismic_hill.
    assert (Elen : len_column0 [eul] = Ok 1%nat).
    { destruct eul; [cbn [List.length] in Hlen; lia | reflexivity]. }
    rewrite Elen. cbn [bind]. rewrite ES. cbn [bind seismic_accumulate].
    rewrite EQ. cbn [bind]. fold M. rewrite EN. cbn [bind].
    fold cv. fold cr. rewrite ERe. reflexivity.
  - split; [apply mean_of_one, meq_refl|].
    split; [exact HRe | apply meq_refl].
Qed.

(** X6.  For an ensemble of one crystal (one row of at least three angles)
    and a single-crystal stiffness [C] that has an inverse, the block of
    [get_seismic] returns; with [M] the Bond matrix of the rotation, the
    Voigt average is [M C M^T], the Reuss average is [M^T C M], and the
    Hill average is half their sum. *)
Theorem seismic_hill_single_crystal (C S : ndarray) (eul : list R) :
  is_inverse 6 C S -> (3 <= List.length eul)%nat ->
  exists Q V Re H,
    rotator_zxz eul = Ok Q
    /\ seismic_hill C [eul] = Ok (V, Re, H)
    /\ meq 6 V (matmul 6 (bond Q) (matmul 6 C (transpose (bond Q))))
    /\ meq 6 Re (matmul 6 (transpose (bond Q)) (matmul 6 C (bond Q)))
    /\ meq 6 H (divs (add V Re) 2).
Proof.
  exact (seismic_hill_one_crystal C S eul).
Qed.

Lemma seismic_hill_single_crystal_witness :
  exists Q V Re H,
    rotator_zxz [0.3; 1.2; -2.0] = Ok Q
    /\ seismic_hill (scale eye 2) [[0.3; 1.2; -2.0]] = Ok (V, Re, H)
    /\ meq 6 V (matmul 6 (bond Q)
                  (matmul 6 (scale eye 2) (transpose (bond Q))))
    /\ meq 6 Re (matmul 6 (transpose (bond Q))
                   (matmul 6 (scale eye 2) (bond Q)))
    /\ meq 6 H (divs (add V Re) 2).
Proof.
  apply (seismic_hill_single_crystal (scale eye 2) (scale eye (/ 2))).
  - apply scale_eye_inverse. lra.
  - cbn [List.length]. lia.
Defined.

(* ================================================================== *)
(** * Crystals rotated about their third axis *)
(* ================================================================== *)

(** With the second Euler angle 0 the rotation is the one about the third
    axis by the sum of the other two angles. *)
Lemma rotator_zxz_vertical (phi1 phi2 : R) (rest : list R) :
  exists Q,
    rotator_zxz (phi1 :: 0 :: phi2 :: rest) = Ok Q
    /\ meq 3 Q (rotation_z (cos (phi1 + phi2)) (sin (phi1 + phi2))).
Proof.
  eexists. split; [reflexivity|].
  rewrite cos_plus, sin_plus.
  intros i j Hi Hj. enum_indices;
    unfold matmul, rotation_z, set_row, zeros;
    cbn [sum_upto nth Nat.eqb];
    rewrite ?cos_0, ?sin_0; lra.
Qed.

(** The Bond matrix of a rotation about the third axis leaves a hexagonal
    stiffness, with c66 = (c11 - c12)/2, as it is. *)
Lemma bond_z_preserves_hexagonal (c s a b cc d e f : R) :
  c * c + s * s = 1 -> 2 * f = a - b ->
  meq 6 (matmul 6 (bond (rotation_z c s))
           (matmul 6 (hexagonal a b cc d e f)
                   (transpose (bond (rotation_z c s)))))
        (hexagonal a b cc d e f).
Proof.
  intros H Hf I J HI HJ. enum_index I HI; enum_index J HJ;
    unfold matmul, transpose, bond, rotation_z, set_row, hexagonal, zeros;
    cbn [sum_upto nth Nat.eqb pow]; nsatz.
Qed.

(** The entry [0,0] of [M^T C M] for the same rotation and tensor. *)
Lemma bond_z_transposed_entry (c s a b cc d e f : R) :
  c * c + s * s = 1 -> 2 * f = a - b ->
  matmul 6 (transpose (bond (rotation_z c s)))
         (matmul 6 (hexagonal a b cc d e f) (bond (rotation_z c s)))
         0%nat 0%nat
  = a - 3 * f * (s * c)^2.
Proof.
  intros H Hf.
  unfold matmul, transpose, bond, rotation_z, set_row, hexagonal, zeros;
    cbn [sum_upto nth Nat.eqb pow]; nsatz.
Qed.

Lemma sin_cos_unit (x : R) : cos x * cos x + sin x * sin x = 1.
Proof. pose proof (sin2_cos2 x) as H. unfold Rsqr in H. lra. Qed.

(** The congruence [M C M^T] respects equality of the entries. *)
Lemma congruence_meq (n : nat) (M M' C C' : ndarray) :
  meq n M M' -> meq n C C' ->
  meq n (matmul n M (matmul n C (transpose M)))
        (matmul n M' (matmul n C' (transpose M'))).
Proof.
  intros HM HC. apply matmul_meq; [exact HM|].
  apply matmul_meq; [exact HC | apply transpose_meq; exact HM].
Qed.

(** [M C M^T = C] for the ice stiffness and a crystal rotated about its
    third axis. *)
Lemma bond_vertical_preserves_ice
    (temperature pressure phi1 phi2 : R) (rest : list R) (Q : ndarray) :
  rotator_zxz (phi1 :: 0 :: phi2 :: rest) = Ok Q ->
  meq 6 (matmul 6 (bond Q)
           (matmul 6 (ice_stiffness temperature pressure)
                   (transpose (bond Q))))
        (ice_stiffness temperature pressure).
Proof.
  intros EQ.
  destruct (rotator_zxz_vertical phi1 phi2 rest) as [Q' [EQ' HQ]].
  rewrite EQ in EQ'. injection EQ' as <-.
  pose proof (ice_stiffness_is_hexagonal temperature pressure) as Hhex.
  eapply meq_trans; [|apply meq_sym; exact Hhex].
  eapply meq_trans;
    [apply congruence_meq; [apply bond_meq; exact HQ | exact Hhex]|].
  apply bond_z_preserves_hexagonal; [apply sin_cos_unit | lra].
Qed.

(** The Voigt sum of the loop of [get_seismic] when every term is the
    tensor itself. *)
Lemma seismic_accumulate_voigt_fixed (C Si : ndarray) (rows : list (list R)) :
  (forall eul Q, In eul rows -> rotator_zxz eul = Ok Q ->
                 meq 6 (matmul 6 (bond Q) (matmul 6 C (transpose (bond Q))))
                       C) ->
  forall (cv cr cv' cr' : ndarray) (k : R),
    meq 6 cv (scale C k) ->
    seismic_accumulate C Si rows cv cr = Ok (cv', cr') ->
    meq 6 cv' (scale C (k + INR (List.length rows))).
Proof.
  induction rows as [|eul rest IH]; intros Hfix cv cr cv' cr' k Hcv.
  - cbn [seismic_accumulate List.length INR]. intros E.
    injection E as <- _. rewrite Rplus_0_r. exact Hcv.
  - cbn [seismic_accumulate].
    destruct (rotator_zxz eul) as [Q|e] eqn:EQ; cbn [bind]; [|discriminate].
    destruct (linalg_inv 6 (bond Q)) as [N|e]; cbn [bind]; [|discriminate].
    intros E.
    change (List.length (eul :: rest)) with (S (List.length rest)).
    rewrite S_INR.
    replace (k + (INR (List.length rest) + 1))
      with (k + 1 + INR (List.length rest)) by ring.
    refine (IH (fun eul' Q' Hin => Hfix eul' Q' (or_intror Hin))
               _ _ _ _ (k + 1) _ E).
    intros i j Hi Hj. unfold add, scale.
    rewrite (Hcv i j Hi Hj).
    rewrite (Hfix eul Q (or_introl eq_refl) EQ i j Hi Hj).
    unfold scale. ring.
Qed.

Lemma seismic_hill_voigt_fixed (C : ndarray) (euler : list (list R))
    (V Re H : ndarray) :
  (forall eul Q, In eul euler -> rotator_zxz eul = Ok Q ->
                 meq 6 (matmul 6 (bond Q) (matmul 6 C (transpose (bond Q))))
                       C) ->
  seismic_hill C euler = Ok (V, Re, H) ->
  meq 6 V C.
Proof.
  intros Hfix. unfold seismic_hill.
  destruct (len_column0 euler) as [p|e] eqn:Ep; cbn [bind]; [|discriminate].
  destruct (linalg_inv 6 C) as [S|e]; cbn [bind]; [|discriminate].
  destruct (seismic_accumulate C S euler zeros zeros) as [[cv cr]|e] eqn:Eacc;
    cbn [bind]; [|discriminate].
  destruct (linalg_inv 6 (divs cr (INR p))) as [Re'|e];
    cbn [bind]; [|discriminate].
  intros E. injection E as <- _ _.
  assert (Hp : p = List.length euler /\ p <> 0%nat).
  { unfold len_column0 in Ep. destruct euler as [|[|e0 r] rest];
      cbn [hd] in Ep; try discriminate.
    injection Ep as <-. split; [reflexivity | discriminate]. }
  destruct Hp as [-> Hp].
  assert (H0 : meq 6 zeros (scale C 0))
    by (intros i j _ _; unfold zeros, scale; lra).
  pose proof (seismic_accumulate_voigt_fixed C S euler Hfix _ _ _ _ 0 H0 Eacc)
    as Hcv.
  rewrite Rplus_0_l in Hcv.
  intros i j Hi Hj. unfold divs. rewrite (Hcv i j Hi Hj). unfold scale.
  field. apply not_0_INR. exact Hp.
Qed.

(** X7.  When every crystal of the ensemble keeps its third axis (second
    Euler angle 0) and the block of [get_seismic] returns, the Voigt
    average of the ice stiffness is the ice stiffness itself, for every
    temperature and pressure and whatever the other two angles are. *)
Theorem seismic_hill_vertical_voigt
    (temperature pressure : R) (euler : list (list R)) (V Re H : ndarray) :
  vertical_axes euler ->
  seismic_hill (ice_stiffness temperature pressure) euler = Ok (V, Re, H) ->
  meq 6 V (ice_stiffness temperature pressure).
Proof.
  intros Hvert. apply seismic_hill_voigt_fixed.
  intros eul Q Hin EQ.
  unfold vertical_axes in Hvert. rewrite Forall_forall in Hvert.
  destruct (Hvert eul Hin) as [phi1 [phi2 [rest ->]]].
  exact (bond_vertical_preserves_ice _ _ phi1 phi2 rest Q EQ).
Qed.

(** The statement on one crystal with angles (0.3, 0, 1.1) of ice at 0 C
    and 0.01 kbar, for which the block returns. *)
Lemma seismic_hill_vertical_voigt_witness :
  exists V Re H,
    seismic_hill (ice_stiffness 0 (0.1 * 1e-1)) [[0.3; 0; 1.1]]
    = Ok (V, Re, H)
    /\ meq 6 V (ice_stiffness 0 (0.1 * 1e-1)).
Proof.
  destruct ice_stiffness_at_0C_invertible as [S HS].
  destruct (seismic_hill_one_crystal _ S [0.3; 0; 1.1] HS)
    as [Q [V [Re [H [_ [E _]]]]]]; [cbn [List.length]; lia|].
  exists V, Re, H. split; [exact E|].
  apply (seismic_hill_vertical_voigt 0 (0.1 * 1e-1) [[0.3; 0; 1.1]] V Re H);
    [|exact E].
  constructor; [|constructor]. exists 0.3, 1.1, []. reflexivity.
Defined.

(** X8.  For one crystal of ice rotated about its third axis by [theta]
    (Euler angles (theta, 0, 0)), at a temperature and pressure where the
    stiffness [C] has an inverse, the block of [get_seismic] returns; the
    Voigt average is [C] itself, while the entry [0,0] of the Reuss
    average is C[0,0] - 3 C[5,5] (sin theta cos theta)^2, which differs
    from C[0,0] unless C[5,5] = 0 or sin theta cos theta = 0. *)
Theorem seismic_hill_vertical_reuss
    (temperature pressure theta : R) (S : ndarray) :
  is_inverse 6 (ice_stiffness temperature pressure) S ->
  exists V Re H,
    seismic_hill (ice_stiffness temperature pressure) [[theta; 0; 0]]
    = Ok (V, Re, H)
    /\ meq 6 V (ice_stiffness temperature pressure)
    /\ Re@[0,0]
       = (ice_stiffness temperature pressure)@[0,0]
         - 3 * (ice_stiffness temperature pressure)@[5,5]
           * (sin theta * cos theta)^2
    /\ ((ice_stiffness temperature pressure)@[5,5] <> 0 ->
        sin theta * cos theta <> 0 ->
        Re@[0,0] <> (ice_stiffness temperature pressure)@[0,0]).
Proof.
  set (C := ice_stiffness temperature pressure). intros HS.
  destruct (seismic_hill_one_crystal C S [theta; 0; 0] HS)
    as [Q [V [Re [H [EQ [E [HV [HRe _]]]]]]]];
    [cbn [List.length]; lia|].
  exists V, Re, H. split; [exact E|].
  assert (HVC : meq 6 V C).
  { apply (seismic_hill_voigt_fixed C [[theta; 0; 0]] V Re H); [|exact E].
    intros eul Q0 [<-|[]] EQ0.
    exact (bond_vertical_preserves_ice _ _ theta 0 [] Q0 EQ0). }
  split; [exact HVC|].
  destruct (rotator_zxz_vertical theta 0 []) as [Q' [EQ' HQ]].
  rewrite EQ in EQ'. injection EQ' as <-. rewrite Rplus_0_r in HQ.
  pose proof (ice_stiffness_is_hexagonal temperature pressure) as Hhex.
  fold C in Hhex.
  set (a := gammon_c11 temperature pressure * 1e8) in *.
  set (b := gammon_c12 temperature pressure * 1e8) in *.
  set (f := (gammon_c11 temperature pressure
             - gammon_c12 temperature pressure) / 2 * 1e8) in *.
  assert (Hf : 2 * f = a - b) by (unfold f, a, b; lra).
  assert (HM : meq 6 (bond Q) (bond (rotation_z (cos theta) (sin theta))))
    by (apply bond_meq; exact HQ).
  assert (E00 : Re@[0,0] = a - 3 * f * (sin theta * cos theta)^2).
  { rewrite (HRe 0%nat 0%nat) by lia.
    rewrite <- (bond_z_transposed_entry (cos theta) (sin theta) a b
                  (gammon_c13 temperature pressure * 1e8)
                  (gammon_c33 temperature pressure * 1e8)
                  (gammon_c44 temperature pressure * 1e8)
                  f (sin_cos_unit theta) Hf).
    apply matmul_meq; try lia.
    - apply transpose_meq. exact HM.
    - apply matmul_meq; [exact Hhex | exact HM]. }
  assert (Ca : C@[0,0] = a) by (rewrite (Hhex 0%nat 0%nat) by lia; reflexivity).
  assert (Cf : C@[5,5] = f) by (rewrite (Hhex 5%nat 5%nat) by lia; reflexivity).
  rewrite Ca, Cf. split; [exact E00|].
  intros Hf0 Hsc. rewrite E00.
  assert (Hsq : 0 < (sin theta * cos theta)^2).
  { assert (Hx := Rsqr_pos_lt _ Hsc). unfold Rsqr in Hx. simpl. lra. }
  intros Heq.
  assert (H0 : f * (sin theta * cos theta)^2 = 0) by lra.
  apply Rmult_integral in H0. destruct H0 as [H0|H0]; [exact (Hf0 H0) | lra].
Qed.

(** The statement for ice at 0 C and 0.01 kbar and a rotation by 0.5. *)
Lemma seismic_hill_vertical_reuss_witness :
  exists V Re H,
    seismic_hill (ice_stiffness 0 (0.1 * 1e-1)) [[0.5; 0; 0]]
    = Ok (V, Re, H)
    /\ meq 6 V (ice_stiffness 0 (0.1 * 1e-1))
    /\ Re@[0,0]
       = (ice_stiffness 0 (0.1 * 1e-1))@[0,0]
         - 3 * (ice_stiffness 0 (0.1 * 1e-1))@[5,5]
           * (sin 0.5 * cos 0.5)^2
    /\ ((ice_stiffness 0 (0.1 * 1e-1))@[5,5] <> 0 ->
        sin 0.5 * cos 0.5 <> 0 ->
        Re@[0,0] <> (ice_stiffness 0 (0.1 * 1e-1))@[0,0]).
Proof.
  destruct ice_stiffness_at_0C_invertible as [S HS].
  exact (seismic_hill_vertical_reuss 0 (0.1 * 1e-1) 0.5 S HS).
Defined.

(* ================================================================== *)
(** * The stability conditions on isotropic tensors *)
(* ================================================================== *)

(** X9.  On the tensor of [isotropic_stiffness_tensor], for a positive
    density and velocities with 0 <= Vs < Vp, the three values of
    [highfreq_stability_conditions] are (2(lam+mu))^4,
    4(lam+mu)(2lam+3mu) and 2(lam^2 - 2mu^2); the first two are positive,
    so the messages of conditions 1 and 2 are printed for every such
    material. *)
Theorem isotropic_stiffness_fails_stability
    (pressure density : R) (material_limits : limits) :
  0 < density ->
  0 <= svelocity pressure material_limits ->
  svelocity pressure material_limits < pvelocity pressure material_limits ->
  let lam := lame_lam pressure density material_limits in
  let mu := lame_mu pressure density material_limits in
  highfreq_stability_conditions
    (isotropic_stiffness_tensor pressure density material_limits)
  = (((2 * (lam + mu))^4, 4 * (lam + mu) * (2 * lam + 3 * mu),
      2 * (lam^2 - 2 * mu^2)),
     stability_message 1 :: stability_message 2
       :: print_if_positive (2 * (lam^2 - 2 * mu^2)) (stability_message 3))
  /\ 0 < (2 * (lam + mu))^4
  /\ 0 < 4 * (lam + mu) * (2 * lam + 3 * mu).
Proof.
  intros Hrho Hs Hsp lam mu.
  assert (Hmu : 0 <= mu).
  { unfold mu, lame_mu. apply Rmult_le_pos; [lra|].
    apply pow_le. exact Hs. }
  assert (Hlm : 0 < lam + mu).
  { unfold lam, lame_lam. fold mu. unfold mu, lame_mu.
    set (vs := svelocity pressure material_limits) in *.
    set (vp := pvelocity pressure material_limits) in *.
    replace (density * vp ^ 2 - 2 * (density * vs ^ 2) + density * vs ^ 2)
      with (density * ((vp - vs) * (vp + vs))) by ring.
    apply Rmult_lt_0_compat; [exact Hrho|].
    apply Rmult_lt_0_compat; lra. }
  assert (H1 : 0 < (2 * (lam + mu))^4).
  { apply pow_lt. lra. }
  assert (H2 : 0 < 4 * (lam + mu) * (2 * lam + 3 * mu)).
  { apply Rmult_lt_0_compat; lra. }
  split; [|split; assumption].
  unfold isotropic_stiffness_tensor. fold lam. fold mu.
  destruct (assign_isotropic_entries lam mu)
    as [[H00 [H11 H22]] [[H01 _] _]].
  unfold highfreq_stability_conditions, stability_values.
  rewrite H00, H11, H22, H01.
  replace (((lam + (lam + 2 * mu)) ^ 2
            - (lam + 2 * mu) * (lam + 2 * mu - (lam + 2 * mu)))
           * ((lam + (lam + 2 * mu)) ^ 2
              + (lam + 2 * mu) * (lam + 2 * mu - (lam + 2 * mu))))
    with ((2 * (lam + mu))^4) by ring.
  replace ((lam + 2 * (lam + 2 * mu)) ^ 2 - (lam + 2 * mu) * (lam + 2 * mu))
    with (4 * (lam + mu) * (2 * lam + 3 * mu)) by ring.
  replace ((lam + (lam + 2 * mu)) ^ 2 - (lam + 2 * mu) * (lam + 2 * mu)
           - (lam + 2 * mu) ^ 2)
    with (2 * (lam^2 - 2 * mu^2)) by ring.
  rewrite (print_if_positive_pos _ _ H1), (print_if_positive_pos _ _ H2).
  reflexivity.
Qed.

(** The statement for granite (2700 kg/m3) at the pressure 0.1 that
    [get_seismic] passes. *)
Lemma isotropic_stiffness_fails_stability_witness :
  let granite := mk_limits 4500 6000 2500 3300 4.8 18.9 4.0e-5 2.5e-4 in
  let lam := lame_lam 0.1 2700 granite in
  let mu := lame_mu 0.1 2700 granite in
  highfreq_stability_conditions (isotropic_stiffness_tensor 0.1 2700 granite)
  = (((2 * (lam + mu))^4, 4 * (lam + mu) * (2 * lam + 3 * mu),
      2 * (lam^2 - 2 * mu^2)),
     stability_message 1 :: stability_message 2
       :: print_if_positive (2 * (lam^2 - 2 * mu^2)) (stability_message 3))
  /\ 0 < (2 * (lam + mu))^4
  /\ 0 < 4 * (lam + mu) * (2 * lam + 3 * mu).
Proof.
  intros granite.
  assert (Hx : 0 < atan 0.1 / PI).
  { apply Rdiv_lt_0_compat; [|exact PI_RGT_0].
    rewrite <- atan_0. apply atan_increasing. lra. }
  apply (isotropic_stiffness_fails_stability 0.1 2700 granite).
  - lra.
  - unfold svelocity, granite. cbn [Vs_max Vs_min].
    replace (2 * (3300 - 2500) / PI * atan 0.1 + 2500)
      with (1600 * (atan 0.1 / PI) + 2500) by (field; apply PI_neq0).
    lra.
  - unfold svelocity, pvelocity, granite. cbn [Vs_max Vs_min Vp_max Vp_min].
    replace (2 * (3300 - 2500) / PI * atan 0.1 + 2500)
      with (1600 * (atan 0.1 / PI) + 2500) by (field; apply PI_neq0).
    replace (2 * (6000 - 4500) / PI * atan 0.1 + 4500)
      with (3000 * (atan 0.1 / PI) + 4500) by (field; apply PI_neq0).
    lra.
Defined.

(* ================================================================== *)
(** * The orientation file with missing values *)
(* ================================================================== *)



(** X11.  On a table of more than three rows whose first three columns hold
    no NaN, [read_ang] returns those three columns, whatever the other
    columns hold. *)
Theorem read_ang_table_first_columns
    (angles : list (list R)) (others : list (list cell)) :
  (3 < List.length angles)%nat ->
  rectangular 3 angles ->
  List.length others = List.length angles ->
  read_ang_table
    (map (fun p => map Some (fst p) ++ snd p) (combine angles others))
  = Ok angles.
Proof.
  intros H3 Hrect Hlen.
  set (euler := map (fun p => map Some (fst p) ++ snd p)
                    (combine angles others)).
  assert (Hm : List.length euler = List.length angles).
  { unfold euler. rewrite length_map, length_combine. lia. }
  assert (Hcut : map (firstn 3) euler = map (map Some) angles).
  { unfold euler. clear euler Hm H3.
    revert others Hlen.
    induction angles as [|a rest IH]; intros [|o others] Hlen;
      cbn [List.length] in Hlen; try discriminate; [reflexivity|].
    cbn [combine map fst snd]. f_equal.
    - assert (Ha : List.length a = 3%nat) by (apply Hrect; left; reflexivity).
      destruct a as [|x [|y [|z [|w a]]]]; cbn [List.length] in Ha;
        try discriminate.
      reflexivity.
    - apply IH; [|lia].
      intros r Hr. apply Hrect. right. exact Hr. }
  unfold read_ang_table, select_not_nan, shape, table, cell. cbn [fst].
  fold euler. rewrite Hm.
  destruct (Nat.ltb_spec 3 (List.length angles)) as [_|Hc]; [|lia].
  rewrite Hcut. cbn [fst snd]. rewrite length_map.
  destruct (Nat.eqb_spec (List.length angles) 0) as [E0|_]; [lia|].
  cbn [bind].
  apply (flatten_reshape_rectangular 3); [|exact Hrect].
  destruct angles; [cbn [List.length] in H3; lia | discriminate].
Qed.

(** Four rows of three angles followed by columns with NaN cells. *)
Lemma read_ang_table_first_columns_witness :
  read_ang_table
    [ [Some 0.1; Some 0.2; Some 0.3; None; Some 7];
      [Some 0.4; Some 0.5; Some 0.6; Some 1; None];
      [Some 0.7; Some 0.8; Some 0.9; None; None];
      [Some 1.0; Some 1.1; Some 1.2; Some 2; Some 3] ]
  = Ok [ [0.1; 0.2; 0.3]; [0.4; 0.5; 0.6]; [0.7; 0.8; 0.9]; [1.0; 1.1; 1.2] ].
Proof.
  apply (read_ang_table_first_columns
           [ [0.1; 0.2; 0.3]; [0.4; 0.5; 0.6]; [0.7; 0.8; 0.9];
             [1.0; 1.1; 1.2] ]
           [ [None; Some 7]; [Some 1; None]; [None; None];
             [Some 2; Some 3] ]).
  - cbn [List.length]. lia.
  - intros r [<-|[<-|[<-|[<-|[]]]]]; reflexivity.
  - reflexivity.
Defined.

(* ================================================================== *)
(** * The two routines on the tables of the model *)
(* ================================================================== *)

Section Frames.

Variable read_table : string -> result table.
Variables A_interp B_interp C_interp : R -> R.

(** The loop of [get_seismic] reads nothing of [self]: it changes the
    stiffness table only, and on another model with the same stiffness
    table it writes the same table and prints the same lines. *)
Lemma get_seismic_loop_frame (material : Material.t) (inds : list nat) :
  forall self out self' out',
    get_seismic_loop read_table material inds self out = Ok (self', out') ->
    f0 self' = f0 self
    /\ permittivity_coefficients self' = permittivity_coefficients self
    /\ conductivity_coefficients self' = conductivity_coefficients self
    /\ exists o,
         out' = out ++ o
         /\ forall self2 out2,
              stiffness_coefficients self2 = stiffness_coefficients self ->
              get_seismic_loop read_table material inds self2 out2
              = Ok (mk_Model (f0 self2) (stiffness_coefficients self')
                             (permittivity_coefficients self2)
                             (conductivity_coefficients self2),
                    out2 ++ o).
Proof.
  induction inds as [|ind rest IH]; intros self out self' out' H.
  - cbn [get_seismic_loop] in H. injection H as <- <-.
    repeat split. exists []. split; [symmetry; apply app_nil_r|].
    intros [f s p c] out2 E. cbn in E. subst s.
    cbn [get_seismic_loop f0 stiffness_coefficients
         permittivity_coefficients conductivity_coefficients].
    rewrite app_nil_r. reflexivity.
  - cbn [get_seismic_loop] in H.
    apply bind_Ok_inv in H as [[row o1] [Erow H]].
    destruct (IH _ _ _ _ H) as [Hf [Hp [Hc [o [Eo Hother]]]]].
    cbn [f0 permittivity_coefficients conductivity_coefficients
         stiffness_coefficients] in Hf, Hp, Hc, Hother.
    split; [exact Hf|]. split; [exact Hp|]. split; [exact Hc|].
    exists (o1 ++ o). split; [rewrite Eo; symmetry; apply app_assoc|].
    intros self2 out2 E. cbn [get_seismic_loop]. rewrite Erow. cbn [bind].
    rewrite (Hother _ (out2 ++ o1)).
    + cbn [f0 permittivity_coefficients conductivity_coefficients].
      rewrite app_assoc. reflexivity.
    + cbn [stiffness_coefficients]. rewrite E. reflexivity.
Qed.

(** The body of the loop of [get_perm] reads the frequency of [self] and
    nothing else of it. *)
Lemma get_perm_row_frequency (self self2 : Model) (material : Material.t)
    (ind : nat) :
  f0 self2 = f0 self ->
  get_perm_row read_table A_interp B_interp C_interp self2 material ind
  = get_perm_row read_table A_interp B_interp C_interp self material ind.
Proof.
  intros E. unfold get_perm_row, dielectric_branch. rewrite E. reflexivity.
Qed.

Lemma get_perm_loop_frame (material : Material.t) (inds : list nat) :
  forall self out self' out',
    get_perm_loop read_table A_interp B_interp C_interp material inds
                  self out = Ok (self', out') ->
    f0 self' = f0 self
    /\ stiffness_coefficients self' = stiffness_coefficients self
    /\ exists o,
         out' = out ++ o
         /\ forall self2 out2,
              f0 self2 = f0 self ->
              permittivity_coefficients self2
              = permittivity_coefficients self ->
              conductivity_coefficients self2
              = conductivity_coefficients self ->
              get_perm_loop read_table A_interp B_interp C_interp
                            material inds self2 out2
              = Ok (mk_Model (f0 self2) (stiffness_coefficients self2)
                             (permittivity_coefficients self')
                             (conductivity_coefficients self'),
                    out2 ++ o).
Proof.
  induction inds as [|ind rest IH]; intros self out self' out' H.
  - cbn [get_perm_loop] in H. injection H as <- <-.
    repeat split. exists []. split; [symmetry; apply app_nil_r|].
    intros [f s p c] out2 _ Ep Ec. cbn in Ep, Ec. subst p c.
    cbn [get_perm_loop f0 stiffness_coefficients
         permittivity_coefficients conductivity_coefficients].
    rewrite app_nil_r. reflexivity.
  - cbn [get_perm_loop] in H.
    apply bind_Ok_inv in H as [[[prow crow] o1] [Erow H]].
    destruct (IH _ _ _ _ H) as [Hf [Hs [o [Eo Hother]]]].
    cbn [f0 permittivity_coefficients conductivity_coefficients
         stiffness_coefficients] in Hf, Hs, Hother.
    split; [exact Hf|]. split; [exact Hs|].
    exists (o1 ++ o). split; [rewrite Eo; symmetry; apply app_assoc|].
    intros self2 out2 Ef Ep Ec. cbn [get_perm_loop].
    rewrite (get_perm_row_frequency self self2 material ind Ef), Erow.
    cbn [bind].
    rewrite (Hother _ (out2 ++ o1)).
    + cbn [f0 stiffness_coefficients]. rewrite app_assoc. reflexivity.
    + cbn [f0]. exact Ef.
    + cbn [permittivity_coefficients]. rewrite Ep. reflexivity.
    + cbn [conductivity_coefficients]. rewrite Ec. reflexivity.
Qed.

(** X12.  [get_seismic] and [get_perm] work on separate parts of the model.
    [get_seismic] leaves the frequency and the permittivity and
    conductivity tables as they are, [get_perm] leaves the frequency and
    the stiffness table as they are, and the two commute: when
    [get_seismic] and then [get_perm] return, [get_perm] and then
    [get_seismic] return the same model, each printing the same lines as
    before. *)
Theorem get_seismic_get_perm_commute
    (self s1 s2 : Model) (material : Material.t) (o1 o2 : list string) :
  get_seismic read_table self material = Ok (s1, o1) ->
  get_perm read_table A_interp B_interp C_interp s1 material = Ok (s2, o2) ->
  (f0 s1 = f0 self
   /\ permittivity_coefficients s1 = permittivity_coefficients self
   /\ conductivity_coefficients s1 = conductivity_coefficients self)
  /\ (f0 s2 = f0 s1
      /\ stiffness_coefficients s2 = stiffness_coefficients s1)
  /\ exists s1',
       get_perm read_table A_interp B_interp C_interp self material
       = Ok (s1', o2)
       /\ get_seismic read_table s1' material = Ok (s2, o1).
Proof.
  unfold get_seismic, get_perm. intros H1 H2.
  destruct (get_seismic_loop_frame _ _ _ _ _ _ H1)
    as [Hf1 [Hp1 [Hc1 [o [Eo1 Hseis]]]]].
  destruct (get_perm_loop_frame _ _ _ _ _ _ H2)
    as [Hf2 [Hs2 [o' [Eo2 Hperm]]]].
  cbn [app] in Eo1, Eo2. subst o1 o2.
  split; [repeat split; assumption|]. split; [split; assumption|].
  exists (mk_Model (f0 self) (stiffness_coefficients self)
                   (permittivity_coefficients s2)
                   (conductivity_coefficients s2)).
  split.
  - rewrite (Hperm self [] (eq_sym Hf1) (eq_sym Hp1) (eq_sym Hc1)).
    reflexivity.
  - rewrite (Hseis (mk_Model (f0 self) (stiffness_coefficients self)
                             (permittivity_coefficients s2)
                             (conductivity_coefficients s2)) [] eq_refl).
    cbn [f0 permittivity_coefficients conductivity_coefficients app].
    destruct s2 as [f s p c].
    cbn [f0 stiffness_coefficients permittivity_coefficients
         conductivity_coefficients] in *.
    rewrite Hs2, <- Hf1, <- Hf2. reflexivity.
Qed.

End Frames.

(** The statement on the granite sample, where both routines return. *)
Lemma get_seismic_get_perm_commute_witness :
  let g := fun _ : R => 0 in
  exists s1 s2 o1 o2,
    get_seismic no_files empty_model granite_sample = Ok (s1, o1)
    /\ get_perm no_files g g g s1 granite_sample = Ok (s2, o2)
    /\ exists s1',
         get_perm no_files g g g empty_model granite_sample = Ok (s1', o2)
         /\ get_seismic no_files s1' granite_sample = Ok (s2, o1).
Proof.
  intros g.
  assert (E1 : exists s1 o1,
             get_seismic no_files empty_model granite_sample = Ok (s1, o1))
    by (do 2 eexists; reflexivity).
  destruct E1 as [s1 [o1 E1]].
  assert (E2 : exists s2 o2,
             get_perm no_files g g g s1 granite_sample = Ok (s2, o2))
    by (do 2 eexists; reflexivity).
  destruct E2 as [s2 [o2 E2]].
  exists s1, s2, o1, o2. split; [exact E1|]. split; [exact E2|].
  exact (proj2 (proj2 (get_seismic_get_perm_commute
                         no_files g g g empty_model s1 s2 granite_sample
                         o1 o2 E1 E2))).
Defined.



(* ================================================================== *)
(** * Velocities from the packed tensors *)
(* ================================================================== *)

(** The 6-by-6 array that [tensor2velocities] builds from 21 values holds
    the upper triangle as given and its mirror image below. *)
Lemma unpack21_upper21 (C : ndarray) (i j : nat) :
  (i < 6)%nat -> (j < 6)%nat ->
  unpack21 (upper21 C) i j = if Nat.leb i j then C i j else C j i.
Proof.
  intros Hi Hj. enum_indices;
    unfold unpack21, upper21, slice, add, transpose, triu, set, set_row,
           set_row_from, zeros;
    cbn [Nat.eqb Nat.leb Nat.add Nat.sub andb nth firstn skipn];
    lra.
Qed.

Lemma unpack6_upper6 (P : ndarray) (i j : nat) :
  (i < 3)%nat -> (j < 3)%nat ->
  unpack6 (upper6 P) i j = if Nat.leb i j then P i j else P j i.
Proof.
  intros Hi Hj. enum_indices;
    unfold unpack6, upper6, slice, add, transpose, triu, set, set_row,
           set_row_from, zeros;
    cbn [Nat.eqb Nat.leb Nat.add Nat.sub andb nth firstn skipn];
    lra.
Qed.

(** X14.  [tensor2velocities] undoes the packing of [get_seismic] and
    [get_perm].  For a symmetric 6-by-6 tensor [C] the array it builds
    from the 21 upper-triangular values is [C], and for a symmetric 3-by-3
    tensor [P] the array it builds from the 6 values is [P]; the
    velocities of the packed values are those of the full tensors. *)
Theorem tensor2velocities_unpacks (C P : ndarray) (rho : R) :
  symmetric 6 C -> symmetric 3 P ->
  meq 6 (unpack21 (upper21 C)) C
  /\ meq 3 (unpack6 (upper6 P)) P
  /\ tensor2velocities (Packed (upper21 C)) rho true
     = tensor2velocities (Square 6 C) rho true
  /\ tensor2velocities (Packed (upper6 P)) rho false
     = tensor2velocities (Square 3 P) rho false.
Proof.
  intros HC HP. split; [|split; [|split]].
  - intros i j Hi Hj. rewrite (unpack21_upper21 C i j Hi Hj).
    destruct (Nat.leb i j); [reflexivity | apply HC; assumption].
  - intros i j Hi Hj. rewrite (unpack6_upper6 P i j Hi Hj).
    destruct (Nat.leb i j); [reflexivity | apply HP; assumption].
  - unfold tensor2velocities, index2.
    cbn [upper21 List.length Nat.eqb Nat.ltb Nat.leb andb bind].
    rewrite !unpack21_upper21 by lia. reflexivity.
  - unfold tensor2velocities, index2.
    cbn [upper6 List.length Nat.eqb Nat.ltb Nat.leb andb bind].
    rewrite !unpack6_upper6 by lia. reflexivity.
Qed.

Lemma tensor2velocities_unpacks_witness :
  meq 6 (unpack21 (upper21 eye)) eye
  /\ meq 3 (unpack6 (upper6 eye)) eye
  /\ tensor2velocities (Packed (upper21 eye)) 910 true
     = tensor2velocities (Square 6 eye) 910 true
  /\ tensor2velocities (Packed (upper6 eye)) 910 false
     = tensor2velocities (Square 3 eye) 910 false.
Proof.
  apply (tensor2velocities_unpacks eye eye 910).
  - apply (eye_symmetric 6).
  - apply (eye_symmetric 3).
Defined.

(** X15.  [tensor2velocities] inverts [isotropic_stiffness_tensor].  For a
    positive density and non-negative interpolated velocities, the four
    velocities computed from the isotropic tensor, given in full or as its
    21 packed values, with the same density are Vp, Vp, Vs and Vs. *)
Theorem tensor2velocities_isotropic
    (pressure density : R) (material_limits : limits) :
  0 < density ->
  0 <= pvelocity pressure material_limits ->
  0 <= svelocity pressure material_limits ->
  let C := isotropic_stiffness_tensor pressure density material_limits in
  let vp := pvelocity pressure material_limits in
  let vs := svelocity pressure material_limits in
  tensor2velocities (Square 6 C) density true = Ok [vp; vp; vs; vs]
  /\ tensor2velocities (Packed (upper21 C)) density true
     = Ok [vp; vp; vs; vs].
Proof.
  intros Hrho Hp Hs C vp vs.
  assert (E : tensor2velocities (Square 6 C) density true
              = Ok [vp; vp; vs; vs]).
  { unfold tensor2velocities, index2.
    cbn [Nat.ltb Nat.leb andb bind].
    unfold C, isotropic_stiffness_tensor.
    destruct (assign_isotropic_entries
                (lame_lam pressure density material_limits)
                (lame_mu pressure density material_limits))
      as [[H00 [_ H22]] [[H01 _] [H33 _]]].
    rewrite H00, H22, H01, H33.
    unfold lame_lam, lame_mu. fold vp. fold vs.
    replace ((density * vp ^ 2 - 2 * (density * vs ^ 2)
              + 2 * (density * vs ^ 2)) / density)
      with (vp * vp) by (field; lra).
    replace (density * vs ^ 2 / density) with (vs * vs) by (field; lra).
    replace ((density * vp ^ 2 - 2 * (density * vs ^ 2)
              + 2 * (density * vs ^ 2)
              - (density * vp ^ 2 - 2 * (density * vs ^ 2)))
             / (2 * density))
      with (vs * vs) by (field; lra).
    rewrite (sqrt_square vp Hp), (sqrt_square vs Hs). reflexivity. }
  split; [exact E|]. rewrite <- E.
  unfold tensor2velocities, index2.
  cbn [upper21 List.length Nat.eqb Nat.ltb Nat.leb andb bind].
  rewrite !unpack21_upper21 by lia. reflexivity.
Qed.

(** The statement for granite (2700 kg/m3) at pressure 0. *)
Lemma tensor2velocities_isotropic_witness :
  let granite := mk_limits 4500 6000 2500 3300 4.8 18.9 4.0e-5 2.5e-4 in
  let C := isotropic_stiffness_tensor 0 2700 granite in
  let vp := pvelocity 0 granite in
  let vs := svelocity 0 granite in
  tensor2velocities (Square 6 C) 2700 true = Ok [vp; vp; vs; vs]
  /\ tensor2velocities (Packed (upper21 C)) 2700 true = Ok [vp; vp; vs; vs].
Proof.
  intros granite.
  apply (tensor2velocities_isotropic 0 2700 granite).
  - lra.
  - unfold pvelocity, granite. cbn [Vp_max Vp_min]. rewrite atan_0. lra.
  - unfold svelocity, granite. cbn [Vs_max Vs_min]. rewrite atan_0. lra.
Defined.

(** X16.  Which 1-D arrays [tensor2velocities] accepts.  With [seismic] true
    it raises [IndexError] exactly when the array does not hold 21 values:
    also on the 6 values of a permittivity, and on a record of
    [get_seismic], which holds 22.  With [seismic] false it raises
    [IndexError] exactly when the array holds neither 6 nor 21 values. *)
Theorem tensor2velocities_index_error (values : list R) (rho : R) :
  (tensor2velocities (Packed values) rho true = Raise IndexError
   <-> List.length values <> 21%nat)
  /\ (tensor2velocities (Packed values) rho false = Raise IndexError
      <-> List.length values <> 6%nat /\ List.length values <> 21%nat)
  /\ (forall (C : ndarray) (density : R),
        tensor2velocities (Packed (upper21 (round_array C) ++ [density]))
                          rho true
        = Raise IndexError).
Proof.
  assert (Htrue : tensor2velocities (Packed values) rho true
                  = Raise IndexError
                  <-> List.length values <> 21%nat).
  { unfold tensor2velocities.
    destruct (Nat.eqb_spec (List.length values) 6) as [E6|E6].
    - cbn [index2 Nat.ltb Nat.leb andb bind]. split; [lia | reflexivity].
    - destruct (Nat.eqb_spec (List.length values) 21) as [E21|E21].
      + cbn [index2 Nat.ltb Nat.leb andb bind].
        split; [discriminate | contradiction].
      + cbn [index2 bind]. split; [intros _; exact E21 | reflexivity]. }
  split; [exact Htrue|]. split.
  - unfold tensor2velocities.
    destruct (Nat.eqb_spec (List.length values) 6) as [E6|E6].
    + cbn [index2 Nat.ltb Nat.leb andb bind].
      split; [discriminate | intros [H _]; contradiction].
    + destruct (Nat.eqb_spec (List.length values) 21) as [E21|E21].
      * cbn [index2 Nat.ltb Nat.leb andb bind].
        split; [discriminate | intros [_ H]; contradiction].
      * cbn [index2 bind]. split; [intros _; split; assumption | reflexivity].
  - intros C density. reflexivity.
Qed.

(* ================================================================== *)
(** * The arrays over the image *)
(* ================================================================== *)

Section MapM.

Context {A B : Type}.
Variable f : A -> result B.

Lemma mapM_nth_error (l : list A) :
  forall ys i x,
    mapM f l = Ok ys -> nth_error l i = Some x ->
    exists y, f x = Ok y /\ nth_error ys i = Some y.
Proof.
  induction l as [|a l IH]; intros ys i x H Hx.
  - destruct i; discriminate.
  - cbn [mapM] in H.
    apply bind_Ok_inv in H as [y [Ey H]].
    apply bind_Ok_inv in H as [ys' [Eys H]].
    injection H as <-.
    destruct i as [|i]; cbn [nth_error] in *.
    + injection Hx as <-. exists y. split; [exact Ey | reflexivity].
    + exact (IH ys' i x Eys Hx).
Qed.


Variable e0 : exn.
Hypothesis only_e0 : forall x e, f x = Raise e -> e = e0.

Lemma mapM_raise_only (l : list A) (e : exn) :
  mapM f l = Raise e -> e = e0.
Proof.
  induction l as [|a l IH]; cbn [mapM]; [discriminate|].
  destruct (f a) as [y|e'] eqn:Ea; cbn [bind].
  - destruct (mapM f l) as [ys|e'']; cbn [bind]; [discriminate|].
    intros H. injection H as <-. apply IH. reflexivity.
  - intros H. injection H as <-. exact (only_e0 a e' Ea).
Qed.

Lemma mapM_raises (l : list A) (x : A) :
  In x l -> f x = Raise e0 -> mapM f l = Raise e0.
Proof.
  induction l as [|a l IH]; intros Hin Hx; [destruct Hin|].
  cbn [mapM].
  destruct (f a) as [y|e'] eqn:Ea; cbn [bind].
  - destruct Hin as [->|Hin]; [congruence|].
    rewrite (IH Hin Hx). reflexivity.
  - rewrite (only_e0 a e' Ea). reflexivity.
Qed.

End MapM.

Lemma nth_map_fst_snd {A B : Type} (ys : list (A * B)) (j : nat) (y : A * B)
    (da : A) (db : B) :
  nth_error ys j = Some y ->
  nth j (map fst ys) da = fst y /\ nth j (map snd ys) db = snd y.
Proof.
  revert j. induction ys as [|y0 ys IH]; intros [|j] H;
    cbn [nth_error] in H; try discriminate.
  - injection H as <-. split; reflexivity.
  - exact (IH j H).
Qed.

(** The cells of the two arrays built pixel by pixel. *)
Lemma mapM_mapM_cells {A B C : Type} (f : A -> result (B * C))
    (im : list (list A)) (cells : list (list (B * C)))
    (i j : nat) (row : list A) (x : A) (db : B) (dc : C) :
  mapM (mapM f) im = Ok cells ->
  nth_error im i = Some row -> nth_error row j = Some x ->
  f x = Ok (nth j (nth i (map (map fst) cells) []) db,
            nth j (nth i (map (map snd) cells) []) dc).
Proof.
  intros H Hrow Hx.
  destruct (mapM_nth_error (mapM f) im cells i row H Hrow)
    as [ys [Eys Hys]].
  destruct (mapM_nth_error f row ys j x Eys Hx) as [y [Ey Hy]].
  destruct (nth_map_fst_snd ys j y db dc Hy) as [H1 H2].
  assert (Hf : nth i (map (map fst) cells) [] = map fst ys).
  { apply nth_error_nth, map_nth_error. exact Hys. }
  assert (Hs : nth i (map (map snd) cells) [] = map snd ys).
  { apply nth_error_nth, map_nth_error. exact Hys. }
  rewrite Hf, Hs, H1, H2, Ey. destruct y; reflexivity.
Qed.



Lemma pressure_cell_raise_only (temp rho porosity lwc : list R)
    (id : nat) (e : exn) :
  pressure_cell temp rho porosity lwc id = Raise e -> e = IndexError.
Proof.
  unfold pressure_cell, item.
  destruct (nth_error temp id); cbn [bind]; [|congruence].
  destruct (nth_error rho id); cbn [bind]; [|congruence].
  destruct (nth_error porosity id); cbn [bind]; [|congruence].
  destruct (nth_error lwc id); cbn [bind]; [|congruence].
  destruct (porewater_correction _ _ _ _) as [[d ga] gw]. discriminate.
Qed.

(** X18.  With the default [porosity] (or the default [lwc]), the one-entry
    list [[0]], [pressure_array] raises [IndexError] on every image that
    holds a material ID other than 0. *)
Theorem pressure_array_default_raises
    (im : list (list nat)) (temp rho : list R) (dz : R)
    (porosity lwc : list R) (row : list nat) (id : nat) :
  In row im -> In id row -> (1 <= id)%nat ->
  porosity = default_zero \/ lwc = default_zero ->
  pressure_array im temp rho dz porosity lwc = Raise IndexError.
Proof.
  intros Hrow Hid H1 Hdef.
  assert (Hcell : pressure_cell temp rho porosity lwc id = Raise IndexError).
  { destruct (pressure_cell temp rho porosity lwc id) as [[t d]|e] eqn:E.
    - exfalso. unfold pressure_cell in E.
      apply bind_Ok_inv in E as [t' [_ E]].
      apply bind_Ok_inv in E as [r' [_ E]].
      apply bind_Ok_inv in E as [p' [Ep E]].
      apply bind_Ok_inv in E as [l' [El _]].
      destruct id as [|id]; [lia|].
      destruct Hdef as [-> | ->]; unfold default_zero, item in *;
        cbn [nth_error] in *; destruct id; discriminate.
    - rewrite (pressure_cell_raise_only _ _ _ _ _ _ E). reflexivity. }
  unfold pressure_array.
  rewrite (mapM_raises (mapM (pressure_cell temp rho porosity lwc))
             IndexError
             (mapM_raise_only _ IndexError
                (pressure_cell_raise_only temp rho porosity lwc))
             im row Hrow).
  - reflexivity.
  - exact (mapM_raises _ IndexError
             (pressure_cell_raise_only temp rho porosity lwc) row id Hid
             Hcell).
Qed.

(** An image of two materials with the defaults of both arguments. *)
Lemma pressure_array_default_raises_witness :
  pressure_array [[0; 0]; [0; 1]]%nat [-5; -10] [917; 2700] 2
                 default_zero default_zero
  = Raise IndexError.
Proof.
  apply (pressure_array_default_raises _ _ _ _ _ _ [0; 1]%nat 1%nat).
  - right. left. reflexivity.
  - right. left. reflexivity.
  - lia.
  - left. reflexivity.
Defined.

Lemma first_char_length (s : string) : (String.length (first_char s) <= 1)%nat.
Proof. destruct s; cbn [first_char String.length]; lia. Qed.

(** X19.  When [anisotropic_boolean] returns, the flag of a pixel is true
    exactly when the entry of [matbool] for its material ID is 'true',
    'TRUE' or 'True'; the file cell of a flagged pixel holds the first
    character of the entry of [angvect] and nothing more, and the file
    cell of any other pixel is empty: no cell holds more than one
    character. *)
Theorem anisotropic_boolean_cells
    (im : list (list nat)) (matbool angvect : list string)
    (anisotropic : list (list bool)) (afile : list (list string))
    (i j : nat) (row : list nat) (id : nat) :
  anisotropic_boolean im matbool angvect = Ok (anisotropic, afile) ->
  nth_error im i = Some row -> nth_error row j = Some id ->
  let flag := nth j (nth i anisotropic []) false in
  let file := nth j (nth i afile []) EmptyString in
  (exists s,
     item matbool id = Ok s
     /\ flag = (String.eqb s "true" || String.eqb s "TRUE"
                || String.eqb s "True"))
  /\ (String.length file <= 1)%nat
  /\ (flag = true ->
      exists name, item angvect id = Ok name /\ file = first_char name)
  /\ (flag = false -> file = EmptyString).
Proof.
  unfold anisotropic_boolean. intros H Hrow Hid.
  apply bind_Ok_inv in H as [cells [Ecells H]].
  injection H as <- <-.
  pose proof (mapM_mapM_cells _ im cells i j row id false EmptyString
                Ecells Hrow Hid) as Hcell.
  cbv zeta.
  set (flag := nth j (nth i (map (map fst) cells) []) false) in *.
  set (file := nth j (nth i (map (map snd) cells) []) EmptyString) in *.
  unfold anisotropic_cell in Hcell.
  apply bind_Ok_inv in Hcell as [s [Es Hcell]].
  destruct (String.eqb s "true" || String.eqb s "TRUE"
            || String.eqb s "True") eqn:Eb.
  - apply bind_Ok_inv in Hcell as [name [En Hcell]].
    injection Hcell as Hflag Hfile.
    split; [exists s; split; [exact Es | congruence]|].
    split; [rewrite <- Hfile; apply first_char_length|].
    split; [intros _; exists name; split; [exact En | congruence]|].
    congruence.
  - injection Hcell as Hflag Hfile.
    split; [exists s; split; [exact Es | congruence]|].
    split; [rewrite <- Hfile; cbn [String.length]; lia|].
    split; [congruence | intros _; congruence].
Qed.

(** An isotropic and an anisotropic material: of the file name
    'fabric.ang' the cell keeps 'f'. *)
Lemma anisotropic_boolean_cells_witness :
  exists anisotropic afile,
    anisotropic_boolean [[0; 1]]%nat ["false"; "True"]%string
                        [""; "fabric.ang"]%string
    = Ok (anisotropic, afile)
    /\ nth 1 (nth 0 anisotropic []) false = true
    /\ nth 1 (nth 0 afile []) EmptyString = "f"%string
    /\ (String.length (nth 1 (nth 0 afile []) EmptyString) <= 1)%nat.
Proof.
  exists [[false; true]], [[""; "f"]]%string.
  split; [reflexivity|]. split; [reflexivity|]. split; [reflexivity|].
  exact (proj1 (proj2 (anisotropic_boolean_cells
                         [[0; 1]]%nat ["false"; "True"]%string
                         [""; "fabric.ang"]%string
                         [[false; true]] [[""; "f"]]%string
                         0 1 [0; 1]%nat 1%nat
                         eq_refl eq_refl eq_refl))).
Defined.

(* ================================================================== *)
(** * Ranges of the material functions *)
(* ================================================================== *)

(** Bounds on Gammon's constants between -60 C and 0 C and between 0 and
    1 kbar. *)
Lemma gammon_bounds (t p : R) :
  -60 <= t <= 0 -> 0 <= p <= 1 ->
  136 <= gammon_c11 t p /\ 69 <= gammon_c12 t p
  /\ -70 <= gammon_c13 t p <= 70 /\ 147 <= gammon_c33 t p
  /\ 29 <= gammon_c44 t p
  /\ 66 <= gammon_c11 t p - gammon_c12 t p.
Proof.
  intros Ht Hp.
  assert (Ht2 : 0 <= t * t <= 3600) by nra.
  assert (Hp2 : 0 <= p * p <= 1) by nra.
  assert (Htt : 0 <= - t * (0.14267 + 0.00087908 * t)) by nra.
  assert (Ht11 : 0 <= - t * (0.28940 + 0.00178270 * t)) by nra.
  assert (Ht12 : 0 <= - t * (0.14673 + 0.00090362 * t)) by nra.
  assert (Ht33 : 0 <= - t * (0.31129 + 0.0018948 * t)) by nra.
  assert (Ht44 : 0 <= - t * (0.062874 + 0.00038956 * t)) by nra.
  unfold gammon_c11, gammon_c12, gammon_c13, gammon_c33, gammon_c44.
  cbn [pow]. repeat split; nra.
Qed.

(** X20.  Between -60 C and 0 C and between 0 and 1 kbar the stiffness of
    [ice_stiffness] is invertible: [np.linalg.inv(C)], which [get_seismic]
    takes for anisotropic ice, returns, and the compliance it returns has
    the hexagonal form of the closed-form inverse. *)
Theorem ice_stiffness_invertible (temperature pressure : R) :
  -60 <= temperature <= 0 -> 0 <= pressure <= 1 ->
  exists S,
    linalg_inv 6 (ice_stiffness temperature pressure) = Ok S
    /\ is_inverse 6 (ice_stiffness temperature pressure) S
    /\ meq 6 S
         (hexagonal_compliance
            (gammon_c11 temperature pressure * 1e8)
            (gammon_c12 temperature pressure * 1e8)
            (gammon_c13 temperature pressure * 1e8)
            (gammon_c33 temperature pressure * 1e8)
            (gammon_c44 temperature pressure * 1e8)
            ((gammon_c11 temperature pressure
              - gammon_c12 temperature pressure) / 2 * 1e8)).
Proof.
  intros Ht Hp.
  destruct (gammon_bounds temperature pressure Ht Hp)
    as [Ha [Hb [Hc [Hd [He Hab]]]]].
  set (a := gammon_c11 temperature pressure) in *.
  set (b := gammon_c12 temperature pressure) in *.
  set (c := gammon_c13 temperature pressure) in *.
  set (d := gammon_c33 temperature pressure) in *.
  set (e := gammon_c44 temperature pressure) in *.
  assert (Hc2 : c * c <= 4900) by nra.
  assert (Habd : 205 * 147 <= (a + b) * d) by nra.
  assert (Hinv : is_inverse 6 (ice_stiffness temperature pressure)
                   (hexagonal_compliance (a * 1e8) (b * 1e8) (c * 1e8)
                      (d * 1e8) (e * 1e8) ((a - b) / 2 * 1e8))).
  { eapply is_inverse_meq;
      [apply meq_sym, ice_stiffness_is_hexagonal | apply meq_refl |].
    fold a b c d e.
    apply hexagonal_inverse; cbn [pow]; nra. }
  destruct (linalg_inv_of_inverse 6 _ _ Hinv) as [S [ES HS]].
  exists S. split; [exact ES|]. split; [|exact HS].
  exact (linalg_inv_Ok 6 _ S ES).
Qed.

(** The statement at -20 C and the pressure 0.01 kbar that [get_seismic]
    passes for anisotropic ice. *)
Lemma ice_stiffness_invertible_witness :
  exists S,
    linalg_inv 6 (ice_stiffness (-20) (0.1 * 1e-1)) = Ok S
    /\ is_inverse 6 (ice_stiffness (-20) (0.1 * 1e-1)) S.
Proof.
  destruct (ice_stiffness_invertible (-20) (0.1 * 1e-1)) as [S [E [H _]]];
    [lra | lra |].
  exists S. split; assumption.
Defined.

(** X21.  [porewater_correction] for a temperature between -50 C and
    100 C and a porosity and a water content between 0 and 100 percent.
    On this range the two quotients of the source, by [273 + temperature]
    and by [1 + 16.897850e-3 * temperature], are by positive numbers (the
    second is zero near -59.18 C, where the source divides by zero).  The
    air contribution is not negative; the water contribution is the water
    fraction times a water density that is kept between 950 and
    999.83952 kg/m3; the corrected density lies between the density given
    and the density of the pore filling, and is the density given when the
    porosity is 0. *)
Theorem porewater_correction_bounds
    (temperature density porosity liquid_water_content : R) :
  -50 <= temperature <= 100 ->
  0 <= porosity <= 100 ->
  0 <= liquid_water_content <= 100 ->
  let '(corrected, grams_air, grams_water) :=
    porewater_correction temperature density porosity
                         liquid_water_content in
  (0 < 273 + temperature /\ 0 < 1 + 16.897850e-3 * temperature)
  /\ 0 <= grams_air
  /\ 9.5 * liquid_water_content <= grams_water
     <= 9.9983952 * liquid_water_content
  /\ Rmin density (grams_air + grams_water) <= corrected
     <= Rmax density (grams_air + grams_water)
  /\ (porosity = 0 -> corrected = density).
Proof.
  intros Ht Hphi Hw. unfold porewater_correction.
  split; [split; lra|].
  set (rho_air := 0.02897 / (8.2057338e-5 * (273 + temperature))).
  set (rho_water :=
         Rmin (Rmax (rho_water_correction temperature) 950)
              (rho_water_correction 0.0)).
  assert (Hair : 0 < rho_air).
  { unfold rho_air. apply Rdiv_lt_0_compat; nra. }
  assert (H0 : rho_water_correction 0.0 = 999.83952).
  { unfold rho_water_correction. cbn [pow].
    replace (1 + 16.897850e-3 * 0.0) with 1 by lra. lra. }
  assert (Hwater : 950 <= rho_water <= 999.83952).
  { unfold rho_water. rewrite H0. split.
    - apply Rmin_glb; [apply Rmax_r | lra].
    - apply Rmin_r. }
  set (ga := (1 - liquid_water_content / 100) * rho_air).
  set (gw := liquid_water_content / 100 * rho_water).
  assert (Hga : 0 <= ga) by (unfold ga; nra).
  assert (Hgw : 9.5 * liquid_water_content <= gw
                <= 9.9983952 * liquid_water_content)
    by (unfold gw; nra).
  split; [exact Hga|]. split; [exact Hgw|]. split.
  - unfold Rmin, Rmax.
    destruct (Rle_dec density (ga + gw)); nra.
  - intros ->. lra.
Qed.

(** Snow of 400 kg/m3 at -5 C with 30 percent porosity and 10 percent
    water. *)
Lemma porewater_correction_bounds_witness :
  let '(corrected, grams_air, grams_water) :=
    porewater_correction (-5) 400 30 10 in
  (0 < 273 + -5 /\ 0 < 1 + 16.897850e-3 * -5)
  /\ 0 <= grams_air
  /\ 9.5 * 10 <= grams_water <= 9.9983952 * 10
  /\ Rmin 400 (grams_air + grams_water) <= corrected
     <= Rmax 400 (grams_air + grams_water)
  /\ (30 = 0 -> corrected = 400).
Proof.
  apply (porewater_correction_bounds (-5) 400 30 10); lra.
Defined.

(** X22.  [ice_density] between -20 C and 0 C, for every [method]: the
    density is at least the reference 917 kg/m3, and it is the reference
    exactly at 0 C. *)
Theorem ice_density_cold (temperature : R) (method : option string) :
  -20 <= temperature <= 0 ->
  917 <= ice_density temperature method
  /\ (ice_density temperature method = 917 <-> temperature = 0).
Proof.
  intros Ht. unfold ice_density.
  destruct (match method with
            | Some m => String.eqb m "gammon"
            | None => false
            end).
  - set (t := temperature) in *.
    set (q := 1 + 1.576e-4 * t - 2.778e-7 * t ^ 2 + 8.850e-9 * t ^ 3
              - 1.778e-10 * t ^ 4).
    assert (Ht2 : 0 <= t * t <= 400) by nra.
    assert (Ht3 : -8000 <= t * (t * t) <= 0) by nra.
    assert (Ht4 : 0 <= (t * t) * (t * t) <= 160000) by nra.
    assert (Hq : q = 1 + 1.576e-4 * t - 2.778e-7 * (t * t)
                     + 8.850e-9 * (t * (t * t))
                     - 1.778e-10 * ((t * t) * (t * t)))
      by (unfold q; ring).
    assert (Hq0 : 0 < q) by lra.
    assert (Hq1 : q <= 1) by lra.
    assert (E : 1 / (1 / 917 * q) = 917 / q) by (field; lra).
    rewrite E. split.
    + apply (Rmult_le_reg_r q); [exact Hq0|].
      replace (917 / q * q) with 917 by (field; lra). nra.
    + split.
      * intros H917.
        assert (Hq917 : q = 1).
        { apply (Rmult_eq_reg_l 917); [|lra].
          rewrite <- H917 at 1. field. lra. }
        destruct (Req_dec t 0) as [H0|H0]; [exact H0|exfalso].
        assert (Hlt : t < 0) by lra.
        assert (Hpos : 0 < - t * (t * t) /\ 0 < t * t) by nra.
        lra.
      * intros H0. unfold q. rewrite H0. field.
  - split; [nra|]. split; [intros H; nra | intros ->; lra].
Qed.

Lemma ice_density_cold_witness :
  917 <= ice_density (-10) (Some "gammon"%string)
  /\ (ice_density (-10) (Some "gammon"%string) = 917 <-> -10 = 0).
Proof.
  apply (ice_density_cold (-10) (Some "gammon"%string)). lra.
Defined.
